(** * Restraint score calculator: a shallow embedding and its properties

    The development follows [Restraints_quality_calculator.py].

    - [Frame]: the part of pandas the script uses (typed columns, column
      lookup and assignment, [to_numeric], [dropna], [mean], [sum]).
    - [IO]: the script's effects: reading a workbook, writing one, printing.
    - [Reader]: [read_lengths] and [read_restraint_table].
    - [Paths]: [os.path.splitext] and the output path.
    - [Evaluator]: the scoring formula and [compute_restraint_score].
    - [Spec], [Spec64], [Cleaning]: the formula, over the reals and in
      binary64, and the dirty rows as the specification words them;
      [Examples]: concrete tables and workbooks.
    - [FrameFacts], [FloatFacts], [ReaderFacts], [EvaluatorFacts],
      [PathsFacts], [ProgramFacts]: the properties.

    Numbers.  The script computes in binary64.  The reader and the whole
    program are modelled on Rocq's primitive binary64 floats; the scoring
    formula is written once over an interface [Number] of the arithmetic it
    uses, with two instances: binary64 (with the library routines as
    parameters: the exponential and the sums behind [sum] and [mean]) and
    the real numbers (exact arithmetic, no NaN), on which the algebraic
    properties of the formula are proved. *)

From Stdlib Require Import String Ascii Bool Arith ZArith Lia List Permutation.
From Stdlib Require Import Reals Lra.
From Stdlib Require Import Uint63 PrimFloat.
From Stdlib Require SpecFloat FloatOps FloatAxioms.
Import ListNotations.

Set Implicit Arguments.

(** ** Numbers *)

(** The missing-value test of pandas: a float64 is missing when it is NaN. *)
Class Missing (F : Type) : Type := {
  isnan : F -> bool
}.

(** The arithmetic the scoring formula uses.  [of_int] is the conversion of
    a Python [int] (here always a row count), [of_int64] the conversion of
    an entry of an int64 column, [lit_1_8] the literal [1.8].

    The sums are the library's: [np_sum] is the sum numpy makes of the
    entries of a float64 array for [Series.sum], [mean_sum] the sum made for
    [Series.mean] of a float64 column and [mean_sum_int] the sum made, in
    float64, for [Series.mean] of an int64 column.  Each is given the
    entries in the order of the column; in which order and with which
    bracketing it adds them is the library's business (numpy adds a long
    array pairwise and in blocks). *)
Class Number (F : Type) : Type := {
  fadd : F -> F -> F;
  fsub : F -> F -> F;
  fmul : F -> F -> F;
  fdiv : F -> F -> F;
  fneg : F -> F;
  fexp : F -> F;
  of_int : nat -> F;
  of_int64 : Z -> F;
  lit_1_8 : F;
  np_sum : list F -> F;
  mean_sum : list F -> F;
  mean_sum_int : list F -> F
}.

(** Exact real arithmetic: every value is a number, and the order of the
    additions of a sum does not matter. *)
#[export] Instance real_number : Number R := {
  fadd := Rplus;
  fsub := Rminus;
  fmul := Rmult;
  fdiv := Rdiv;
  fneg := Ropp;
  fexp := exp;
  of_int := INR;
  of_int64 := IZR;
  lit_1_8 := (18 / 10)%R;
  np_sum := fun xs => fold_left Rplus xs 0%R;
  mean_sum := fun xs => fold_left Rplus xs 0%R;
  mean_sum_int := fun xs => fold_left Rplus xs 0%R
}.

#[export] Instance real_missing : Missing R := {
  isnan := fun _ => false
}.

(** Binary64.  The library routines are parameters: the C library's
    exponential and the three sums. *)
Record Routines : Type := {
  libm_exp : float -> float;
  numpy_sum : list float -> float;
  nanmean_sum : list float -> float;
  nanmean_sum_int : list float -> float
}.

(** The conversion of an int64 to binary64, rounded to nearest even. *)
Definition float_of_Z (z : Z) : float :=
  if (z =? - 2 ^ 63)%Z then (-0x1p+63)%float
  else if (z <? 0)%Z then (- PrimFloat.of_uint63 (Uint63.of_Z (- z)))%float
  else PrimFloat.of_uint63 (Uint63.of_Z z).

Definition float_number (lib : Routines) : Number float := {|
  fadd := PrimFloat.add;
  fsub := PrimFloat.sub;
  fmul := PrimFloat.mul;
  fdiv := PrimFloat.div;
  fneg := PrimFloat.opp;
  fexp := libm_exp lib;
  of_int := fun n => PrimFloat.of_uint63 (Uint63.of_Z (Z.of_nat n));
  of_int64 := float_of_Z;
  lit_1_8 := 0x1.ccccccccccccdp+0%float;  (* the binary64 nearest to 1.8 *)
  np_sum := numpy_sum lib;
  mean_sum := nanmean_sum lib;
  mean_sum_int := nanmean_sum_int lib
|}.

#[export] Instance float_missing : Missing float := {
  isnan := PrimFloat.is_nan
}.

(** What is known of a sum routine on binary64: it adds the entries, each
    once, in some order and with some bracketing, starting from nothing or
    from a zero.  A loop from left to right, numpy's pairwise sum and a sum
    by blocks are all of this kind. *)
Inductive adds_up : list float -> float -> Prop :=
| adds_none : adds_up [] 0%float
| adds_none_neg : adds_up [] PrimFloat.neg_zero
| adds_one (x : float) : adds_up [x] x
| adds_both (xs ys : list float) (a b : float) :
    adds_up xs a -> adds_up ys b -> adds_up (xs ++ ys) (a + b)%float
| adds_perm (xs ys : list float) (a : float) :
    Permutation xs ys -> adds_up xs a -> adds_up ys a.

Definition summation (s : list float -> float) : Prop :=
  forall xs, adds_up xs (s xs).

Definition sums_honest (lib : Routines) : Prop :=
  summation (numpy_sum lib) /\
  summation (nanmean_sum lib) /\
  summation (nanmean_sum_int lib).

(** A value to which adding a zero, on either side, changes nothing. *)
Definition absorbs (x : float) : Prop :=
  (x + 0 = x /\ x + PrimFloat.neg_zero = x /\
   0 + x = x /\ PrimFloat.neg_zero + x = x)%float.

(** The sum from left to right, starting from zero. *)
Definition left_sum (xs : list float) : float :=
  fold_left PrimFloat.add xs 0%float.

(** ** Signs of binary64 values *)

Module Sign.

Import SpecFloat FloatOps.

(** On the specification of binary64 values: zero (of either sign),
    positive or [+inf]. *)
Definition sf_nonneg (f : spec_float) : bool :=
  match f with
  | S754_zero _ => true
  | S754_infinity s => negb s
  | S754_finite s _ _ => negb s
  | S754_nan => false
  end.

Definition sf_nan (f : spec_float) : bool :=
  match f with
  | S754_nan => true
  | _ => false
  end.

(** A number of sign [sx]: what rounding a nonnegative mantissa with the
    sign [sx] gives. *)
Definition signed (sx : bool) (f : spec_float) : Prop :=
  f = S754_zero sx \/ f = S754_infinity sx \/ exists m e, f = S754_finite sx m e.

(** Zero, positive, [+inf] or NaN. *)
Definition sf_nn_or_nan (f : spec_float) : bool := sf_nonneg f || sf_nan f.

(** The sign bit is clear: [+0], a positive number or [+inf]. *)
Definition sf_plus (f : spec_float) : bool :=
  match f with
  | S754_zero s => negb s
  | S754_infinity s => negb s
  | S754_finite s _ _ => negb s
  | S754_nan => false
  end.

(** Positive and finite. *)
Definition sf_pos_finite (f : spec_float) : bool :=
  match f with
  | S754_finite false _ _ => true
  | _ => false
  end.

(** On binary64 values.  [x] is not negative: it is zero, positive or
    NaN. *)
Definition not_negative (x : float) : Prop := (x <? 0)%float = false.

(** [x] is a number, and is not negative. *)
Definition nonneg (x : float) : Prop := (0 <=? x)%float = true.

End Sign.

(** ** Exceptions *)

(** The exceptions the script can end with.  A [ValueError] carries its
    message; the other ones come from pandas and the interpreter. *)
Inductive exn : Type :=
| FileNotFoundError (path : string)
| IndexError
| KeyError (c : string)
| TypeError
| ValueError (msg : string).

Definition result (A : Type) : Type := (exn + A)%type.

(** ** The pandas fragment *)

Module Frame.

Section Generic.
Context {F : Type} {M : Missing F} {N : Number F}.

(** A cell of the raw grid: a number, given by its value as a float (the
    script applies [float] to it and nothing else), or anything else.  Text
    that [float] reads as a number is represented by that number, so
    [OText] is text that is not a number. *)
Inductive obj : Type :=
| ONum (x : F)
| OText (s : string).

(** An entry of an object column: a Python float, a Python int (within
    int64), or anything else.  Text that pandas reads as a number is
    represented by that number, so [CText] is an entry that is not a
    number.  An object column that holds booleans is outside the model. *)
Inductive cell : Type :=
| CFloat (x : F)
| CInt (z : Z)
| CText (s : string).

(** A column has a dtype: float64, int64, bool or object.  [read_excel]
    gives an int64 column for cells that are all integers, a bool column for
    cells that are all TRUE or FALSE, a float64 column for numbers with a
    fraction or with blanks among them (a blank is NaN), and an object
    column when text is among the cells. *)
Inductive Series : Type :=
| FloatSeries (xs : list F)
| IntSeries (zs : list Z)
| BoolSeries (bs : list bool)
| ObjectSeries (os : list cell).

Definition series_len (s : Series) : nat :=
  match s with
  | FloatSeries xs => length xs
  | IntSeries zs => length zs
  | BoolSeries bs => length bs
  | ObjectSeries os => length os
  end.

(** A data frame: its number of rows and its named columns, in order. *)
Record DataFrame : Type := mkFrame {
  nrows : nat;
  cols : list (string * Series)
}.

Definition columns (df : DataFrame) : list string := map fst (cols df).

(** [len(df)] *)
Definition len (df : DataFrame) : nat := nrows df.

(** [df.empty]: some axis has length zero. *)
Definition empty (df : DataFrame) : bool :=
  (nrows df =? 0) || (length (cols df) =? 0).

(** Every column has one entry per row. *)
Definition wf (df : DataFrame) : Prop :=
  Forall (fun c => series_len (snd c) = nrows df) (cols df).

Fixpoint lookup (c : string) (l : list (string * Series)) : option Series :=
  match l with
  | [] => None
  | (k, s) :: l' => if String.eqb k c then Some s else lookup c l'
  end.

(** [c in df.columns] *)
Definition has_column (df : DataFrame) (c : string) : bool :=
  existsb (String.eqb c) (columns df).

(** [df[c]] *)
Definition getitem (df : DataFrame) (c : string) : option Series :=
  lookup c (cols df).

Fixpoint assign (c : string) (s : Series) (l : list (string * Series))
  : list (string * Series) :=
  match l with
  | [] => [(c, s)]
  | (k, s0) :: l' =>
      if String.eqb k c then (k, s) :: l' else (k, s0) :: assign c s l'
  end.

(** [df[c] = s]: replaces the column in place, or appends it. *)
Definition setitem (df : DataFrame) (c : string) (s : Series) : DataFrame :=
  mkFrame (nrows df) (assign c s (cols df)).

(** Keep the entries whose mask bit is set ([df[mask]], positionally). *)
Fixpoint select {A : Type} (mask : list bool) (l : list A) : list A :=
  match mask, l with
  | b :: mask', a :: l' => if b then a :: select mask' l' else select mask' l'
  | _, _ => []
  end.

Definition select_series (mask : list bool) (s : Series) : Series :=
  match s with
  | FloatSeries xs => FloatSeries (select mask xs)
  | IntSeries zs => IntSeries (select mask zs)
  | BoolSeries bs => BoolSeries (select mask bs)
  | ObjectSeries os => ObjectSeries (select mask os)
  end.

Fixpoint zip_with {A B C : Type} (f : A -> B -> C) (l : list A) (m : list B)
  : list C :=
  match l, m with
  | a :: l', b :: m' => f a b :: zip_with f l' m'
  | _, _ => []
  end.

Definition count_true (mask : list bool) : nat :=
  length (filter (fun b => b) mask).

(** [pd.to_numeric(s, errors="coerce")]: a float64, int64 or bool column
    is returned as it is.  An object column whose entries are all ints
    becomes an int64 column; any other object column becomes a float64
    column, in which every entry that is not a number is [na] (NaN) and
    every int is converted by [cast]. *)
Definition is_int (c : cell) : bool :=
  match c with
  | CInt _ => true
  | _ => false
  end.

Definition int_value (c : cell) : Z :=
  match c with
  | CInt z => z
  | _ => 0%Z
  end.

Definition coerce (na : F) (cast : Z -> F) (c : cell) : F :=
  match c with
  | CFloat x => x
  | CInt z => cast z
  | CText _ => na
  end.

Definition to_numeric (na : F) (cast : Z -> F) (s : Series) : Series :=
  match s with
  | FloatSeries xs => FloatSeries xs
  | IntSeries zs => IntSeries zs
  | BoolSeries bs => BoolSeries bs
  | ObjectSeries os =>
      if forallb is_int os then IntSeries (map int_value os)
      else FloatSeries (map (coerce na cast) os)
  end.

(** The entries of an object column; a column of another dtype has
    none. *)
Definition as_object (s : Series) : option (list cell) :=
  match s with
  | ObjectSeries os => Some os
  | _ => None
  end.

(** [notna]: NaN is the missing value; an int, a bool and text are never
    missing. *)
Definition notna_cell (c : cell) : bool :=
  match c with
  | CFloat x => negb (isnan x)
  | _ => true
  end.

Definition notna (s : Series) : list bool :=
  match s with
  | FloatSeries xs => map (fun x => negb (isnan x)) xs
  | IntSeries zs => map (fun _ => true) zs
  | BoolSeries bs => map (fun _ => true) bs
  | ObjectSeries os => map notna_cell os
  end.

(** The row mask of [dropna(subset=...)]: [notna(df[subset]).all(axis=1)]. *)
Fixpoint all_notna (df : DataFrame) (subset : list string)
  : result (list bool) :=
  match subset with
  | [] => inr (repeat true (nrows df))
  | c :: subset' =>
      match getitem df c with
      | None => inl (KeyError c)
      | Some s =>
          match all_notna df subset' with
          | inl e => inl e
          | inr m => inr (zip_with andb (notna s) m)
          end
      end
  end.

(** [df.dropna(subset=subset)]: whole rows are removed, in every column. *)
Definition dropna (df : DataFrame) (subset : list string)
  : result DataFrame :=
  match all_notna df subset with
  | inl e => inl e
  | inr mask =>
      inr (mkFrame (count_true mask)
             (map (fun c => (fst c, select_series mask (snd c))) (cols df)))
  end.

(** Reductions of a float64 column skip NaN: a NaN entry is replaced by
    zero before the library adds the entries, and is left out of the count
    ([skipna=True], the default). *)
Definition fillna0 (xs : list F) : list F :=
  map (fun x => if isnan x then of_int 0 else x) xs.

(** [Series.sum()] of a float64 column *)
Definition sum (xs : list F) : F := np_sum (fillna0 xs).

Definition count (xs : list F) : nat :=
  length (filter (fun x => negb (isnan x)) xs).

(** [Series.mean()] of a float64 column *)
Definition mean (xs : list F) : F :=
  fdiv (mean_sum (fillna0 xs)) (of_int (count xs)).

(** The entries of a numeric column as float64: what arithmetic with a
    float64 operand makes of them.  An object column is not a column of
    numbers. *)
Definition of_bool (b : bool) : F := of_int64 (if b then 1 else 0)%Z.

Definition as_float (s : Series) : option (list F) :=
  match s with
  | FloatSeries xs => Some xs
  | IntSeries zs => Some (map of_int64 zs)
  | BoolSeries bs => Some (map of_bool bs)
  | ObjectSeries _ => None
  end.

(** [Series.mean()] by dtype: an int64 column is added in float64; a bool
    column is added as integers, which counts its [True] entries. *)
Definition series_mean (s : Series) : option F :=
  match s with
  | FloatSeries xs => Some (mean xs)
  | IntSeries zs =>
      Some (fdiv (mean_sum_int (map of_int64 zs)) (of_int (length zs)))
  | BoolSeries bs =>
      Some (fdiv (of_int64 (Z.of_nat (count_true bs))) (of_int (length bs)))
  | ObjectSeries _ => None
  end.

End Generic.

Arguments obj : clear implicits.
Arguments cell : clear implicits.
Arguments Series : clear implicits.
Arguments DataFrame : clear implicits.

End Frame.

Import Frame.

(** ** Effects *)

(** The script reads one workbook, twice, through [pd.read_excel]; it
    writes one workbook and prints.  A workbook is represented by the two
    views [read_excel] gives of it: the raw grid ([header=None]) and, for
    every number [k] of skipped rows, the table whose header is row [k]
    ([skiprows=k]).  Effects are recorded as events, in order. *)
Module IO.

Record Workbook : Type := {
  raw : list (list (obj float));
  table : nat -> DataFrame float
}.

Definition FS : Type := string -> option Workbook.

(** The pieces of a printed f-string. *)
Inductive piece : Type :=
| Lit (s : string)
| Repr (x : float)      (* [{x}] *)
| Fixed6 (x : float).   (* [{x:.6f}] *)

Inductive event : Type :=
| ToExcel (path : string) (df : DataFrame float)
| Print (line : list piece).

Definition IO (A : Type) : Type := FS -> result A * list event.

Definition ret {A : Type} (a : A) : IO A := fun _ => (inr a, []).

Definition bind {A B : Type} (m : IO A) (k : A -> IO B) : IO B :=
  fun fs =>
    match m fs with
    | (inl e, tr) => (inl e, tr)
    | (inr a, tr) => let (r, tr') := k a fs in (r, tr ++ tr')
    end.

Definition lift {A : Type} (r : result A) : IO A := fun _ => (r, []).

Definition emit (ev : event) : IO unit := fun _ => (inr tt, [ev]).

(** [pd.read_excel(path, header=None)] *)
Definition read_excel_raw (path : string) : IO (list (list (obj float))) :=
  fun fs =>
    match fs path with
    | None => (inl (FileNotFoundError path), [])
    | Some book => (inr (raw book), [])
    end.

(** [pd.read_excel(path, skiprows=k)] *)
Definition read_excel_table (path : string) (skiprows : nat)
  : IO (DataFrame float) :=
  fun fs =>
    match fs path with
    | None => (inl (FileNotFoundError path), [])
    | Some book => (inr (table book skiprows), [])
    end.

(** [df.to_excel(path, index=False)] *)
Definition to_excel (df : DataFrame float) (path : string) : IO unit :=
  emit (ToExcel path df).

Definition print (line : list piece) : IO unit := emit (Print line).


End IO.

Import IO.

Declare Scope io_scope.
Delimit Scope io_scope with io.
Notation "x <- m ;; k" := (bind m (fun x => k))
  (at level 61, m at next level, right associativity) : io_scope.
Notation "m ;;; k" := (bind m (fun _ => k))
  (at level 61, right associativity) : io_scope.

(** ** The input reader *)

Module Reader.

Local Open Scope string_scope.
Local Open Scope io_scope.

(** *** Configuration constants *)

Definition LENGTH_CELLS : list (string * (nat * nat)) :=
  [ ("Ls", (1, 1));   (* B2 *)
    ("Lx", (2, 1));   (* B3 *)
    ("Ly", (3, 1));   (* B4 *)
    ("Lz", (4, 1)) ]. (* B5 *)

Definition TABLE_SKIPROWS : nat := 6.

Definition REQUIRED_COLUMNS : list string :=
  [ "prot x coor"; "prot y coor"; "prot z coor"; "sl"; "wi"; "dij" ].

(** *** Python and pandas primitives *)

(** [LENGTH_CELLS[name]] *)
Fixpoint dict_get (name : string) (d : list (string * (nat * nat)))
  : result (nat * nat) :=
  match d with
  | [] => inl (KeyError name)
  | (k, v) :: d' => if String.eqb k name then inr v else dict_get name d'
  end.

(** [sheet.iat[r, c]] *)
Definition iat (sheet : list (list (obj float))) (r c : nat)
  : result (obj float) :=
  match nth_error sheet r with
  | None => inl IndexError
  | Some row =>
      match nth_error row c with
      | None => inl IndexError
      | Some o => inr o
      end
  end.

(** [repr] of a string without quotes, backslashes or control characters
    (every required column name is one). *)
Definition py_repr (s : string) : string := "'" ++ s ++ "'".

(** [repr] of a list of such strings, as an f-string prints it. *)
Fixpoint py_join (l : list string) : string :=
  match l with
  | [] => ""
  | [s] => py_repr s
  | s :: l' => py_repr s ++ ", " ++ py_join l'
  end.

Definition py_repr_list (l : list string) : string := "[" ++ py_join l ++ "]".

(** [float(o)] *)
Definition py_float (o : obj float) : result float :=
  match o with
  | ONum x => inr x
  | OText s => inl (ValueError ("could not convert string to float: " ++ py_repr s))
  end.

(** *** [read_lengths] *)

Definition _cell (sheet : list (list (obj float))) (name : string)
  : result float :=
  match dict_get name LENGTH_CELLS with
  | inl e => inl e
  | inr (r, c) =>
      match iat sheet r c with
      | inl e => inl e
      | inr o => py_float o
      end
  end.

Definition read_lengths (excel_path : string)
  : IO (float * float * float * float) :=
  sheet <- read_excel_raw excel_path ;;
  Ls <- lift (_cell sheet "Ls") ;;
  Lx <- lift (_cell sheet "Lx") ;;
  Ly <- lift (_cell sheet "Ly") ;;
  Lz <- lift (_cell sheet "Lz") ;;
  ret (Ls, Lx, Ly, Lz).

(** *** [read_restraint_table] *)

(** [for c in cs: df[c] = pd.to_numeric(df[c], errors="coerce")] *)
Fixpoint coerce_columns (df : DataFrame float) (cs : list string)
  : result (DataFrame float) :=
  match cs with
  | [] => inr df
  | c :: cs' =>
      match getitem df c with
      | None => inl (KeyError c)
      | Some s =>
          coerce_columns
            (setitem df c (to_numeric PrimFloat.nan float_of_Z s)) cs'
      end
  end.

(** The two errors the function raises itself. *)
Definition missing_columns (missing : list string) : exn :=
  ValueError ("Missing required columns: " ++ py_repr_list missing).

Definition no_valid_rows : exn :=
  ValueError "No valid rows found after cleaning (NaN/non-numeric values).".

(** The function after the workbook is read ([df.copy()] is the identity
    on values). *)
Definition clean_table (df : DataFrame float) : result (DataFrame float) :=
  let missing := filter (fun c => negb (has_column df c)) REQUIRED_COLUMNS in
  match missing with
  | _ :: _ => inl (missing_columns missing)
  | [] =>
      match coerce_columns df REQUIRED_COLUMNS with
      | inl e => inl e
      | inr df1 =>
          match dropna df1 REQUIRED_COLUMNS with
          | inl e => inl e
          | inr df2 => if empty df2 then inl no_valid_rows else inr df2
          end
      end
  end.

Definition read_restraint_table (excel_path : string)
  : IO (DataFrame float) :=
  df <- read_excel_table excel_path TABLE_SKIPROWS ;;
  lift (clean_table df).

End Reader.

(** ** Output path *)

Module Paths.

Local Open Scope string_scope.

(** [p.rfind(c)]: the index of the last [c] in [p], or -1. *)
Fixpoint rfind (c : ascii) (p : string) : Z :=
  match p with
  | EmptyString => (-1)%Z
  | String a p' =>
      let r := rfind c p' in
      if (0 <=? r)%Z then (r + 1)%Z
      else if Ascii.eqb a c then 0%Z else (-1)%Z
  end.

(** The loop of [genericpath._splitext] that skips leading dots: is there
    a character other than [extsep] at an index in
    [filenameIndex, filenameIndex + k)? *)
Fixpoint has_name_char (extsep : ascii) (p : string) (filenameIndex k : nat)
  : bool :=
  match k with
  | O => false
  | S k' =>
      if negb (String.eqb (substring filenameIndex 1 p) (String extsep ""))
      then true
      else has_name_char extsep p (S filenameIndex) k'
  end.

(** [genericpath._splitext(p, sep, None, extsep)] *)
Definition _splitext (p : string) (sep extsep : ascii) : string * string :=
  let sepIndex := rfind sep p in
  let dotIndex := rfind extsep p in
  if (sepIndex <? dotIndex)%Z
     && has_name_char extsep p (Z.to_nat (sepIndex + 1))
          (Z.to_nat (dotIndex - (sepIndex + 1)))
  then (substring 0 (Z.to_nat dotIndex) p,
        substring (Z.to_nat dotIndex) (String.length p - Z.to_nat dotIndex) p)
  else (p, "").

(** [os.path.splitext] (POSIX) *)
Definition splitext (p : string) : string * string := _splitext p "/" ".".

(** [os.path.splitext(excel_path)[0] + "_output.xlsx"] *)
Definition output_path (excel_path : string) : string :=
  fst (splitext excel_path) ++ "_output.xlsx".

(** Two tests on the characters of a string, for stating what an
    extension and a file name are. *)
Fixpoint contains (c : ascii) (s : string) : bool :=
  match s with
  | EmptyString => false
  | String a s' => Ascii.eqb a c || contains c s'
  end.

Fixpoint only (c : ascii) (s : string) : bool :=
  match s with
  | EmptyString => true
  | String a s' => Ascii.eqb a c && only c s'
  end.

End Paths.

(** ** The score evaluator *)

Module Evaluator.

Local Open Scope string_scope.

Definition rbind {A B : Type} (r : result A) (k : A -> result B) : result B :=
  match r with
  | inl e => inl e
  | inr a => k a
  end.

Notation "x <-- r ;; k" := (rbind r (fun x => k))
  (at level 61, r at next level, right associativity).

Section Formula.
Context {F : Type} {M : Missing F} {N : Number F}.

Definition D0 : F := lit_1_8.

(** The column [df[c]] as an operand of float64 arithmetic.  The score is
    computed on the table [read_restraint_table] returns, whose required
    columns are float64, int64 or bool; an object column is not a column of
    numbers. *)
Definition column (df : DataFrame F) (c : string) : result (list F) :=
  match getitem df c with
  | None => inl (KeyError c)
  | Some s =>
      match as_float s with
      | Some xs => inr xs
      | None => inl TypeError
      end
  end.

(** [df[c].mean()] *)
Definition column_mean (df : DataFrame F) (c : string) : result F :=
  match getitem df c with
  | None => inl (KeyError c)
  | Some s =>
      match series_mean s with
      | Some m => inr m
      | None => inl TypeError
      end
  end.

(** Elementwise arithmetic of columns and of a column and a scalar. *)
Definition add (a b : list F) : list F := zip_with fadd a b.
Definition mul (a b : list F) : list F := zip_with fmul a b.
Definition sub_scalar (a : list F) (k : F) : list F := map (fun v => fsub v k) a.
Definition div_scalar (a : list F) (k : F) : list F := map (fun v => fdiv v k) a.
Definition neg (a : list F) : list F := map fneg a.
Definition np_exp (a : list F) : list F := map fexp a.
(** [a ** 2] *)
Definition square (a : list F) : list F := map (fun v => fmul v v) a.

(** Lines 95-120 of the script: from the lengths and the cleaned table to
    the annotated table and the score. *)
Definition evaluate (Ls Lx Ly Lz : F) (df : DataFrame F)
  : result (DataFrame F * F) :=
  let n := len df in
  (* Distance weighting term *)
  dij <-- column df "dij" ;;
  let df := setitem df "fdij" (FloatSeries (np_exp (neg (sub_scalar dij D0)))) in
  (* Combined weight *)
  wi <-- column df "wi" ;;
  fdij <-- column df "fdij" ;;
  let df := setitem df "omega_ij" (FloatSeries (mul wi fdij)) in
  (* Protein centroid of contacted atoms *)
  mu_x <-- column_mean df "prot x coor" ;;
  mu_y <-- column_mean df "prot y coor" ;;
  mu_z <-- column_mean df "prot z coor" ;;
  (* Protein distribution term (per restraint) *)
  x <-- column df "prot x coor" ;;
  y <-- column df "prot y coor" ;;
  z <-- column df "prot z coor" ;;
  let df := setitem df "sigma_P"
    (FloatSeries
       (div_scalar
          (add (add (square (div_scalar (sub_scalar x mu_x) Lx))
                    (square (div_scalar (sub_scalar y mu_y) Ly)))
               (square (div_scalar (sub_scalar z mu_z) Lz)))
          (of_int n))) in
  (* Peptide distribution term (per restraint) *)
  mu_s <-- column_mean df "sl" ;;
  sl <-- column df "sl" ;;
  let df := setitem df "sigma_L"
    (FloatSeries
       (div_scalar (square (div_scalar (sub_scalar sl mu_s) Ls)) (of_int n))) in
  (* Final score *)
  omega_ij <-- column df "omega_ij" ;;
  sigma_P <-- column df "sigma_P" ;;
  sigma_L <-- column df "sigma_L" ;;
  let score := fmul (sum (mul omega_ij (add sigma_P sigma_L))) (of_int n) in
  inr (df, score).

(** The score alone. *)
Definition score_only (r : result (DataFrame F * F)) : result F :=
  match r with
  | inl e => inl e
  | inr (_, score) => inr score
  end.

End Formula.

(** *** The whole function, in binary64 *)

Section Program.
Variable lib : Routines.

Local Open Scope io_scope.

Definition compute_restraint_score (excel_path : string)
  : IO (DataFrame float * float) :=
  lengths <- Reader.read_lengths excel_path ;;
  let '(Ls, Lx, Ly, Lz) := lengths in
  df <- Reader.read_restraint_table excel_path ;;
  scored <- lift (evaluate (N := float_number lib) Ls Lx Ly Lz df) ;;
  let '(df, score) := scored in
  (* Save output alongside input *)
  let out_path := Paths.output_path excel_path in
  to_excel df out_path ;;;
  print [Lit "File: "; Lit excel_path] ;;;
  print [Lit "Lengths: Ls="; Repr Ls; Lit ", Lx="; Repr Lx;
         Lit ", Ly="; Repr Ly; Lit ", Lz="; Repr Lz] ;;;
  print [Lit "Restraint Score (σ): "; Fixed6 score] ;;;
  print [Lit "Wrote: "; Lit out_path] ;;;
  ret (df, score).

End Program.

(** The events of a successful run, for stating what the function does
    besides returning: the annotated table written next to the input, then
    the four printed lines. *)
Definition report (path : string) (Ls Lx Ly Lz : float)
    (df : DataFrame float) (score : float) : list event :=
  [ ToExcel (Paths.output_path path) df;
    Print [Lit "File: "; Lit path];
    Print [Lit "Lengths: Ls="; Repr Ls; Lit ", Lx="; Repr Lx;
           Lit ", Ly="; Repr Ly; Lit ", Lz="; Repr Lz];
    Print [Lit "Restraint Score (σ): "; Fixed6 score];
    Print [Lit "Wrote: "; Lit (Paths.output_path path)] ].

(** The four columns [compute_restraint_score] assigns, in this order. *)
Definition COMPUTED_COLUMNS : list string :=
  [ "fdij"; "omega_ij"; "sigma_P"; "sigma_L" ].

End Evaluator.

(** ** The formula as the specification words it

    Record by record, over the real numbers: the definitions below follow
    the specification's text (section 4.2, steps 1 to 7), not the script,
    and are compared with [Evaluator.evaluate] further down. *)

Module Spec.

Local Open Scope R_scope.

Record Restraint : Type := {
  px : R;
  py : R;
  pz : R;
  sl : R;
  wi : R;
  dij : R
}.

(** [sum_i f(record i)] *)
Fixpoint big_sum (f : Restraint -> R) (rs : list Restraint) : R :=
  match rs with
  | [] => 0
  | r :: rs' => f r + big_sum f rs'
  end.

(** The unweighted arithmetic mean of a field over all records. *)
Definition avg (f : Restraint -> R) (rs : list Restraint) : R :=
  big_sum f rs / INR (length rs).

Definition fdij_of (r : Restraint) : R := exp (- (dij r - 18 / 10)).

Definition omega_of (r : Restraint) : R := wi r * fdij_of r.

(** The sum of the squared, axis-normalised deviations of the protein
    coordinates, not yet divided by [n]. *)
Definition dev_P (Lx Ly Lz : R) (rs : list Restraint) (r : Restraint) : R :=
  ((px r - avg px rs) / Lx) ^ 2 +
  ((py r - avg py rs) / Ly) ^ 2 +
  ((pz r - avg pz rs) / Lz) ^ 2.

Definition dev_L (Ls : R) (rs : list Restraint) (r : Restraint) : R :=
  ((sl r - avg sl rs) / Ls) ^ 2.

Definition sigma_P_of (Lx Ly Lz : R) (rs : list Restraint) (r : Restraint) : R :=
  dev_P Lx Ly Lz rs r / INR (length rs).

Definition sigma_L_of (Ls : R) (rs : list Restraint) (r : Restraint) : R :=
  dev_L Ls rs r / INR (length rs).

(** Step 7: [score = n * sum_i (omega_i * (sigma_P_i + sigma_L_i))]. *)
Definition score_of (Ls Lx Ly Lz : R) (rs : list Restraint) : R :=
  INR (length rs) *
  big_sum (fun r => omega_of r *
                    (sigma_P_of Lx Ly Lz rs r + sigma_L_of Ls rs r)) rs.

(** The formula with the division by [n] and the final multiplication by
    [n] both removed. *)
Definition simplified_score (Ls Lx Ly Lz : R) (rs : list Restraint) : R :=
  big_sum (fun r => omega_of r * (dev_P Lx Ly Lz rs r + dev_L Ls rs r)) rs.

(** The table [df] holds the records [rs]: one row per record, the six
    required columns being float64 columns of the records' fields.  Other
    columns are free. *)
Definition holds (df : DataFrame R) (rs : list Restraint) : Prop :=
  nrows df = length rs /\
  getitem df "prot x coor"%string = Some (FloatSeries (map px rs)) /\
  getitem df "prot y coor"%string = Some (FloatSeries (map py rs)) /\
  getitem df "prot z coor"%string = Some (FloatSeries (map pz rs)) /\
  getitem df "sl"%string = Some (FloatSeries (map sl rs)) /\
  getitem df "wi"%string = Some (FloatSeries (map wi rs)) /\
  getitem df "dij"%string = Some (FloatSeries (map dij rs)).

(** The table with exactly the six required columns. *)
Definition frame_of (rs : list Restraint) : DataFrame R :=
  mkFrame (length rs)
    [ ("prot x coor"%string, FloatSeries (map px rs));
      ("prot y coor"%string, FloatSeries (map py rs));
      ("prot z coor"%string, FloatSeries (map pz rs));
      ("sl"%string, FloatSeries (map sl rs));
      ("wi"%string, FloatSeries (map wi rs));
      ("dij"%string, FloatSeries (map dij rs)) ].

(** The same records in a table with other columns around, one of them
    already called [fdij]. *)
Definition frame_with_extras (rs : list Restraint) : DataFrame R :=
  mkFrame (length rs)
    [ ("note"%string, ObjectSeries (map (fun _ => CText "n"%string) rs));
      ("dij"%string, FloatSeries (map dij rs));
      ("wi"%string, FloatSeries (map wi rs));
      ("fdij"%string, FloatSeries (map (fun _ => 0) rs));
      ("sl"%string, FloatSeries (map sl rs));
      ("prot z coor"%string, FloatSeries (map pz rs));
      ("prot y coor"%string, FloatSeries (map py rs));
      ("prot x coor"%string, FloatSeries (map px rs)) ].

(** The worked example (P6): two records, all lengths 1. *)
Definition record_A : Restraint :=
  {| px := 0; py := 0; pz := 0; sl := 0; wi := 1; dij := 18 / 10 |}.
Definition record_B : Restraint :=
  {| px := 2; py := 0; pz := 0; sl := 2; wi := 1; dij := 18 / 10 |}.

End Spec.

(** ** The formula as the specification words it, in binary64

    The same formulas, record by record, in the arithmetic of the script:
    every operation rounds to binary64, the exponential is the library's,
    and so are the sums.  The four means are those of steps 3 and 5 of the
    specification (section 4.2): the sum of the [n] values of a column,
    divided by [n]. *)

Module Spec64.

Section Library.
Variable lib : Routines.

Local Open Scope float_scope.

Record Restraint : Type := {
  px : float;
  py : float;
  pz : float;
  sl : float;
  wi : float;
  dij : float
}.

Record Means : Type := {
  mu_x : float;
  mu_y : float;
  mu_z : float;
  mu_s : float
}.

(** The number [n] of records, as a float. *)
Definition of_nat (n : nat) : float :=
  PrimFloat.of_uint63 (Uint63.of_Z (Z.of_nat n)).

Definition fdij_of (r : Restraint) : float :=
  libm_exp lib (- (dij r - 0x1.ccccccccccccdp+0)).

Definition omega_of (r : Restraint) : float := wi r * fdij_of r.

Definition sq (v : float) : float := v * v.

Definition sigma_P_of (Lx Ly Lz : float) (n : nat) (mu : Means)
    (r : Restraint) : float :=
  (sq ((px r - mu_x mu) / Lx) +
   sq ((py r - mu_y mu) / Ly) +
   sq ((pz r - mu_z mu) / Lz)) / of_nat n.

Definition sigma_L_of (Ls : float) (n : nat) (mu : Means) (r : Restraint)
  : float :=
  sq ((sl r - mu_s mu) / Ls) / of_nat n.

(** The summand of record [r]. *)
Definition term_of (Ls Lx Ly Lz : float) (n : nat) (mu : Means)
    (r : Restraint) : float :=
  omega_of r * (sigma_P_of Lx Ly Lz n mu r + sigma_L_of Ls n mu r).

(** Step 7: [score = n * sum_i (omega_i * (sigma_P_i + sigma_L_i))]. *)
Definition score_of (Ls Lx Ly Lz : float) (mu : Means) (rs : list Restraint)
  : float :=
  of_nat (length rs) *
  numpy_sum lib (map (term_of Ls Lx Ly Lz (length rs) mu) rs).

(** The same sum in which a summand that is NaN counts as zero. *)
Definition skipna (t : float) : float :=
  if PrimFloat.is_nan t then 0 else t.

Definition score_skipna (Ls Lx Ly Lz : float) (mu : Means)
    (rs : list Restraint) : float :=
  of_nat (length rs) *
  numpy_sum lib
    (map (fun r => skipna (term_of Ls Lx Ly Lz (length rs) mu r)) rs).

(** The unweighted arithmetic mean of a column of numbers: the sum of its
    entries divided by their number.  The entries of a bool column are
    added as integers. *)
Definition arithmetic_mean (s : Series float) (m : float) : Prop :=
  match s with
  | FloatSeries xs => m = nanmean_sum lib xs / of_nat (length xs)
  | IntSeries zs =>
      m = nanmean_sum_int lib (map float_of_Z zs) / of_nat (length zs)
  | BoolSeries bs =>
      m = float_of_Z (Z.of_nat (count_true bs)) / of_nat (length bs)
  | ObjectSeries _ => False
  end.

Definition mean_of (df : DataFrame float) (c : string) (m : float) : Prop :=
  exists s, getitem df c = Some s /\ arithmetic_mean s m.

(** The table [df] holds the records [rs], whose means are [mu]: one row
    per record, the six required columns, read as floats, are the fields of
    the records, and [mu] holds the arithmetic means of the coordinates and
    of [sl]. *)
Definition holds (df : DataFrame float) (rs : list Restraint) (mu : Means)
  : Prop :=
  nrows df = length rs /\
  Evaluator.column (N := float_number lib) df "prot x coor" = inr (map px rs) /\
  Evaluator.column (N := float_number lib) df "prot y coor" = inr (map py rs) /\
  Evaluator.column (N := float_number lib) df "prot z coor" = inr (map pz rs) /\
  Evaluator.column (N := float_number lib) df "sl" = inr (map sl rs) /\
  Evaluator.column (N := float_number lib) df "wi" = inr (map wi rs) /\
  Evaluator.column (N := float_number lib) df "dij" = inr (map dij rs) /\
  mean_of df "prot x coor" (mu_x mu) /\
  mean_of df "prot y coor" (mu_y mu) /\
  mean_of df "prot z coor" (mu_z mu) /\
  mean_of df "sl" (mu_s mu).

(** Every field of the record is a number. *)
Definition numbers (r : Restraint) : Prop :=
  PrimFloat.is_nan (px r) = false /\
  PrimFloat.is_nan (py r) = false /\
  PrimFloat.is_nan (pz r) = false /\
  PrimFloat.is_nan (sl r) = false /\
  PrimFloat.is_nan (wi r) = false /\
  PrimFloat.is_nan (dij r) = false.

(** The records of six columns of the same length. *)
Fixpoint records_of (x y z s w d : list float) : list Restraint :=
  match x, y, z, s, w, d with
  | x0 :: x', y0 :: y', z0 :: z', s0 :: s', w0 :: w', d0 :: d' =>
      {| px := x0; py := y0; pz := z0; sl := s0; wi := w0; dij := d0 |}
      :: records_of x' y' z' s' w' d'
  | _, _, _, _, _, _ => []
  end.

End Library.

End Spec64.

(** ** Variations of a set of records

    Used to state how the score reacts to a change of origin and to a
    change of the weights. *)

Module Variation.

Import Spec.

Local Open Scope R_scope.

(** The same record seen from another origin: the protein coordinates
    moved by [(tx, ty, tz)] and the peptide position by [ts]. *)
Definition shift (tx ty tz ts : R) (r : Restraint) : Restraint :=
  {| px := px r + tx; py := py r + ty; pz := pz r + tz;
     sl := sl r + ts; wi := wi r; dij := dij r |}.

(** The same record with its weight multiplied by [k]. *)
Definition reweigh (k : R) (r : Restraint) : Restraint :=
  {| px := px r; py := py r; pz := pz r;
     sl := sl r; wi := k * wi r; dij := dij r |}.

(** The same record in other units: the protein coordinates multiplied by
    [k], the peptide position by [m]. *)
Definition rescale (k m : R) (r : Restraint) : Restraint :=
  {| px := k * px r; py := k * py r; pz := k * pz r;
     sl := m * sl r; wi := wi r; dij := dij r |}.

End Variation.

(** ** Dirty rows, as the specification words them

    A row is dirty when, in some required column, its value fails numeric
    coercion or is absent (NaN).  This is read off the table as it comes
    from the workbook, before any coercion. *)

Module Cleaning.

(** An entry of an object column fails coercion when it is not a number;
    a NaN is an absent value. *)
Definition fails_coercion (c : cell float) : bool :=
  match c with
  | CFloat x => PrimFloat.is_nan x
  | CInt _ => false
  | CText _ => true
  end.

Definition present {A : Type} (bad : A -> bool) (o : option A) : bool :=
  match o with
  | Some a => bad a
  | None => true
  end.

(** Is the value of the column in row [i] absent or not a number?  An
    entry of an int64 or bool column is a number. *)
Definition dirty_at (s : Series float) (i : nat) : bool :=
  match s with
  | FloatSeries xs => present PrimFloat.is_nan (nth_error xs i)
  | IntSeries zs => present (fun _ => false) (nth_error zs i)
  | BoolSeries bs => present (fun _ => false) (nth_error bs i)
  | ObjectSeries os => present fails_coercion (nth_error os i)
  end.

Definition dirty (df : DataFrame float) (i : nat) : bool :=
  existsb (fun c => match getitem df c with
                    | Some s => dirty_at s i
                    | None => true
                    end) Reader.REQUIRED_COLUMNS.

(** The number [k] of dirty rows among the [n] rows of the table. *)
Definition dirty_count (df : DataFrame float) : nat :=
  length (filter (dirty df) (seq 0 (nrows df))).

(** All required columns are present. *)
Definition complete (df : DataFrame float) : Prop :=
  forall c, In c Reader.REQUIRED_COLUMNS -> In c (columns df).

(** A column of numbers none of which is missing: a float64 column without
    NaN, an int64 column or a bool column. *)
Definition all_numbers (s : Series float) : Prop :=
  match s with
  | FloatSeries xs => Forall (fun x => PrimFloat.is_nan x = false) xs
  | IntSeries _ => True
  | BoolSeries _ => True
  | ObjectSeries _ => False
  end.

End Cleaning.

(** ** Examples in binary64 *)

Module Examples.

Local Open Scope string_scope.

(** The worked example as the reader returns it: the cells of the
    coordinates, of [sl] and of [wi] are integers, so these columns are
    int64; [dij] is float64. *)
Definition p6_table : DataFrame float :=
  mkFrame 2
    [ ("prot x coor", IntSeries [0%Z; 2%Z]);
      ("prot y coor", IntSeries [0%Z; 0%Z]);
      ("prot z coor", IntSeries [0%Z; 0%Z]);
      ("sl", IntSeries [0%Z; 2%Z]);
      ("wi", IntSeries [1%Z; 1%Z]);
      ("dij", FloatSeries [0x1.ccccccccccccdp+0%float; 0x1.ccccccccccccdp+0%float]) ].

Definition p6_annotated : DataFrame float :=
  mkFrame 2
    [ ("prot x coor", IntSeries [0%Z; 2%Z]);
      ("prot y coor", IntSeries [0%Z; 0%Z]);
      ("prot z coor", IntSeries [0%Z; 0%Z]);
      ("sl", IntSeries [0%Z; 2%Z]);
      ("wi", IntSeries [1%Z; 1%Z]);
      ("dij", FloatSeries [0x1.ccccccccccccdp+0%float; 0x1.ccccccccccccdp+0%float]);
      ("fdij", FloatSeries [1%float; 1%float]);
      ("omega_ij", FloatSeries [1%float; 1%float]);
      ("sigma_P", FloatSeries [0.5%float; 0.5%float]);
      ("sigma_L", FloatSeries [0.5%float; 0.5%float]) ].

(** A polynomial that agrees with the exponential at zero and is never
    negative (it is a square); it stands for the library exponential where
    a concrete function is needed.  The sums of the examples are made from
    left to right. *)
Definition exp_poly (x : float) : float :=
  ((1 + x * 0.5) * (1 + x * 0.5))%float.

Definition routines : Routines :=
  {| libm_exp := exp_poly;
     numpy_sum := left_sum;
     nanmean_sum := left_sum;
     nanmean_sum_int := left_sum |}.

(** The same routines with an exponential that underflows: the library's
    exponential is zero below -745.2, since [e^x] is then less than half
    the least positive binary64. *)
Definition exp_underflow (x : float) : float :=
  if (x <? -746)%float then 0%float else exp_poly x.

Definition routines_underflow : Routines :=
  {| libm_exp := exp_underflow;
     numpy_sum := left_sum;
     nanmean_sum := left_sum;
     nanmean_sum_int := left_sum |}.

(** The records of the worked example, and their means. *)
Definition p6_records : list Spec64.Restraint :=
  [ {| Spec64.px := 0; Spec64.py := 0; Spec64.pz := 0;
       Spec64.sl := 0; Spec64.wi := 1;
       Spec64.dij := 0x1.ccccccccccccdp+0 |};
    {| Spec64.px := 2; Spec64.py := 0; Spec64.pz := 0;
       Spec64.sl := 2; Spec64.wi := 1;
       Spec64.dij := 0x1.ccccccccccccdp+0 |} ]%float.

Definition p6_means : Spec64.Means :=
  {| Spec64.mu_x := 1; Spec64.mu_y := 0;
     Spec64.mu_z := 0; Spec64.mu_s := 1 |}%float.

(** Two records far apart, the first of weight zero: the square of the
    deviation of [x] overflows, and zero times infinity is NaN. *)
Definition overflow_table : DataFrame float :=
  mkFrame 2
    [ ("prot x coor", FloatSeries [0x1p+600%float; (-0x1p+600)%float]);
      ("prot y coor", IntSeries [0%Z; 0%Z]);
      ("prot z coor", IntSeries [0%Z; 0%Z]);
      ("sl", IntSeries [0%Z; 0%Z]);
      ("wi", IntSeries [0%Z; 1%Z]);
      ("dij", FloatSeries [0x1.ccccccccccccdp+0%float; 0x1.ccccccccccccdp+0%float]) ].

Definition overflow_records : list Spec64.Restraint :=
  [ {| Spec64.px := 0x1p+600; Spec64.py := 0; Spec64.pz := 0;
       Spec64.sl := 0; Spec64.wi := 0;
       Spec64.dij := 0x1.ccccccccccccdp+0 |};
    {| Spec64.px := -0x1p+600; Spec64.py := 0; Spec64.pz := 0;
       Spec64.sl := 0; Spec64.wi := 1;
       Spec64.dij := 0x1.ccccccccccccdp+0 |} ]%float.

Definition overflow_means : Spec64.Means :=
  {| Spec64.mu_x := 0; Spec64.mu_y := 0;
     Spec64.mu_z := 0; Spec64.mu_s := 0 |}%float.

(** One record at the distance 1000, so far that its distance weight
    underflows. *)
Definition far_table : DataFrame float :=
  mkFrame 1
    [ ("prot x coor", IntSeries [0%Z]);
      ("prot y coor", IntSeries [0%Z]);
      ("prot z coor", IntSeries [0%Z]);
      ("sl", IntSeries [0%Z]);
      ("wi", IntSeries [1%Z]);
      ("dij", IntSeries [1000%Z]) ].

(** A workbook holding the worked example: the lengths in B2..B5 and the
    table from row 6 on. *)
Definition p6_sheet : list (list (obj float)) :=
  [ [OText "Parameter"; OText "Value"];
    [OText "Ls"; ONum 1%float];
    [OText "Lx"; ONum 1%float];
    [OText "Ly"; ONum 1%float];
    [OText "Lz"; ONum 1%float] ].

Definition p6_book : Workbook :=
  {| raw := p6_sheet; table := fun _ => p6_table |}.

Definition one_file (name : string) (book : Workbook) : FS :=
  fun path => if String.eqb path name then Some book else None.

Definition p6_fs : FS := one_file "restraints.xlsx" p6_book.

(** The same sheet with other values around the four length cells. *)
Definition p6_sheet_other : list (list (obj float)) :=
  [ [ONum 7%float; ONum 8%float; OText "note"];
    [ONum 3%float; ONum 1%float];
    [OText "Lx"; ONum 1%float; ONum 9%float];
    [OText ""; ONum 1%float];
    [OText "Lz"; ONum 1%float];
    [OText "more"] ].

(** A table without the columns [wi] and [dij]. *)
Definition table_without_weights : DataFrame float :=
  mkFrame 1
    [ ("prot x coor", IntSeries [0%Z]);
      ("sl", IntSeries [0%Z]);
      ("prot z coor", FloatSeries [0.5%float]);
      ("prot y coor", ObjectSeries [CText "unknown"]) ].

(** Three rows, of which the second has text in [sl] and the third an empty
    [dij]; the column [note] is not required. *)
Definition dirty_table : DataFrame float :=
  mkFrame 3
    [ ("note", ObjectSeries [CText "a"; CText "b"; CFloat PrimFloat.nan]);
      ("prot x coor", FloatSeries [0.5%float; 1%float; 2%float]);
      ("prot y coor", IntSeries [0%Z; 0%Z; 0%Z]);
      ("prot z coor", IntSeries [0%Z; 0%Z; 0%Z]);
      ("sl", ObjectSeries [CInt 0%Z; CText "?"; CInt 2%Z]);
      ("wi", BoolSeries [true; true; true]);
      ("dij", FloatSeries [2%float; 2%float; PrimFloat.nan]) ].

(** One row, dirty. *)
Definition all_dirty_table : DataFrame float :=
  mkFrame 1
    [ ("prot x coor", IntSeries [0%Z]);
      ("prot y coor", IntSeries [0%Z]);
      ("prot z coor", IntSeries [0%Z]);
      ("sl", ObjectSeries [CText "?"]);
      ("wi", IntSeries [1%Z]);
      ("dij", FloatSeries [2.5%float]) ].

(** Two rows, none dirty; the first [dij] is infinite (a cell [inf] is read
    as the number it denotes). *)
Definition inf_table : DataFrame float :=
  mkFrame 2
    [ ("prot x coor", IntSeries [0%Z; 2%Z]);
      ("prot y coor", IntSeries [0%Z; 0%Z]);
      ("prot z coor", IntSeries [0%Z; 0%Z]);
      ("sl", IntSeries [0%Z; 2%Z]);
      ("wi", FloatSeries [1%float; 0.5%float]);
      ("dij", ObjectSeries [CFloat PrimFloat.infinity; CInt 2%Z]) ].

Definition book_of (df : DataFrame float) : Workbook :=
  {| raw := p6_sheet; table := fun _ => df |}.

End Examples.

(** * Properties *)

(** ** Facts about the pandas fragment *)

Module FrameFacts.

Section Generic.
Context {F : Type} {M : Missing F}.

Lemma lookup_assign_eq (c : string) (s : Series F) l :
  lookup c (assign c s l) = Some s.
Proof.
  induction l as [|[k s0] l IH]; simpl.
  - now rewrite String.eqb_refl.
  - destruct (String.eqb k c) eqn:E; simpl; rewrite E; auto.
Qed.

Lemma lookup_assign_ne (c c' : string) (s : Series F) l :
  c <> c' -> lookup c' (assign c s l) = lookup c' l.
Proof.
  intros Hne. induction l as [|[k s0] l IH]; simpl.
  - destruct (String.eqb c c') eqn:E; auto.
    apply String.eqb_eq in E. contradiction.
  - destruct (String.eqb k c) eqn:E; simpl.
    + apply String.eqb_eq in E. subst k.
      destruct (String.eqb c c') eqn:E'; auto.
      apply String.eqb_eq in E'. contradiction.
    + destruct (String.eqb k c'); auto.
Qed.

Lemma lookup_In (c : string) (l : list (string * Series F)) :
  In c (map fst l) <-> exists s, lookup c l = Some s.
Proof.
  induction l as [|[k s0] l IH]; simpl.
  - split; [tauto | intros [s Hs]; discriminate].
  - destruct (String.eqb k c) eqn:E.
    + apply String.eqb_eq in E. split; eauto.
    + apply String.eqb_neq in E. rewrite <- IH. tauto.
Qed.

Lemma fst_assign_present (c : string) (s : Series F) l :
  In c (map fst l) -> map fst (assign c s l) = map fst l.
Proof.
  induction l as [|[k s0] l IH]; simpl; [tauto|].
  intros H. destruct (String.eqb k c) eqn:E; simpl; auto.
  apply String.eqb_neq in E. f_equal. apply IH. tauto.
Qed.

Lemma has_column_In (df : DataFrame F) (c : string) :
  has_column df c = true <-> In c (columns df).
Proof.
  unfold has_column. rewrite existsb_exists. split.
  - intros [k [Hk E]]. apply String.eqb_eq in E. now subst.
  - intros H. exists c. split; auto. apply String.eqb_refl.
Qed.

Lemma lookup_map_snd (f : Series F -> Series F) (c : string) l :
  lookup c (map (fun p => (fst p, f (snd p))) l) = option_map f (lookup c l).
Proof.
  induction l as [|[k s0] l IH]; simpl; auto.
  destruct (String.eqb k c); auto.
Qed.

Lemma lookup_series_len (c : string) (df : DataFrame F) (s : Series F) :
  wf df -> getitem df c = Some s -> series_len s = nrows df.
Proof.
  unfold wf, getitem. destruct df as [n l]. simpl.
  induction l as [|[k s0] l IH]; simpl; [discriminate|].
  intros Hwf. inversion Hwf; subst.
  destruct (String.eqb k c); [intros [= <-]; auto | auto].
Qed.

Lemma wf_setitem (df : DataFrame F) (c : string) (s : Series F) :
  wf df -> series_len s = nrows df -> wf (setitem df c s).
Proof.
  unfold wf, setitem. destruct df as [n l]. simpl. intros Hwf Hs.
  induction l as [|[k s0] l IH]; simpl.
  - constructor; auto.
  - inversion Hwf; subst.
    destruct (String.eqb k c); constructor; auto.
Qed.

Lemma series_len_to_numeric (na : F) (cast : Z -> F) (s : Series F) :
  series_len (to_numeric na cast s) = series_len s.
Proof.
  destruct s; simpl; auto.
  destruct (forallb (@is_int F) os); simpl; apply length_map.
Qed.

Lemma to_numeric_idem (na : F) (cast : Z -> F) (s : Series F) :
  to_numeric na cast (to_numeric na cast s) = to_numeric na cast s.
Proof.
  destruct s; try reflexivity. simpl.
  destruct (forallb (@is_int F) os); reflexivity.
Qed.

(** The dtype [to_numeric] gives is never object. *)
Lemma to_numeric_numeric (na : F) (cast : Z -> F) (s : Series F) :
  match to_numeric na cast s with
  | ObjectSeries _ => False
  | _ => True
  end.
Proof.
  destruct s; simpl; auto. destruct (forallb (@is_int F) os); exact I.
Qed.

Lemma length_notna (s : Series F) : length (notna s) = series_len s.
Proof. destruct s; simpl; apply length_map. Qed.

Lemma length_zip_with {A B C : Type} (f : A -> B -> C) l m :
  length l = length m -> length (zip_with f l m) = length l.
Proof.
  revert m. induction l as [|a l IH]; intros [|b m]; simpl; auto; try discriminate.
Qed.

Lemma nth_zip_with_andb (l m : list bool) (i : nat) :
  length l = length m ->
  nth i (zip_with andb l m) false = nth i l false && nth i m false.
Proof.
  revert m i. induction l as [|a l IH]; intros [|b m] [|i]; simpl;
    auto; try discriminate.
Qed.

Lemma length_select {A : Type} (mask : list bool) (l : list A) :
  length mask = length l -> length (select mask l) = count_true mask.
Proof.
  unfold count_true. revert l.
  induction mask as [|b mask IH]; intros [|a l]; simpl; auto; try discriminate.
  intros [= H]. destruct b; simpl; auto.
Qed.

Lemma In_select {A : Type} (mask : list bool) (l : list A) (a : A) (d : A) :
  In a (select mask l) ->
  exists i, i < length l /\ nth i mask false = true /\ nth i l d = a.
Proof.
  revert l. induction mask as [|b mask IH]; intros [|a0 l]; simpl; try tauto.
  destruct b; simpl.
  - intros [<- | H].
    + exists 0. repeat split; auto. lia.
    + destruct (IH _ H) as [i [Hi [Hm Hl]]]. exists (S i).
      repeat split; auto. lia.
  - intros H. destruct (IH _ H) as [i [Hi [Hm Hl]]]. exists (S i).
    repeat split; auto. lia.
Qed.

Lemma count_true_complement {A : Type} (p : A -> bool) (l : list A) :
  count_true (map (fun a => negb (p a)) l) + length (filter p l) = length l.
Proof.
  unfold count_true. induction l as [|a l IH]; simpl; auto.
  destruct (p a); simpl; lia.
Qed.

Lemma nth_map_lt {A : Type} (f : A -> bool) (l : list A) (d : A) (i : nat) :
  i < length l -> nth i (map f l) false = f (nth i l d).
Proof.
  intros Hi. rewrite (nth_indep _ false (f d)) by (now rewrite length_map).
  apply map_nth.
Qed.

Lemma nth_repeat_true (n i : nat) : i < n -> nth i (repeat true n) false = true.
Proof.
  revert i. induction n; intros [|i] H; simpl; auto; try lia. apply IHn. lia.
Qed.

End Generic.

End FrameFacts.

(** ** Facts about binary64 *)

Module FloatFacts.

Import SpecFloat FloatOps FloatAxioms Sign.

Lemma is_nan_spec (x : float) : PrimFloat.is_nan x = sf_nan (Prim2SF x).
Proof.
  unfold Prim2SF. destruct (PrimFloat.is_nan x); [reflexivity|].
  destruct (is_zero x); [reflexivity|].
  destruct (is_infinity x); [reflexivity|].
  destruct (Z.frexp x) as [r e].
  destruct (shr_fexp prec emax (Uint63Axioms.to_Z (normfr_mantissa r)) (e - prec) loc_Exact)
    as [s e'].
  destruct (shr_m s); reflexivity.
Qed.

Lemma leb_zero_spec (x : float) : (0 <=? x)%float = sf_nonneg (Prim2SF x).
Proof.
  rewrite leb_spec. change (Prim2SF 0) with (S754_zero false).
  destruct (Prim2SF x) as [s|s| |s m e]; try reflexivity; destruct s; reflexivity.
Qed.

Lemma ltb_zero_spec (x : float) :
  (x <? 0)%float = negb (sf_nonneg (Prim2SF x) || sf_nan (Prim2SF x)).
Proof.
  rewrite ltb_spec. change (Prim2SF 0) with (S754_zero false).
  destruct (Prim2SF x) as [s|s| |s m e]; try reflexivity; destruct s; reflexivity.
Qed.

Lemma shr_1_nonneg (mrs : shr_record) :
  (0 <= shr_m mrs)%Z -> (0 <= shr_m (shr_1 mrs))%Z.
Proof.
  destruct mrs as [m r s]. simpl.
  destruct m as [|p|p]; simpl; try lia.
  - destruct p; simpl; lia.
Qed.

Lemma iter_pos_inv {A : Type} (P : A -> Prop) (f : A -> A) :
  (forall x, P x -> P (f x)) ->
  forall n x, P x -> P (iter_pos f n x).
Proof.
  intros Hf. induction n as [n IH|n IH|]; intros x Hx; simpl; auto.
Qed.

Lemma shr_nonneg (mrs : shr_record) (e n : Z) :
  (0 <= shr_m mrs)%Z -> (0 <= shr_m (fst (shr mrs e n)))%Z.
Proof.
  intros H. destruct n; simpl; auto.
  apply (iter_pos_inv (fun r => (0 <= shr_m r)%Z)); auto.
  apply shr_1_nonneg.
Qed.

Lemma shr_fexp_nonneg (m e : Z) (l : location) :
  (0 <= m)%Z -> (0 <= shr_m (fst (shr_fexp prec emax m e l)))%Z.
Proof.
  intros H. unfold shr_fexp. apply shr_nonneg.
  destruct l as [|[| |]]; simpl; auto.
Qed.

Lemma round_nearest_even_nonneg (m : Z) (l : location) :
  (0 <= m)%Z -> (0 <= round_nearest_even m l)%Z.
Proof.
  intros H. destruct l as [|[| |]]; simpl; try lia.
  destruct (Z.even m); lia.
Qed.

Lemma binary_round_aux_signed (sx : bool) (mx ex : Z) (lx : location) :
  (0 <= mx)%Z -> signed sx (binary_round_aux prec emax sx mx ex lx).
Proof.
  intros H. unfold binary_round_aux.
  pose proof (@shr_fexp_nonneg mx ex lx H) as H1.
  destruct (shr_fexp prec emax mx ex lx) as [mrs' e']. simpl in H1.
  pose proof (@shr_fexp_nonneg
                (round_nearest_even (shr_m mrs') (loc_of_shr_record mrs'))
                e' loc_Exact (round_nearest_even_nonneg _ H1)) as H2.
  destruct (shr_fexp prec emax
              (round_nearest_even (shr_m mrs') (loc_of_shr_record mrs'))
              e' loc_Exact) as [mrs'' e'']. simpl in H2.
  destruct (shr_m mrs'') as [|m|m].
  - left. reflexivity.
  - destruct (e'' <=? emax - prec)%Z.
    + right. right. eauto.
    + right. left. reflexivity.
  - lia.
Qed.

Lemma binary_round_signed (sx : bool) (mx : positive) (ex : Z) :
  signed sx (binary_round prec emax sx mx ex).
Proof.
  unfold binary_round.
  destruct (shl_align mx ex (fexp prec emax (Z.pos (digits2_pos mx) + ex))) as [mz ez].
  apply binary_round_aux_signed. lia.
Qed.

Lemma binary_normalize_not_nan (m e : Z) (szero : bool) :
  sf_nan (binary_normalize prec emax m e szero) = false.
Proof.
  destruct m as [|p|p]; simpl; auto.
  - destruct (binary_round_signed false p e) as [E|[E|[m [e' E]]]]; now rewrite E.
  - destruct (binary_round_signed true p e) as [E|[E|[m [e' E]]]]; now rewrite E.
Qed.

Lemma binary_normalize_nonneg (m e : Z) (szero : bool) :
  (0 <= m)%Z -> sf_nonneg (binary_normalize prec emax m e szero) = true.
Proof.
  destruct m as [|p|p]; simpl; auto; try lia. intros _.
  destruct (binary_round_signed false p e) as [E|[E|[m [e' E]]]]; now rewrite E.
Qed.

Lemma signed_nonneg (f : spec_float) : signed false f -> sf_nonneg f = true.
Proof. intros [E|[E|[m [e E]]]]; now rewrite E. Qed.

(** *** Closure of the operations *)

Lemma signed_plus (f : spec_float) : signed false f -> sf_plus f = true.
Proof. intros [E|[E|[m [e E]]]]; now rewrite E. Qed.

Lemma sf_nonneg_nn_or_nan (f : spec_float) :
  sf_nonneg f = true -> sf_nn_or_nan f = true.
Proof. unfold sf_nn_or_nan. now intros ->. Qed.

Lemma SFmul_nn (x y : spec_float) :
  sf_nn_or_nan x = true -> sf_nn_or_nan y = true ->
  sf_nn_or_nan (SFmul prec emax x y) = true.
Proof.
  destruct x as [sx|sx| |sx mx ex], y as [sy|sy| |sy my ey];
    try destruct sx; try destruct sy; simpl; try reflexivity; try discriminate.
  intros _ _. apply sf_nonneg_nn_or_nan, signed_nonneg.
  apply binary_round_aux_signed. lia.
Qed.

Lemma SFmul_square (x : spec_float) : sf_nn_or_nan (SFmul prec emax x x) = true.
Proof.
  destruct x as [sx|sx| |sx mx ex]; try destruct sx; simpl; try reflexivity.
  - apply sf_nonneg_nn_or_nan, signed_nonneg, binary_round_aux_signed. lia.
  - apply sf_nonneg_nn_or_nan, signed_nonneg, binary_round_aux_signed. lia.
Qed.

Lemma SFmul_pos_finite (x y : spec_float) :
  sf_nonneg x = true -> sf_pos_finite y = true ->
  sf_nonneg (SFmul prec emax x y) = true.
Proof.
  destruct x as [sx|sx| |sx mx ex], y as [sy|sy| |sy my ey];
    try destruct sx; try destruct sy; simpl; try reflexivity; try discriminate.
  intros _ _. apply signed_nonneg, binary_round_aux_signed. lia.
Qed.

Lemma SFadd_nonneg (x y : spec_float) :
  sf_nonneg x = true -> sf_nonneg y = true ->
  sf_nonneg (SFadd prec emax x y) = true.
Proof.
  destruct x as [sx|sx| |sx mx ex], y as [sy|sy| |sy my ey];
    try destruct sx; try destruct sy; simpl; try reflexivity; try discriminate.
  intros _ _. apply signed_nonneg, binary_round_signed.
Qed.

Lemma SFadd_nn (x y : spec_float) :
  sf_nn_or_nan x = true -> sf_nn_or_nan y = true ->
  sf_nn_or_nan (SFadd prec emax x y) = true.
Proof.
  destruct x as [sx|sx| |sx mx ex], y as [sy|sy| |sy my ey];
    try destruct sx; try destruct sy; simpl; try reflexivity; try discriminate.
  intros _ _. apply sf_nonneg_nn_or_nan, signed_nonneg, binary_round_signed.
Qed.

Lemma SFdiv_core_nonneg (m1 : positive) (e1 : Z) (m2 : positive) (e2 : Z) :
  (0 <= fst (fst (SFdiv_core_binary prec emax (Z.pos m1) e1 (Z.pos m2) e2)))%Z.
Proof.
  unfold SFdiv_core_binary.
  set (s := (e1 - e2 -
             Z.min (fexp prec emax
                      (Zdigits2 (Z.pos m1) + e1 - (Zdigits2 (Z.pos m2) + e2)))
                   (e1 - e2))%Z).
  set (m' := match s with
             | Z0 => Z.pos m1
             | Z.pos _ => Z.shiftl (Z.pos m1) s
             | Z.neg _ => 0%Z
             end).
  assert (Hm : (0 <= m')%Z).
  { unfold m'. destruct s; try lia. apply Z.shiftl_nonneg. lia. }
  pose proof (Z.div_pos m' (Z.pos m2) Hm ltac:(lia)) as Hq.
  unfold Z.div in Hq.
  destruct (Z.div_eucl m' (Z.pos m2)) as [q r]. simpl in *. exact Hq.
Qed.

Lemma SFdiv_nn (x y : spec_float) :
  sf_nn_or_nan x = true -> sf_plus y = true ->
  sf_nn_or_nan (SFdiv prec emax x y) = true.
Proof.
  destruct x as [sx|sx| |sx mx ex], y as [sy|sy| |sy my ey];
    try destruct sx; try destruct sy; simpl SFdiv;
    try reflexivity; try discriminate.
  intros _ _.
  pose proof (SFdiv_core_nonneg mx ex my ey) as H.
  destruct (SFdiv_core_binary prec emax (Z.pos mx) ex (Z.pos my) ey)
    as [[mz ez] lz]. simpl in H.
  apply sf_nonneg_nn_or_nan, signed_nonneg, binary_round_aux_signed. exact H.
Qed.

(** *** On primitive floats *)

Lemma not_negative_spec (x : float) :
  not_negative x <-> sf_nn_or_nan (Prim2SF x) = true.
Proof.
  unfold not_negative. rewrite ltb_zero_spec. unfold sf_nn_or_nan.
  destruct (sf_nonneg (Prim2SF x) || sf_nan (Prim2SF x)); simpl; intuition congruence.
Qed.

Lemma nonneg_spec (x : float) : nonneg x <-> sf_nonneg (Prim2SF x) = true.
Proof. unfold nonneg. now rewrite leb_zero_spec. Qed.

Lemma nonneg_not_negative (x : float) : nonneg x -> not_negative x.
Proof.
  rewrite nonneg_spec, not_negative_spec. apply sf_nonneg_nn_or_nan.
Qed.

Lemma not_negative_not_nan (x : float) :
  not_negative x -> PrimFloat.is_nan x = false -> nonneg x.
Proof.
  rewrite nonneg_spec, not_negative_spec, is_nan_spec. unfold sf_nn_or_nan.
  intros H1 H2. rewrite H2, orb_false_r in H1. exact H1.
Qed.

Lemma nonneg_not_nan (x : float) : nonneg x -> PrimFloat.is_nan x = false.
Proof.
  rewrite nonneg_spec, is_nan_spec. destruct (Prim2SF x); simpl; congruence.
Qed.

Lemma mul_not_negative (x y : float) :
  not_negative x -> not_negative y -> not_negative (x * y).
Proof.
  rewrite !not_negative_spec, mul_spec. apply SFmul_nn.
Qed.

Lemma square_not_negative (x : float) : not_negative (x * x).
Proof. rewrite not_negative_spec, mul_spec. apply SFmul_square. Qed.

Lemma add_not_negative (x y : float) :
  not_negative x -> not_negative y -> not_negative (x + y).
Proof.
  rewrite !not_negative_spec, add_spec. apply SFadd_nn.
Qed.

Lemma add_nonneg (x y : float) : nonneg x -> nonneg y -> nonneg (x + y).
Proof.
  rewrite !nonneg_spec, add_spec. apply SFadd_nonneg.
Qed.

Lemma div_not_negative (x y : float) :
  not_negative x -> sf_plus (Prim2SF y) = true -> not_negative (x / y).
Proof.
  rewrite !not_negative_spec, div_spec. apply SFdiv_nn.
Qed.

(** *** Conversions of integers *)

Lemma of_uint63_not_nan (n : int) : PrimFloat.is_nan (of_uint63 n) = false.
Proof.
  rewrite is_nan_spec, of_uint63_spec. apply binary_normalize_not_nan.
Qed.

Lemma of_uint63_nonneg (n : int) : nonneg (of_uint63 n).
Proof.
  rewrite nonneg_spec, of_uint63_spec. apply binary_normalize_nonneg.
  apply Uint63.to_Z_bounded.
Qed.

Lemma of_uint63_plus (n : int) : sf_plus (Prim2SF (of_uint63 n)) = true.
Proof.
  rewrite of_uint63_spec.
  pose proof (Uint63.to_Z_bounded n) as [H _].
  destruct (Uint63Axioms.to_Z n) as [|p|p]; simpl; auto; try lia.
  apply signed_plus, binary_round_signed.
Qed.

Lemma opp_not_nan (x : float) :
  PrimFloat.is_nan x = false -> PrimFloat.is_nan (- x) = false.
Proof.
  rewrite !is_nan_spec, opp_spec. destruct (Prim2SF x); simpl; congruence.
Qed.

(** *** A row count is a positive number *)

Lemma digits2_size (p : positive) : digits2_pos p = Pos.size p.
Proof. induction p; simpl; congruence. Qed.

Lemma digits2_iter_xO (p k : positive) :
  digits2_pos (Pos.iter xO p k) = (digits2_pos p + k)%positive.
Proof.
  induction k as [|k IH] using Pos.peano_ind.
  - simpl. lia.
  - rewrite Pos.iter_succ. simpl. rewrite IH. lia.
Qed.

Lemma digits2_le_53 (p : positive) :
  (Z.pos p < 2 ^ 53)%Z -> (Z.pos (digits2_pos p) <= 53)%Z.
Proof.
  intros H. rewrite digits2_size.
  destruct (Z_le_gt_dec (Z.pos (Pos.size p)) 53) as [|Hgt]; auto.
  exfalso.
  pose proof (Pos.size_le p) as Hle.
  assert (H1 : (2 ^ 54 <= 2 ^ Z.pos (Pos.size p))%Z)
    by (apply Z.pow_le_mono_r; lia).
  assert (H2 : (2 ^ Z.pos (Pos.size p) <= Z.pos p~0)%Z).
  { rewrite <- Pos2Z.inj_pow. apply Pos2Z.pos_le_pos. exact Hle. }
  change (2 ^ 54)%Z with (2 * 2 ^ 53)%Z in H1. lia.
Qed.

Lemma binary_round_aux_canonical (sx : bool) (m : positive) (e : Z) :
  fexp prec emax (Z.pos (digits2_pos m) + e) = e ->
  (e <= emax - prec)%Z ->
  binary_round_aux prec emax sx (Z.pos m) e loc_Exact = S754_finite sx m e.
Proof.
  intros Hc He. unfold binary_round_aux, shr_fexp.
  cbn [Zdigits2 shr_record_of_loc]. rewrite Hc, Z.sub_diag.
  cbn [shr shr_m loc_of_shr_record round_nearest_even Zdigits2 shr_record_of_loc].
  rewrite Hc, Z.sub_diag. cbn [shr shr_m].
  apply Z.leb_le in He. now rewrite He.
Qed.

Lemma binary_round_small (p : positive) :
  (Z.pos p < 2 ^ 53)%Z ->
  exists m e, binary_round prec emax false p 0 = S754_finite false m e.
Proof.
  intros H. pose proof (digits2_le_53 H) as Hd.
  unfold binary_round.
  assert (Hf : fexp prec emax (Z.pos (digits2_pos p) + 0) =
               (Z.pos (digits2_pos p) - 53)%Z).
  { unfold fexp, emin, prec, emax. lia. }
  rewrite Hf. unfold shl_align.
  destruct (Z.pos (digits2_pos p) - 53 - 0)%Z as [|k|k] eqn:Ek; try lia.
  - exists p, 0%Z. apply binary_round_aux_canonical.
    + rewrite Hf. lia.
    + unfold emax, prec. lia.
  - exists (Pos.iter xO p k), (Z.pos (digits2_pos p) - 53)%Z.
    apply binary_round_aux_canonical.
    + rewrite digits2_iter_xO. unfold fexp, emin, prec, emax. lia.
    + unfold emax, prec. lia.
Qed.

Lemma of_nat_pos_finite (n : nat) :
  1 <= n -> (Z.of_nat n < 2 ^ 53)%Z ->
  sf_pos_finite (Prim2SF (of_uint63 (Uint63.of_Z (Z.of_nat n)))) = true.
Proof.
  intros H1 H2. rewrite of_uint63_spec, Uint63.of_Z_spec.
  rewrite Z.mod_small.
  2:{ split; [lia|]. eapply Z.lt_trans; [exact H2|]. reflexivity. }
  destruct (Z.of_nat n) as [|p|p] eqn:E; try lia.
  simpl. destruct (binary_round_small H2) as [m [e ->]]. reflexivity.
Qed.

Lemma float_of_Z_not_nan (z : Z) : PrimFloat.is_nan (float_of_Z z) = false.
Proof.
  unfold float_of_Z. destruct (z =? - 2 ^ 63)%Z; [vm_compute; reflexivity|].
  destruct (z <? 0)%Z.
  - apply opp_not_nan, of_uint63_not_nan.
  - apply of_uint63_not_nan.
Qed.

Lemma SFsub_finite_not_nan (x : spec_float) (s : bool) (m : positive) (e : Z) :
  sf_nan x = false -> sf_nan (SFsub prec emax x (S754_finite s m e)) = false.
Proof.
  destruct x as [sx|sx| |sx mx ex]; simpl SFsub; try reflexivity;
    try discriminate.
  intros _. apply binary_normalize_not_nan.
Qed.

(** The argument of the exponential is a number when [dij] is. *)
Lemma exponent_not_nan (d : float) :
  PrimFloat.is_nan d = false ->
  PrimFloat.is_nan (- (d - 0x1.ccccccccccccdp+0))%float = false.
Proof.
  intros H. apply opp_not_nan. rewrite is_nan_spec in *. rewrite sub_spec.
  change (Prim2SF 0x1.ccccccccccccdp+0)
    with (S754_finite false 8106479329266893 (-52)).
  now apply SFsub_finite_not_nan.
Qed.

Lemma SFmul_comm (x y : spec_float) : SFmul prec emax x y = SFmul prec emax y x.
Proof.
  destruct x as [sx|sx| |sx mx ex], y as [sy|sy| |sy my ey]; simpl;
    try reflexivity; try (now rewrite xorb_comm).
  now rewrite xorb_comm, Pos.mul_comm, Z.add_comm.
Qed.

Lemma mul_comm (x y : float) : (x * y = y * x)%float.
Proof. apply Prim2SF_inj. rewrite !mul_spec. apply SFmul_comm. Qed.

(** *** Sums *)

Lemma adds_up_nonneg (xs : list float) (v : float) :
  adds_up xs v -> Forall nonneg xs -> nonneg v.
Proof.
  induction 1 as [| |x|xs ys a b Ha IHa Hb IHb|xs ys a Hp Ha IH]; intros H.
  - reflexivity.
  - reflexivity.
  - now inversion H.
  - apply Forall_app in H. destruct H. apply add_nonneg; auto.
  - apply IH. eapply Permutation_Forall; [|exact H]. now apply Permutation_sym.
Qed.

Lemma adds_up_nil (v : float) :
  adds_up [] v -> v = 0%float \/ v = PrimFloat.neg_zero.
Proof.
  intros H. remember [] as l eqn:E.
  induction H as [| |x|xs ys a b Ha IHa Hb IHb|xs ys a Hp Ha IH]; auto.
  - discriminate.
  - apply app_eq_nil in E. destruct E as [-> ->].
    destruct (IHa eq_refl) as [-> | ->], (IHb eq_refl) as [-> | ->];
      vm_compute; auto.
  - subst ys. apply Permutation_sym, Permutation_nil in Hp. auto.
Qed.

Lemma adds_up_two (a b v : float) :
  absorbs a -> absorbs b -> absorbs (a + b) -> (a + b = b + a)%float ->
  adds_up [a; b] v -> v = (a + b)%float.
Proof.
  intros Aa Ab Aab Hcomm H.
  assert (G : forall xs w, adds_up xs w ->
            (xs = [] -> w = 0%float \/ w = PrimFloat.neg_zero) /\
            (xs = [a] -> w = a) /\
            (xs = [b] -> w = b) /\
            (xs = [a; b] \/ xs = [b; a] -> w = (a + b)%float)).
  { clear H v.
    induction 1 as [| |x|xs ys u w Hu IHu Hw IHw|xs ys u Hp Hu IH].
    - repeat split; auto; try discriminate. intros [|]; discriminate.
    - repeat split; auto; try discriminate. intros [|]; discriminate.
    - repeat split; try discriminate; try congruence. intros [|]; discriminate.
    - destruct IHu as [U0 [Ua [Ub Uab]]], IHw as [W0 [Wa [Wb Wab]]].
      destruct Aa as [Aa1 [Aa2 [Aa3 Aa4]]], Ab as [Ab1 [Ab2 [Ab3 Ab4]]],
        Aab as [Aab1 [Aab2 [Aab3 Aab4]]].
      repeat split.
      + intros E. apply app_eq_nil in E. destruct E as [-> ->].
        destruct (U0 eq_refl) as [-> | ->], (W0 eq_refl) as [-> | ->];
          vm_compute; auto.
      + intros E. apply app_eq_unit in E. destruct E as [[-> ->]|[-> ->]].
        * rewrite (Wa eq_refl). destruct (U0 eq_refl) as [-> | ->]; auto.
        * rewrite (Ua eq_refl). destruct (W0 eq_refl) as [-> | ->]; auto.
      + intros E. apply app_eq_unit in E. destruct E as [[-> ->]|[-> ->]].
        * rewrite (Wb eq_refl). destruct (U0 eq_refl) as [-> | ->]; auto.
        * rewrite (Ub eq_refl). destruct (W0 eq_refl) as [-> | ->]; auto.
      + intros E.
        assert (Hs : (xs = [] /\ (ys = [a; b] \/ ys = [b; a])) \/
                     (xs = [a] /\ ys = [b]) \/ (xs = [b] /\ ys = [a]) \/
                     ((xs = [a; b] \/ xs = [b; a]) /\ ys = [])).
        { destruct xs as [|x1 [|x2 [|x3 xs]]]; simpl in E.
          - left. auto.
          - destruct E as [E|E]; injection E as -> ->; auto.
          - right. right. right.
            destruct E as [E|E]; injection E as -> -> ->; auto.
          - destruct E as [E|E]; discriminate. }
        destruct Hs as [[-> Hy]|[[-> ->]|[[-> ->]|[Hx ->]]]].
        * rewrite (Wab Hy). destruct (U0 eq_refl) as [-> | ->]; auto.
        * now rewrite (Ua eq_refl), (Wb eq_refl).
        * now rewrite (Ub eq_refl), (Wa eq_refl).
        * rewrite (Uab Hx). destruct (W0 eq_refl) as [-> | ->]; auto.
    - destruct IH as [U0 [Ua [Ub Uab]]]. repeat split.
      + intros ->. apply Permutation_sym, Permutation_nil in Hp. auto.
      + intros ->. apply Permutation_sym, Permutation_length_1_inv in Hp. auto.
      + intros ->. apply Permutation_sym, Permutation_length_1_inv in Hp. auto.
      + intros [-> | ->];
          apply Permutation_sym, Permutation_length_2_inv in Hp;
          destruct Hp as [-> | ->]; auto. }
  apply (G _ _ H). auto.
Qed.

Lemma mul_nonneg_pos (x y : float) :
  nonneg x -> sf_pos_finite (Prim2SF y) = true -> nonneg (x * y).
Proof.
  rewrite !nonneg_spec, mul_spec. apply SFmul_pos_finite.
Qed.

Lemma left_sum_from (xs ys : list float) (a : float) :
  adds_up ys a -> adds_up (ys ++ xs) (fold_left PrimFloat.add xs a).
Proof.
  revert ys a. induction xs as [|x xs IH]; intros ys a H; simpl.
  - now rewrite app_nil_r.
  - change (x :: xs) with ([x] ++ xs). rewrite app_assoc. apply IH.
    apply adds_both; [exact H | apply adds_one].
Qed.

Lemma left_sum_summation : summation left_sum.
Proof.
  intros xs. apply (@left_sum_from xs [] 0%float). apply adds_none.
Qed.

Lemma routines_honest : sums_honest Examples.routines.
Proof. repeat split; apply left_sum_summation. Qed.

Lemma exp_poly_not_negative (x : float) : not_negative (Examples.exp_poly x).
Proof. apply square_not_negative. Qed.


End FloatFacts.

(** ** The input reader *)

Module ReaderFacts.

Import FrameFacts Reader Cleaning.

Local Open Scope string_scope.

(** *** Column coercion *)

Lemma coerce_columns_spec (cs : list string) : forall (df : DataFrame float),
  wf df ->
  (forall c, In c cs -> In c (columns df)) ->
  exists df1,
    coerce_columns df cs = inr df1 /\
    wf df1 /\
    nrows df1 = nrows df /\
    columns df1 = columns df /\
    (forall c, In c cs ->
       getitem df1 c = option_map (to_numeric PrimFloat.nan float_of_Z) (getitem df c)) /\
    (forall c, ~ In c cs -> getitem df1 c = getitem df c).
Proof.
  induction cs as [|c cs IH]; intros df Hwf Hin; simpl.
  - exists df. repeat split; auto. intros c [].
  - assert (Hc : In c (columns df)) by (apply Hin; now left).
    apply lookup_In in Hc. destruct Hc as [s Hs].
    unfold getitem at 1. rewrite Hs.
    set (df' := setitem df c (to_numeric PrimFloat.nan float_of_Z s)).
    assert (Hcols : columns df' = columns df).
    { unfold df', columns, setitem. simpl. apply fst_assign_present.
      apply lookup_In. eauto. }
    destruct (IH df') as [df1 [E [Hwf1 [Hn [Hcol [Hreq Hoth]]]]]].
    + apply wf_setitem; auto. rewrite series_len_to_numeric.
      eapply lookup_series_len; eauto.
    + intros c' Hc'. rewrite Hcols. apply Hin. now right.
    + exists df1. split; [exact E|]. split; [exact Hwf1|].
      split; [exact Hn|]. split; [congruence|]. split.
      * intros c' Hc'. destruct (string_dec c c') as [<-|Hne].
        -- destruct (in_dec string_dec c cs) as [Hi|Hni].
           ++ rewrite (Hreq _ Hi). unfold df', getitem, setitem. simpl.
              rewrite lookup_assign_eq. rewrite Hs. simpl.
              now rewrite to_numeric_idem.
           ++ rewrite (Hoth _ Hni). unfold df', getitem, setitem. simpl.
              rewrite lookup_assign_eq. now rewrite Hs.
        -- destruct Hc' as [?|Hc']; [contradiction|].
           rewrite (Hreq _ Hc'). unfold df', getitem, setitem. simpl.
           now rewrite lookup_assign_ne.
      * intros c' Hc'. simpl in Hc'.
        rewrite Hoth by tauto. unfold df', getitem, setitem. simpl.
        rewrite lookup_assign_ne; auto.
Qed.

(** *** The row mask *)

Lemma all_notna_spec (subset : list string) (df : DataFrame float) :
  wf df ->
  (forall c, In c subset -> In c (columns df)) ->
  exists mask,
    all_notna df subset = inr mask /\
    length mask = nrows df /\
    forall i, i < nrows df ->
      nth i mask false =
      forallb (fun c => match getitem df c with
                        | Some s => nth i (notna s) false
                        | None => false
                        end) subset.
Proof.
  intros Hwf. induction subset as [|c cs IH]; intros Hin; simpl.
  - exists (repeat true (nrows df)). split; auto. split.
    + apply repeat_length.
    + intros i Hi. now apply nth_repeat_true.
  - assert (Hc : In c (columns df)) by (apply Hin; now left).
    apply lookup_In in Hc. destruct Hc as [s Hs]. unfold getitem. rewrite Hs.
    destruct IH as [m [E [Hlen Hnth]]].
    { intros c' Hc'. apply Hin. now right. }
    rewrite E. exists (zip_with andb (notna s) m).
    assert (Hl : length (notna s) = length m).
    { rewrite length_notna, Hlen. eapply lookup_series_len; eauto. }
    split; auto. split.
    + rewrite length_zip_with; auto. congruence.
    + intros i Hi. rewrite nth_zip_with_andb by auto.
      now rewrite (Hnth i Hi).
Qed.

Lemma isnan_coerce (c : cell float) :
  PrimFloat.is_nan (coerce PrimFloat.nan float_of_Z c) = fails_coercion c.
Proof.
  destruct c; simpl; auto. apply FloatFacts.float_of_Z_not_nan.
Qed.

Lemma notna_to_numeric_nth (s : Series float) (i : nat) :
  i < series_len s ->
  nth i (notna (to_numeric PrimFloat.nan float_of_Z s)) false =
  negb (dirty_at s i).
Proof.
  destruct s as [xs|zs|bs|os]; simpl; intros Hi.
  - rewrite (nth_error_nth' xs PrimFloat.nan Hi). simpl.
    now rewrite (nth_map_lt _ xs PrimFloat.nan Hi).
  - rewrite (nth_error_nth' zs 0%Z Hi). simpl.
    now rewrite (nth_map_lt _ zs 0%Z Hi).
  - rewrite (nth_error_nth' bs false Hi). simpl.
    now rewrite (nth_map_lt _ bs false Hi).
  - rewrite (nth_error_nth' os (@CInt float 0%Z) Hi). simpl.
    destruct (forallb (@is_int float) os) eqn:E; simpl.
    + rewrite (nth_map_lt _ (map (@int_value float) os) 0%Z)
        by (now rewrite length_map).
      rewrite forallb_forall in E.
      specialize (E (nth i os (@CInt float 0%Z)) (nth_In os _ Hi)).
      destruct (nth i os (@CInt float 0%Z)); simpl in *; congruence.
    + rewrite map_map.
      rewrite (nth_map_lt _ os (@CInt float 0%Z) Hi).
      now rewrite isnan_coerce.
Qed.

Lemma forallb_negb_existsb {A : Type} (p q : A -> bool) (l : list A) :
  (forall a, In a l -> q a = negb (p a)) ->
  forallb q l = negb (existsb p l).
Proof.
  induction l as [|a l IH]; simpl; intros H; auto.
  rewrite H by auto. rewrite IH by auto. now rewrite negb_orb.
Qed.

Lemma complete_no_missing (df : DataFrame float) :
  complete df ->
  filter (fun c => negb (has_column df c)) REQUIRED_COLUMNS = [].
Proof.
  intros H. unfold complete in H.
  induction REQUIRED_COLUMNS as [|c cs IH]; simpl; auto.
  assert (Hc : has_column df c = true) by (apply has_column_In, H; now left).
  rewrite Hc. simpl. apply IH. intros c' Hc'. apply H. now right.
Qed.

(** What [clean_table] goes through on a well-formed table with all the
    required columns: the coerced table and the mask of clean rows. *)
Lemma clean_core (df : DataFrame float) :
  wf df -> complete df ->
  exists df1,
    coerce_columns df REQUIRED_COLUMNS = inr df1 /\
    all_notna df1 REQUIRED_COLUMNS =
      inr (map (fun i => negb (dirty df i)) (seq 0 (nrows df))) /\
    wf df1 /\ nrows df1 = nrows df /\ columns df1 = columns df /\
    (forall c, In c REQUIRED_COLUMNS ->
       exists s, getitem df c = Some s /\
                 getitem df1 c = Some (to_numeric PrimFloat.nan float_of_Z s)) /\
    (forall c, ~ In c REQUIRED_COLUMNS -> getitem df1 c = getitem df c) /\
    (forall i c s1, i < nrows df -> dirty df i = false ->
       In c REQUIRED_COLUMNS -> getitem df1 c = Some s1 ->
       nth i (notna s1) false = true).
Proof.
  intros Hwf Hc.
  destruct (coerce_columns_spec REQUIRED_COLUMNS Hwf Hc)
    as [df1 [E [Hwf1 [Hn [Hcol [Hreq Hoth]]]]]].
  assert (Hreq' : forall c, In c REQUIRED_COLUMNS ->
            exists s, getitem df c = Some s /\
                      getitem df1 c = Some (to_numeric PrimFloat.nan float_of_Z s)).
  { intros c Hin. destruct (proj1 (lookup_In c (cols df)) (Hc c Hin)) as [s Hs].
    exists s. split; auto. rewrite (Hreq c Hin). unfold getitem. now rewrite Hs. }
  destruct (@all_notna_spec REQUIRED_COLUMNS df1 Hwf1) as [m [Em [Hlen Hnth]]].
  { intros c Hin. rewrite Hcol. auto. }
  assert (Hmask : forall i, i < nrows df -> nth i m false = negb (dirty df i)).
  { intros i Hi. rewrite (Hnth i) by congruence.
    unfold dirty. apply forallb_negb_existsb.
    intros c Hin. destruct (Hreq' c Hin) as [s [Hs Hs1]].
    rewrite Hs1, Hs.
    assert (Hi' : i < series_len s).
    { rewrite (lookup_series_len c Hwf Hs). exact Hi. }
    apply (notna_to_numeric_nth s Hi'). }
  exists df1. split; [exact E|].
  split; [|repeat split; auto].
  - rewrite Em. f_equal.
    apply (nth_ext _ _ false (negb (dirty df (nrows df)))).
    { rewrite length_map, length_seq. congruence. }
    intros i Hi. rewrite Hlen, Hn in Hi.
    rewrite (Hmask i Hi).
    change (negb (dirty df (nrows df)))
      with ((fun i => negb (dirty df i)) (nrows df)).
    rewrite map_nth. rewrite seq_nth by auto. now rewrite Nat.add_0_l.
  - intros i c s1 Hi Hd Hin Hs1.
    pose proof (Hmask i Hi) as Hm. rewrite Hd in Hm. simpl in Hm.
    rewrite (Hnth i) in Hm by congruence.
    rewrite forallb_forall in Hm. specialize (Hm c Hin).
    now rewrite Hs1 in Hm.
Qed.

Lemma dirty_count_le (df : DataFrame float) : dirty_count df <= nrows df.
Proof.
  unfold dirty_count.
  etransitivity; [apply filter_length_le | now rewrite length_seq].
Qed.

Lemma count_clean (df : DataFrame float) :
  count_true (map (fun i => negb (dirty df i)) (seq 0 (nrows df))) =
  nrows df - dirty_count df.
Proof.
  pose proof (count_true_complement (dirty df) (seq 0 (nrows df))) as H.
  rewrite length_seq in H. unfold dirty_count. lia.
Qed.

(** [clean_table] on a well-formed table with all the required columns:
    the outcome is decided by the number of clean rows, and a returned
    table holds exactly the clean rows, in every column. *)
Lemma clean_table_complete (df : DataFrame float) :
  wf df -> complete df ->
  exists df1,
    wf df1 /\ nrows df1 = nrows df /\ columns df1 = columns df /\
    (forall c, In c REQUIRED_COLUMNS ->
       exists s, getitem df c = Some s /\
                 getitem df1 c = Some (to_numeric PrimFloat.nan float_of_Z s)) /\
    (forall c, ~ In c REQUIRED_COLUMNS -> getitem df1 c = getitem df c) /\
    (forall i c s1, i < nrows df -> dirty df i = false ->
       In c REQUIRED_COLUMNS -> getitem df1 c = Some s1 ->
       nth i (notna s1) false = true) /\
    clean_table df =
      let mask := map (fun i => negb (dirty df i)) (seq 0 (nrows df)) in
      if (nrows df - dirty_count df =? 0)%nat then inl no_valid_rows
      else inr (mkFrame (nrows df - dirty_count df)
                  (map (fun c => (fst c, select_series mask (snd c)))
                     (cols df1))).
Proof.
  intros Hwf Hc.
  destruct (clean_core Hwf Hc) as [df1 [E [Em [Hwf1 [Hn [Hcol [Hreq [Hoth Hcl]]]]]]]].
  exists df1. repeat (split; [assumption|]).
  unfold clean_table. rewrite (complete_no_missing Hc). rewrite E.
  unfold dropna. rewrite Em. cbv zeta. unfold empty. cbn [nrows cols].
  rewrite count_clean, length_map.
  assert (Hne : (length (cols df1) =? 0)%nat = false).
  { apply Nat.eqb_neq. intros H0.
    assert (Hd : In "dij" (columns df1)).
    { rewrite Hcol. apply Hc. unfold REQUIRED_COLUMNS. simpl. tauto. }
    unfold columns in Hd. destruct (cols df1); [destruct Hd | discriminate]. }
  rewrite Hne, orb_false_r. reflexivity.
Qed.

(** *** The functions on a workbook *)

Lemma read_restraint_table_run (path : string) (fs : FS) (book : Workbook) :
  fs path = Some book ->
  read_restraint_table path fs = (clean_table (table book TABLE_SKIPROWS), []).
Proof.
  intros H. unfold read_restraint_table, bind, read_excel_table, lift.
  rewrite H. now destruct (clean_table _).
Qed.

Lemma read_lengths_run (path : string) (fs : FS) (book : Workbook) :
  fs path = Some book ->
  read_lengths path fs =
  (match _cell (raw book) "Ls" with
   | inl e => inl e
   | inr Ls =>
       match _cell (raw book) "Lx" with
       | inl e => inl e
       | inr Lx =>
           match _cell (raw book) "Ly" with
           | inl e => inl e
           | inr Ly =>
               match _cell (raw book) "Lz" with
               | inl e => inl e
               | inr Lz => inr (Ls, Lx, Ly, Lz)
               end
           end
       end
   end, []).
Proof.
  intros H. unfold read_lengths, bind, read_excel_raw, lift, ret.
  rewrite H.
  destruct (_cell (raw book) "Ls"); auto.
  destruct (_cell (raw book) "Lx"); auto.
  destruct (_cell (raw book) "Ly"); auto.
  destruct (_cell (raw book) "Lz"); auto.
Qed.

Lemma read_lengths_cells
    (path : string) (fs : FS) (book : Workbook) (a b c d : float) :
  fs path = Some book ->
  iat (raw book) 1 1 = inr (ONum a) ->
  iat (raw book) 2 1 = inr (ONum b) ->
  iat (raw book) 3 1 = inr (ONum c) ->
  iat (raw book) 4 1 = inr (ONum d) ->
  read_lengths path fs = (inr (a, b, c, d), []).
Proof.
  intros Hf H1 H2 H3 H4. rewrite (read_lengths_run _ _ Hf).
  unfold _cell. cbn [dict_get LENGTH_CELLS String.eqb Ascii.eqb Bool.eqb].
  rewrite H1, H2, H3, H4. reflexivity.
Qed.

(** C6.  When the workbook's grid has numbers at the 0-indexed cells (1,1),
    (2,1), (3,1) and (4,1), [read_lengths] returns exactly these four
    floats, as (Ls, Lx, Ly, Lz) in this order, with no effect; and so it
    does on any other workbook whose grid has the same four cells, whatever
    its other cells and its size are. *)
Theorem read_lengths_fixed_cells
    (path : string) (fs fs' : FS) (book book' : Workbook) (a b c d : float) :
  fs path = Some book ->
  fs' path = Some book' ->
  iat (raw book) 1 1 = inr (ONum a) ->
  iat (raw book) 2 1 = inr (ONum b) ->
  iat (raw book) 3 1 = inr (ONum c) ->
  iat (raw book) 4 1 = inr (ONum d) ->
  (forall r, In r [1; 2; 3; 4] -> iat (raw book') r 1 = iat (raw book) r 1) ->
  read_lengths path fs = (inr (a, b, c, d), []) /\
  read_lengths path fs' = read_lengths path fs.
Proof.
  intros Hf Hf' Ha Hb Hc Hd Hsame.
  rewrite (read_lengths_cells _ _ Hf Ha Hb Hc Hd). split; [reflexivity|].
  apply (read_lengths_cells _ _ Hf'); rewrite Hsame; auto; simpl; tauto.
Qed.

Lemma read_lengths_fixed_cells_witness :
  read_lengths "restraints.xlsx" Examples.p6_fs =
    (inr (1%float, 1%float, 1%float, 1%float), []) /\
  read_lengths "restraints.xlsx"
    (Examples.one_file "restraints.xlsx"
       {| raw := Examples.p6_sheet_other; table := fun _ => Examples.p6_table |}) =
  read_lengths "restraints.xlsx" Examples.p6_fs.
Proof.
  apply (@read_lengths_fixed_cells "restraints.xlsx" _ _ Examples.p6_book
           {| raw := Examples.p6_sheet_other;
              table := fun _ => Examples.p6_table |});
    try reflexivity.
  intros r [<-|[<-|[<-|[<-|[]]]]]; reflexivity.
Defined.

Lemma NoDup_REQUIRED_COLUMNS : NoDup REQUIRED_COLUMNS.
Proof.
  unfold REQUIRED_COLUMNS.
  repeat (constructor; [simpl; intuition discriminate|]). constructor.
Qed.

(** C3.  When the table misses a non-empty set S of the required columns,
    [read_restraint_table] fails with the error whose message is
    "Missing required columns: " followed by the Python list of the missing
    names; this list has exactly the names of S, each once.  Nothing is
    assumed of the table's cells: the check comes before any coercion and
    any dropping, and no effect takes place. *)
Theorem read_restraint_table_missing_columns
    (path : string) (fs : FS) (book : Workbook) (S : list string) :
  fs path = Some book ->
  S <> [] ->
  (forall c, In c S <->
             In c REQUIRED_COLUMNS /\
             ~ In c (columns (table book TABLE_SKIPROWS))) ->
  exists missing,
    read_restraint_table path fs =
      (inl (ValueError ("Missing required columns: " ++ py_repr_list missing)),
       []) /\
    (forall c, In c missing <-> In c S) /\
    NoDup missing.
Proof.
  intros Hf Hne HS. rewrite (read_restraint_table_run _ _ Hf).
  set (df := table book TABLE_SKIPROWS) in *.
  set (missing := filter (fun c => negb (has_column df c)) REQUIRED_COLUMNS).
  assert (Hm : forall c, In c missing <-> In c S).
  { intros c. unfold missing. rewrite filter_In, HS, negb_true_iff.
    rewrite <- has_column_In. destruct (has_column df c); intuition congruence. }
  exists missing. split; [|split; auto].
  - unfold clean_table. fold missing.
    destruct missing as [|m ms] eqn:E; [|reflexivity].
    destruct S as [|c S']; [contradiction|].
    destruct (proj2 (Hm c)). now left.
  - apply NoDup_filter, NoDup_REQUIRED_COLUMNS.
Qed.

Lemma read_restraint_table_missing_columns_witness :
  exists missing,
    read_restraint_table "t.xlsx"
      (Examples.one_file "t.xlsx"
         (Examples.book_of Examples.table_without_weights)) =
      (inl (ValueError ("Missing required columns: " ++ py_repr_list missing)),
       []) /\
    (forall c, In c missing <-> In c ["dij"; "wi"]) /\
    NoDup missing.
Proof.
  apply (@read_restraint_table_missing_columns "t.xlsx" _
           (Examples.book_of Examples.table_without_weights)).
  - reflexivity.
  - discriminate.
  - intros c. simpl. split.
    + intros [<-|[<-|[]]]; (split; [tauto | intuition discriminate]).
    + intros [[<-|[<-|[<-|[<-|[<-|[<-|[]]]]]]] Hn]; tauto.
Defined.

Lemma filter_all_length {A : Type} (p : A -> bool) (l : list A) :
  length (filter p l) = length l <-> forall a, In a l -> p a = true.
Proof.
  induction l as [|a l IH]; simpl.
  - split; [intros _ a [] | auto].
  - pose proof (filter_length_le p l) as Hle.
    destruct (p a) eqn:E; simpl.
    + split.
      * intros [= H] b [<-|Hb]; auto. now apply IH.
      * intros H. f_equal. apply IH. auto.
    + split; [lia|]. intros H. rewrite H in E by auto. discriminate.
Qed.

(** The table a successful cleaning returns. *)
Lemma clean_table_rows (df : DataFrame float) :
  wf df -> complete df -> dirty_count df < nrows df ->
  exists df',
    clean_table df = inr df' /\
    nrows df' = nrows df - dirty_count df /\
    wf df' /\
    columns df' = columns df /\
    forall c, In c REQUIRED_COLUMNS ->
      exists s,
        getitem df' c = Some s /\
        series_len s = nrows df - dirty_count df /\
        all_numbers s.
Proof.
  intros Hwf Hc Hlt.
  destruct (clean_table_complete Hwf Hc)
    as [df1 [Hwf1 [Hn [Hcol [Hreq [_ [Hcl E]]]]]]].
  cbv zeta in E.
  destruct (nrows df - dirty_count df =? 0)%nat eqn:E0;
    [apply Nat.eqb_eq in E0; lia|].
  set (mask := map (fun i => negb (dirty df i)) (seq 0 (nrows df))) in *.
  assert (Hmask : length mask = nrows df).
  { unfold mask. now rewrite length_map, length_seq. }
  eexists. split; [exact E|]. split; [reflexivity|].
  split; [|split].
  - unfold wf. cbn [nrows cols]. rewrite Forall_map. cbn [snd].
    eapply Forall_impl; [|exact Hwf1]. intros [k s] Hs. cbn [snd] in *.
    rewrite <- count_clean. fold mask.
    destruct s; cbn [select_series series_len] in *;
      apply length_select; congruence.
  - unfold columns. cbn [cols]. rewrite map_map. cbn [fst]. exact Hcol.
  - intros c Hin. destruct (Hreq c Hin) as [s [Hs Hs1]].
    unfold getitem. cbn [cols]. rewrite lookup_map_snd.
    fold (getitem df1 c). rewrite Hs1.
    assert (Hlen : series_len (to_numeric PrimFloat.nan float_of_Z s) = nrows df).
    { rewrite series_len_to_numeric. eapply lookup_series_len; eauto. }
    pose proof (to_numeric_numeric PrimFloat.nan float_of_Z s) as Hnum.
    eexists. split; [reflexivity|].
    destruct (to_numeric PrimFloat.nan float_of_Z s) as [xs|zs|bs|os];
      cbn [series_len select_series all_numbers] in *; try contradiction;
      try (split; [rewrite length_select by congruence; apply count_clean
                  | exact I]).
    split.
    + rewrite length_select by congruence. apply count_clean.
    + apply Forall_forall. intros x Hx.
      destruct (In_select mask xs x PrimFloat.nan Hx) as [i [Hi [Hm Hnth]]].
      rewrite Hlen in Hi.
      unfold mask in Hm.
      rewrite (nth_map_lt (fun i => negb (dirty df i)) (seq 0 (nrows df)) 0) in Hm
        by (now rewrite length_seq).
      rewrite seq_nth, Nat.add_0_l in Hm by auto.
      apply negb_true_iff in Hm.
      pose proof (Hcl i c _ Hi Hm Hin Hs1) as Hn1.
      cbn [notna] in Hn1.
      rewrite (nth_map_lt _ xs PrimFloat.nan) in Hn1 by congruence.
      rewrite Hnth in Hn1. now apply negb_true_iff in Hn1.
Qed.

(** A table the reader returns has a row, and its required columns are
    columns of numbers without a missing value. *)
Lemma cleaned_shape (df df' : DataFrame float) :
  wf df -> complete df -> clean_table df = inr df' ->
  1 <= nrows df' /\
  wf df' /\
  forall c, In c REQUIRED_COLUMNS ->
    exists s,
      getitem df' c = Some s /\ series_len s = nrows df' /\ all_numbers s.
Proof.
  intros Hwf Hc E.
  assert (Hlt : dirty_count df < nrows df).
  { destruct (clean_table_complete Hwf Hc)
      as [df1 [_ [_ [_ [_ [_ [_ E1]]]]]]].
    cbv zeta in E1. rewrite E in E1.
    destruct (nrows df - dirty_count df =? 0)%nat eqn:E0; [discriminate|].
    apply Nat.eqb_neq in E0. lia. }
  destruct (clean_table_rows Hwf Hc Hlt) as [df2 [E2 [Hn [Hwf2 [_ Hreq]]]]].
  rewrite E in E2. injection E2 as <-.
  split; [lia|]. split; [exact Hwf2|].
  intros c Hin. destruct (Hreq c Hin) as [s [Hs [Hl Ha]]].
  exists s. repeat split; auto. congruence.
Qed.

(** C4 (amended).  On a table with all six required columns, of whose n
    rows exactly k are dirty and at least one is clean,
    [read_restraint_table] returns a table with exactly n - k rows: every
    column of the input is still there and has n - k entries (rows are
    dropped, never columns), and each required column is a column of
    numbers none of which is missing: a float64 column without NaN, an int64
    column or a bool column.  (Nothing is said of infinite values.) *)
Theorem read_restraint_table_drops_dirty_rows
    (path : string) (fs : FS) (book : Workbook) :
  fs path = Some book ->
  wf (table book TABLE_SKIPROWS) ->
  complete (table book TABLE_SKIPROWS) ->
  dirty_count (table book TABLE_SKIPROWS) < nrows (table book TABLE_SKIPROWS) ->
  exists df',
    read_restraint_table path fs = (inr df', []) /\
    nrows df' = nrows (table book TABLE_SKIPROWS)
                - dirty_count (table book TABLE_SKIPROWS) /\
    wf df' /\
    columns df' = columns (table book TABLE_SKIPROWS) /\
    forall c, In c REQUIRED_COLUMNS ->
      exists s,
        getitem df' c = Some s /\
        series_len s = nrows (table book TABLE_SKIPROWS)
                       - dirty_count (table book TABLE_SKIPROWS) /\
        all_numbers s.
Proof.
  intros Hf Hwf Hc Hlt. rewrite (read_restraint_table_run _ _ Hf).
  destruct (clean_table_rows Hwf Hc Hlt) as [df' [E H]].
  exists df'. rewrite E. auto.
Qed.

Lemma read_restraint_table_drops_dirty_rows_witness :
  exists df',
    read_restraint_table "t.xlsx"
      (Examples.one_file "t.xlsx" (Examples.book_of Examples.dirty_table)) =
      (inr df', []) /\
    nrows df' = 3 - dirty_count Examples.dirty_table /\
    wf df' /\
    columns df' = columns Examples.dirty_table /\
    forall c, In c REQUIRED_COLUMNS ->
      exists s,
        getitem df' c = Some s /\
        series_len s = 3 - dirty_count Examples.dirty_table /\
        all_numbers s.
Proof.
  apply (@read_restraint_table_drops_dirty_rows "t.xlsx" _
           (Examples.book_of Examples.dirty_table)).
  - reflexivity.
  - repeat constructor.
  - intros c. simpl. tauto.
  - vm_compute. lia.
Defined.

(** C4, as stated, fails: a row whose [dij] is infinite is not dirty (the
    value is a number and is present), it is kept, and the returned row has
    a required field that is not finite. *)
Lemma read_restraint_table_keeps_infinity :
  dirty_count Examples.inf_table = 0 /\
  exists df',
    read_restraint_table "t.xlsx"
      (Examples.one_file "t.xlsx" (Examples.book_of Examples.inf_table)) =
      (inr df', []) /\
    nrows df' = 2 /\
    getitem df' "dij" = Some (FloatSeries [PrimFloat.infinity; 2%float]) /\
    PrimFloat.is_finite PrimFloat.infinity = false.
Proof.
  split; [reflexivity|].
  eexists. split; [reflexivity|]. repeat split.
Qed.

(** C5.  On a table with all six required columns, [read_restraint_table]
    fails with the "No valid rows" error if and only if no row is left
    after the dirty rows are dropped, that is if and only if every row is
    dirty; when a row is left, it returns a table that is not empty. *)
Theorem read_restraint_table_empty_iff
    (path : string) (fs : FS) (book : Workbook) :
  fs path = Some book ->
  wf (table book TABLE_SKIPROWS) ->
  complete (table book TABLE_SKIPROWS) ->
  (read_restraint_table path fs = (inl no_valid_rows, []) <->
   nrows (table book TABLE_SKIPROWS)
   - dirty_count (table book TABLE_SKIPROWS) = 0) /\
  (nrows (table book TABLE_SKIPROWS)
   - dirty_count (table book TABLE_SKIPROWS) = 0 <->
   forall i, i < nrows (table book TABLE_SKIPROWS) ->
             dirty (table book TABLE_SKIPROWS) i = true) /\
  (0 < nrows (table book TABLE_SKIPROWS)
       - dirty_count (table book TABLE_SKIPROWS) ->
   exists df',
     read_restraint_table path fs = (inr df', []) /\
     0 < nrows df' /\ empty df' = false).
Proof.
  intros Hf Hwf Hc. rewrite (read_restraint_table_run _ _ Hf).
  set (df := table book TABLE_SKIPROWS) in *.
  pose proof (dirty_count_le df) as Hle.
  destruct (clean_table_complete Hwf Hc)
    as [df1 [Hwf1 [Hn [Hcol [Hreq [_ [_ E]]]]]]].
  cbv zeta in E. rewrite E. clear E.
  split; [|split].
  - destruct (nrows df - dirty_count df =? 0)%nat eqn:E0.
    + apply Nat.eqb_eq in E0. tauto.
    + apply Nat.eqb_neq in E0. split; [discriminate | contradiction].
  - unfold dirty_count in *.
    pose proof (filter_all_length (dirty df) (seq 0 (nrows df))) as Hall.
    rewrite length_seq in Hall. split.
    + intros H0 i Hi. apply (proj1 Hall); [lia|]. apply in_seq. lia.
    + intros Hd. assert (length (filter (dirty df) (seq 0 (nrows df))) = nrows df).
      { apply Hall. intros i Hi. apply Hd. apply in_seq in Hi. lia. }
      lia.
  - intros Hpos.
    destruct (nrows df - dirty_count df =? 0)%nat eqn:E0;
      [apply Nat.eqb_eq in E0; lia|].
    eexists. split; [reflexivity|]. unfold empty. cbn [nrows cols].
    split; [exact Hpos|].
    rewrite E0, length_map. simpl. apply Nat.eqb_neq. intros H0.
    assert (Hd : In "dij" (columns df1)).
    { rewrite Hcol. apply Hc. unfold REQUIRED_COLUMNS. simpl. tauto. }
    unfold columns in Hd. destruct (cols df1); [destruct Hd | discriminate].
Qed.

Lemma read_restraint_table_empty_iff_witness :
  (read_restraint_table "t.xlsx"
     (Examples.one_file "t.xlsx" (Examples.book_of Examples.all_dirty_table)) =
   (inl no_valid_rows, []) <->
   1 - dirty_count Examples.all_dirty_table = 0) /\
  (1 - dirty_count Examples.all_dirty_table = 0 <->
   forall i, i < 1 -> dirty Examples.all_dirty_table i = true) /\
  (0 < 1 - dirty_count Examples.all_dirty_table ->
   exists df',
     read_restraint_table "t.xlsx"
       (Examples.one_file "t.xlsx" (Examples.book_of Examples.all_dirty_table)) =
     (inr df', []) /\
     0 < nrows df' /\ empty df' = false).
Proof.
  apply (@read_restraint_table_empty_iff "t.xlsx" _
           (Examples.book_of Examples.all_dirty_table)).
  - reflexivity.
  - repeat constructor.
  - intros c. simpl. tauto.
Defined.

End ReaderFacts.

(** ** The score evaluator *)

Module EvaluatorFacts.

Import FrameFacts Evaluator.

Local Open Scope string_scope.

Section Generic.
Context {F : Type} {M : Missing F} {N : Number F}.

Lemma column_setitem_ne (df : DataFrame F) (c c' : string) (s : Series F) :
  c <> c' -> column (setitem df c s) c' = column df c'.
Proof.
  intros H. unfold column, getitem, setitem. cbn [cols].
  now rewrite lookup_assign_ne.
Qed.

Lemma column_setitem_eq (df : DataFrame F) (c : string) (xs : list F) :
  column (setitem df c (FloatSeries xs)) c = inr xs.
Proof.
  unfold column, getitem, setitem. cbn [cols]. now rewrite lookup_assign_eq.
Qed.

Lemma column_mean_setitem_ne (df : DataFrame F) (c c' : string)
    (s : Series F) :
  c <> c' -> column_mean (setitem df c s) c' = column_mean df c'.
Proof.
  intros H. unfold column_mean, getitem, setitem. cbn [cols].
  now rewrite lookup_assign_ne.
Qed.

(** A float64 column and its mean. *)
Lemma column_float (df : DataFrame F) (c : string) (xs : list F) :
  getitem df c = Some (FloatSeries xs) ->
  column df c = inr xs /\ column_mean df c = inr (mean xs).
Proof. intros H. unfold column, column_mean. now rewrite H. Qed.

(** The annotated table and the score, from the six columns and the four
    means. *)
Lemma evaluate_columns (Ls Lx Ly Lz : F) (df : DataFrame F)
    (x y z sl wi dij : list F) (mu_x mu_y mu_z mu_s : F) :
  column df "prot x coor" = inr x ->
  column df "prot y coor" = inr y ->
  column df "prot z coor" = inr z ->
  column df "sl" = inr sl ->
  column df "wi" = inr wi ->
  column df "dij" = inr dij ->
  column_mean df "prot x coor" = inr mu_x ->
  column_mean df "prot y coor" = inr mu_y ->
  column_mean df "prot z coor" = inr mu_z ->
  column_mean df "sl" = inr mu_s ->
  let n := len df in
  let fdij := np_exp (neg (sub_scalar dij D0)) in
  let omega_ij := mul wi fdij in
  let sigma_P :=
    div_scalar
      (add (add (square (div_scalar (sub_scalar x mu_x) Lx))
                (square (div_scalar (sub_scalar y mu_y) Ly)))
           (square (div_scalar (sub_scalar z mu_z) Lz)))
      (of_int n) in
  let sigma_L :=
    div_scalar (square (div_scalar (sub_scalar sl mu_s) Ls)) (of_int n) in
  evaluate Ls Lx Ly Lz df =
  inr (setitem
         (setitem
            (setitem (setitem df "fdij" (FloatSeries fdij))
               "omega_ij" (FloatSeries omega_ij))
            "sigma_P" (FloatSeries sigma_P))
         "sigma_L" (FloatSeries sigma_L),
       fmul (sum (mul omega_ij (add sigma_P sigma_L))) (of_int n)).
Proof.
  intros Hx Hy Hz Hsl Hwi Hdij Hmx Hmy Hmz Hms. cbv zeta. unfold evaluate.
  repeat (first
    [ rewrite column_setitem_eq
    | rewrite column_setitem_ne by discriminate
    | rewrite column_mean_setitem_ne by discriminate
    | rewrite Hx | rewrite Hy | rewrite Hz
    | rewrite Hsl | rewrite Hwi | rewrite Hdij
    | rewrite Hmx | rewrite Hmy | rewrite Hmz | rewrite Hms ]; cbn [rbind]).
  reflexivity.
Qed.

(** The score as a function of the row count and of the six required
    columns, failures included. *)
Lemma score_only_evaluate (Ls Lx Ly Lz : F) (df : DataFrame F) :
  score_only (evaluate Ls Lx Ly Lz df) =
  (dij <-- column df "dij" ;;
   wi <-- column df "wi" ;;
   mu_x <-- column_mean df "prot x coor" ;;
   mu_y <-- column_mean df "prot y coor" ;;
   mu_z <-- column_mean df "prot z coor" ;;
   x <-- column df "prot x coor" ;;
   y <-- column df "prot y coor" ;;
   z <-- column df "prot z coor" ;;
   mu_s <-- column_mean df "sl" ;;
   sl <-- column df "sl" ;;
   let n := len df in
   let omega_ij := mul wi (np_exp (neg (sub_scalar dij D0))) in
   let sigma_P :=
     div_scalar
       (add (add (square (div_scalar (sub_scalar x mu_x) Lx))
                 (square (div_scalar (sub_scalar y mu_y) Ly)))
            (square (div_scalar (sub_scalar z mu_z) Lz)))
       (of_int n) in
   let sigma_L :=
     div_scalar (square (div_scalar (sub_scalar sl mu_s) Ls)) (of_int n) in
   inr (fmul (sum (mul omega_ij (add sigma_P sigma_L))) (of_int n))).
Proof.
  unfold evaluate.
  destruct (column df "dij") as [e|dij]; cbn [rbind]; [reflexivity|].
  rewrite column_setitem_ne by discriminate.
  destruct (column df "wi") as [e|wi]; cbn [rbind]; [reflexivity|].
  rewrite column_setitem_eq. cbn [rbind].
  repeat rewrite column_mean_setitem_ne by discriminate.
  destruct (column_mean df "prot x coor") as [e|mu_x]; cbn [rbind];
    [reflexivity|].
  destruct (column_mean df "prot y coor") as [e|mu_y]; cbn [rbind];
    [reflexivity|].
  destruct (column_mean df "prot z coor") as [e|mu_z]; cbn [rbind];
    [reflexivity|].
  repeat rewrite column_setitem_ne by discriminate.
  destruct (column df "prot x coor") as [e|x]; cbn [rbind]; [reflexivity|].
  destruct (column df "prot y coor") as [e|y]; cbn [rbind]; [reflexivity|].
  destruct (column df "prot z coor") as [e|z]; cbn [rbind]; [reflexivity|].
  repeat rewrite column_mean_setitem_ne by discriminate.
  destruct (column_mean df "sl") as [e|mu_s]; cbn [rbind]; [reflexivity|].
  repeat rewrite column_setitem_ne by discriminate.
  destruct (column df "sl") as [e|sl]; cbn [rbind]; [reflexivity|].
  repeat first
    [ rewrite column_setitem_eq
    | rewrite column_setitem_ne by discriminate
    | progress cbn [rbind] ].
  reflexivity.
Qed.

(** C9.  In any arithmetic: two well-formed tables that have the same six
    required columns get the same score from the same lengths (or fail with
    the same error), whatever other columns each has. *)
Theorem score_ignores_other_columns
    (Ls Lx Ly Lz : F) (df1 df2 : DataFrame F) :
  wf df1 -> wf df2 ->
  (forall c, In c Reader.REQUIRED_COLUMNS -> getitem df1 c = getitem df2 c) ->
  score_only (evaluate Ls Lx Ly Lz df1) = score_only (evaluate Ls Lx Ly Lz df2).
Proof.
  intros Hwf1 Hwf2 Hsame.
  assert (Hcol : forall c, In c Reader.REQUIRED_COLUMNS ->
                           column df1 c = column df2 c).
  { intros c Hc. unfold column. now rewrite (Hsame c Hc). }
  assert (Hmean : forall c, In c Reader.REQUIRED_COLUMNS ->
                            column_mean df1 c = column_mean df2 c).
  { intros c Hc. unfold column_mean. now rewrite (Hsame c Hc). }
  rewrite !score_only_evaluate.
  rewrite !Hcol by (unfold Reader.REQUIRED_COLUMNS; simpl; tauto).
  rewrite !Hmean by (unfold Reader.REQUIRED_COLUMNS; simpl; tauto).
  destruct (column df2 "dij") as [e|dij] eqn:Edij; [reflexivity|].
  assert (Hlen : len df1 = len df2).
  { unfold column in Edij.
    destruct (getitem df2 "dij") as [s|] eqn:Es; [|discriminate].
    pose proof (lookup_series_len "dij" Hwf2 Es) as H2.
    rewrite <- Hsame in Es by (unfold Reader.REQUIRED_COLUMNS; simpl; tauto).
    pose proof (lookup_series_len "dij" Hwf1 Es) as H1.
    unfold len. congruence. }
  now rewrite Hlen.
Qed.

End Generic.

Lemma score_ignores_other_columns_witness :
  score_only (evaluate 1%R 1%R 1%R 1%R
                (Spec.frame_of [Spec.record_A; Spec.record_B])) =
  score_only (evaluate 1%R 1%R 1%R 1%R
                (Spec.frame_with_extras [Spec.record_A; Spec.record_B])).
Proof.
  apply score_ignores_other_columns.
  - repeat constructor.
  - repeat constructor.
  - intros c [<-|[<-|[<-|[<-|[<-|[<-|[]]]]]]]; reflexivity.
Defined.

(** *** Exact arithmetic *)

Section Exact.

Local Open Scope R_scope.

Lemma fold_left_Rplus (l : list R) (a : R) :
  fold_left Rplus l a = a + fold_right Rplus 0 l.
Proof.
  revert a. induction l as [|x l IH]; intros a; simpl.
  - ring.
  - rewrite IH. ring.
Qed.

Lemma sum_map (f : Spec.Restraint -> R) (rs : list Spec.Restraint) :
  sum (map f rs) = Spec.big_sum f rs.
Proof.
  unfold sum, fillna0. cbn [isnan real_missing np_sum of_int real_number].
  rewrite map_id, fold_left_Rplus. rewrite Rplus_0_l.
  induction rs as [|r rs IH]; simpl; auto. now rewrite IH.
Qed.

Lemma count_all (xs : list R) : count xs = length xs.
Proof.
  unfold count. cbn [isnan real_missing].
  induction xs; simpl; auto.
Qed.

Lemma mean_map (f : Spec.Restraint -> R) (rs : list Spec.Restraint) :
  mean (map f rs) = Spec.avg f rs.
Proof.
  unfold mean, Spec.avg. rewrite count_all, length_map.
  change (mean_sum (fillna0 (map f rs))) with (sum (map f rs)).
  now rewrite sum_map.
Qed.

Lemma zip_with_map {A B C D : Type} (g : A -> B -> C) (f1 : D -> A) (f2 : D -> B)
    (l : list D) :
  zip_with g (map f1 l) (map f2 l) = map (fun d => g (f1 d) (f2 d)) l.
Proof. induction l; simpl; auto. now rewrite IHl. Qed.

Lemma big_sum_ext (f g : Spec.Restraint -> R) (rs : list Spec.Restraint) :
  (forall r, In r rs -> f r = g r) -> Spec.big_sum f rs = Spec.big_sum g rs.
Proof.
  induction rs as [|r rs IH]; simpl; intros H; auto.
  rewrite H by auto. rewrite IH by auto. reflexivity.
Qed.

Lemma holds_columns (df : DataFrame R) (rs : list Spec.Restraint) :
  Spec.holds df rs ->
  len df = length rs /\
  column df "prot x coor" = inr (map Spec.px rs) /\
  column df "prot y coor" = inr (map Spec.py rs) /\
  column df "prot z coor" = inr (map Spec.pz rs) /\
  column df "sl" = inr (map Spec.sl rs) /\
  column df "wi" = inr (map Spec.wi rs) /\
  column df "dij" = inr (map Spec.dij rs) /\
  column_mean df "prot x coor" = inr (mean (map Spec.px rs)) /\
  column_mean df "prot y coor" = inr (mean (map Spec.py rs)) /\
  column_mean df "prot z coor" = inr (mean (map Spec.pz rs)) /\
  column_mean df "sl" = inr (mean (map Spec.sl rs)).
Proof.
  intros [Hn [Hx [Hy [Hz [Hs [Hw Hd]]]]]]. unfold column, column_mean.
  rewrite Hx, Hy, Hz, Hs, Hw, Hd. unfold len. repeat split; auto.
Qed.

(** The columns the script computes, as maps over the records. *)
Lemma fdij_map (rs : list Spec.Restraint) :
  np_exp (neg (sub_scalar (map Spec.dij rs) D0)) = map Spec.fdij_of rs.
Proof.
  unfold np_exp, neg, sub_scalar. rewrite !map_map. reflexivity.
Qed.

Lemma omega_map (rs : list Spec.Restraint) :
  mul (map Spec.wi rs) (map Spec.fdij_of rs) = map Spec.omega_of rs.
Proof. unfold mul. rewrite zip_with_map. reflexivity. Qed.

Lemma sigma_P_map (Lx Ly Lz : R) (rs : list Spec.Restraint) :
  div_scalar
    (add (add (square (div_scalar (sub_scalar (map Spec.px rs)
                                     (mean (map Spec.px rs))) Lx))
              (square (div_scalar (sub_scalar (map Spec.py rs)
                                     (mean (map Spec.py rs))) Ly)))
         (square (div_scalar (sub_scalar (map Spec.pz rs)
                                (mean (map Spec.pz rs))) Lz)))
    (of_int (length rs)) =
  map (Spec.sigma_P_of Lx Ly Lz rs) rs.
Proof.
  unfold div_scalar, add, square, sub_scalar.
  rewrite !mean_map, !map_map, !zip_with_map, map_map.
  apply map_ext. intros r.
  unfold Spec.sigma_P_of, Spec.dev_P.
  cbn [fdiv fmul fadd fsub of_int real_number]. unfold Rdiv. ring.
Qed.

Lemma sigma_L_map (Ls : R) (rs : list Spec.Restraint) :
  div_scalar (square (div_scalar (sub_scalar (map Spec.sl rs)
                                    (mean (map Spec.sl rs))) Ls))
    (of_int (length rs)) =
  map (Spec.sigma_L_of Ls rs) rs.
Proof.
  unfold div_scalar, square, sub_scalar.
  rewrite !mean_map, !map_map.
  apply map_ext. intros r.
  unfold Spec.sigma_L_of, Spec.dev_L.
  cbn [fdiv fmul fadd fsub of_int real_number]. unfold Rdiv. ring.
Qed.

(** The script's columns and score are the specification's, record by
    record. *)
Lemma evaluate_exact (Ls Lx Ly Lz : R) (df : DataFrame R)
    (rs : list Spec.Restraint) :
  Spec.holds df rs ->
  exists df',
    evaluate Ls Lx Ly Lz df = inr (df', Spec.score_of Ls Lx Ly Lz rs) /\
    column df' "fdij" = inr (map Spec.fdij_of rs) /\
    column df' "omega_ij" = inr (map Spec.omega_of rs) /\
    column df' "sigma_P" = inr (map (Spec.sigma_P_of Lx Ly Lz rs) rs) /\
    column df' "sigma_L" = inr (map (Spec.sigma_L_of Ls rs) rs).
Proof.
  intros H.
  destruct (holds_columns H)
    as [Hn [Hx [Hy [Hz [Hs [Hw [Hd [Hmx [Hmy [Hmz Hms]]]]]]]]]].
  rewrite (evaluate_columns Ls Lx Ly Lz df Hx Hy Hz Hs Hw Hd Hmx Hmy Hmz Hms).
  rewrite Hn, fdij_map, omega_map, sigma_P_map, sigma_L_map.
  eexists. split; [|repeat split].
  - f_equal. f_equal. unfold Spec.score_of, mul, add.
    rewrite !zip_with_map, sum_map.
    cbn [fmul fadd of_int real_number]. apply Rmult_comm.
  - repeat rewrite column_setitem_ne by discriminate.
    apply column_setitem_eq.
  - repeat rewrite column_setitem_ne by discriminate.
    apply column_setitem_eq.
  - repeat rewrite column_setitem_ne by discriminate.
    apply column_setitem_eq.
  - apply column_setitem_eq.
Qed.

Lemma holds_frame_of (rs : list Spec.Restraint) :
  Spec.holds (Spec.frame_of rs) rs.
Proof. repeat split. Qed.

(** The worked example in exact arithmetic. *)
Lemma p6_score_exact :
  Spec.score_of 1 1 1 1 [Spec.record_A; Spec.record_B] = 4.
Proof.
  unfold Spec.score_of, Spec.sigma_P_of, Spec.sigma_L_of, Spec.dev_P,
    Spec.dev_L, Spec.omega_of, Spec.fdij_of, Spec.avg.
  cbn [Spec.big_sum length Spec.px Spec.py Spec.pz Spec.sl Spec.wi Spec.dij
       Spec.record_A Spec.record_B].
  replace (- (18 / 10 - 18 / 10)) with 0 by lra.
  rewrite exp_0. simpl INR. field.
Qed.

End Exact.

(** *** Binary64 *)

Section Binary64.
Variable lib : Routines.

Lemma fillna0_no_nan (xs : list float) :
  Forall (fun x => PrimFloat.is_nan x = false) xs ->
  fillna0 (N := float_number lib) xs = xs.
Proof.
  unfold fillna0. induction 1 as [|x xs Hx _ IH]; cbn [map]; auto.
  rewrite IH. cbn [isnan float_missing]. now rewrite Hx.
Qed.

Lemma count_no_nan (xs : list float) :
  Forall (fun x => PrimFloat.is_nan x = false) xs -> count xs = length xs.
Proof.
  unfold count. induction 1 as [|x xs Hx _ IH]; cbn [filter]; auto.
  replace (negb (isnan x)) with true
    by (cbn [isnan float_missing]; now rewrite Hx).
  cbn [length]. now rewrite IH.
Qed.

(** A column of numbers as an operand, and its mean. *)
Lemma numbers_as_float (s : Series float) :
  Cleaning.all_numbers s ->
  exists xs m,
    as_float (N := float_number lib) s = Some xs /\
    length xs = series_len s /\
    Forall (fun x => PrimFloat.is_nan x = false) xs /\
    series_mean (N := float_number lib) s = Some m /\
    Spec64.arithmetic_mean lib s m.
Proof.
  destruct s as [xs|zs|bs|os]; simpl; intros H; try contradiction.
  - exists xs. eexists. repeat split; auto.
    unfold mean. rewrite fillna0_no_nan, count_no_nan by exact H. reflexivity.
  - exists (map float_of_Z zs). eexists. repeat split.
    + apply length_map.
    + apply Forall_map, Forall_forall. intros z _.
      apply FloatFacts.float_of_Z_not_nan.
  - exists (map (of_bool (N := float_number lib)) bs). eexists. repeat split.
    + apply length_map.
    + apply Forall_map, Forall_forall. intros b _.
      apply FloatFacts.float_of_Z_not_nan.
Qed.

Lemma numbers_column (df : DataFrame float) (c : string) (s : Series float) :
  getitem df c = Some s -> Cleaning.all_numbers s ->
  exists xs m,
    column (N := float_number lib) df c = inr xs /\
    length xs = series_len s /\
    Forall (fun x => PrimFloat.is_nan x = false) xs /\
    column_mean (N := float_number lib) df c = inr m /\
    Spec64.mean_of lib df c m.
Proof.
  intros Hs Ha.
  destruct (numbers_as_float s Ha) as [xs [m [E1 [Hl [Hn [E2 Hm]]]]]].
  exists xs, m. unfold column, column_mean, Spec64.mean_of.
  rewrite Hs, E1, E2. repeat split; auto. exists s. auto.
Qed.

(** The records of six columns. *)
Lemma records_of_fields (n : nat) : forall x y z s w d : list float,
  length x = n -> length y = n -> length z = n ->
  length s = n -> length w = n -> length d = n ->
  length (Spec64.records_of x y z s w d) = n /\
  map Spec64.px (Spec64.records_of x y z s w d) = x /\
  map Spec64.py (Spec64.records_of x y z s w d) = y /\
  map Spec64.pz (Spec64.records_of x y z s w d) = z /\
  map Spec64.sl (Spec64.records_of x y z s w d) = s /\
  map Spec64.wi (Spec64.records_of x y z s w d) = w /\
  map Spec64.dij (Spec64.records_of x y z s w d) = d.
Proof.
  induction n as [|n IH];
    intros [|x0 x] [|y0 y] [|z0 z] [|s0 s] [|w0 w] [|d0 d];
    simpl; try discriminate; intros Ex Ey Ez Es Ew Ed; repeat split; auto.
  all: destruct (IH x y z s w d) as [I1 [I2 [I3 [I4 [I5 [I6 I7]]]]]];
    try lia; congruence.
Qed.

(** The columns the script computes, as maps over the records. *)
Lemma zip_with_map64 {A B C D : Type} (g : A -> B -> C) (f1 : D -> A)
    (f2 : D -> B) (l : list D) :
  zip_with g (map f1 l) (map f2 l) = map (fun d => g (f1 d) (f2 d)) l.
Proof. induction l; simpl; auto. now rewrite IHl. Qed.

Lemma evaluate_records (Ls Lx Ly Lz : float) (df : DataFrame float)
    (rs : list Spec64.Restraint) (mu : Spec64.Means) :
  nrows df = length rs ->
  column (N := float_number lib) df "prot x coor" = inr (map Spec64.px rs) ->
  column (N := float_number lib) df "prot y coor" = inr (map Spec64.py rs) ->
  column (N := float_number lib) df "prot z coor" = inr (map Spec64.pz rs) ->
  column (N := float_number lib) df "sl" = inr (map Spec64.sl rs) ->
  column (N := float_number lib) df "wi" = inr (map Spec64.wi rs) ->
  column (N := float_number lib) df "dij" = inr (map Spec64.dij rs) ->
  column_mean (N := float_number lib) df "prot x coor" = inr (Spec64.mu_x mu) ->
  column_mean (N := float_number lib) df "prot y coor" = inr (Spec64.mu_y mu) ->
  column_mean (N := float_number lib) df "prot z coor" = inr (Spec64.mu_z mu) ->
  column_mean (N := float_number lib) df "sl" = inr (Spec64.mu_s mu) ->
  exists df',
    evaluate (N := float_number lib) Ls Lx Ly Lz df =
      inr (df', Spec64.score_skipna lib Ls Lx Ly Lz mu rs) /\
    getitem df' "fdij" = Some (FloatSeries (map (Spec64.fdij_of lib) rs)) /\
    getitem df' "omega_ij" = Some (FloatSeries (map (Spec64.omega_of lib) rs)) /\
    getitem df' "sigma_P" =
      Some (FloatSeries
              (map (Spec64.sigma_P_of Lx Ly Lz (length rs) mu) rs)) /\
    getitem df' "sigma_L" =
      Some (FloatSeries (map (Spec64.sigma_L_of Ls (length rs) mu) rs)).
Proof.
  intros Hn Hx Hy Hz Hs Hw Hd Hmx Hmy Hmz Hms.
  rewrite (@evaluate_columns float _ (float_number lib) Ls Lx Ly Lz df
             _ _ _ _ _ _ _ _ _ _ Hx Hy Hz Hs Hw Hd Hmx Hmy Hmz Hms).
  cbv zeta. unfold len. rewrite Hn.
  assert (Ef : np_exp (N := float_number lib)
                 (neg (N := float_number lib)
                    (sub_scalar (N := float_number lib) (map Spec64.dij rs)
                       (D0 (N := float_number lib)))) =
               map (Spec64.fdij_of lib) rs).
  { unfold np_exp, neg, sub_scalar. rewrite !map_map. reflexivity. }
  rewrite Ef.
  assert (Eo : mul (N := float_number lib) (map Spec64.wi rs)
                 (map (Spec64.fdij_of lib) rs) =
               map (Spec64.omega_of lib) rs).
  { unfold mul. rewrite zip_with_map64. reflexivity. }
  rewrite Eo.
  assert (EP : div_scalar (N := float_number lib)
                 (add (N := float_number lib)
                    (add (N := float_number lib)
                       (square (N := float_number lib)
                          (div_scalar (N := float_number lib)
                             (sub_scalar (N := float_number lib)
                                (map Spec64.px rs) (Spec64.mu_x mu)) Lx))
                       (square (N := float_number lib)
                          (div_scalar (N := float_number lib)
                             (sub_scalar (N := float_number lib)
                                (map Spec64.py rs) (Spec64.mu_y mu)) Ly)))
                    (square (N := float_number lib)
                       (div_scalar (N := float_number lib)
                          (sub_scalar (N := float_number lib)
                             (map Spec64.pz rs) (Spec64.mu_z mu)) Lz)))
                 (of_int (Number := float_number lib) (length rs)) =
               map (Spec64.sigma_P_of Lx Ly Lz (length rs) mu) rs).
  { unfold div_scalar, add, square, sub_scalar.
    rewrite !map_map, !zip_with_map64, map_map. reflexivity. }
  rewrite EP.
  assert (EL : div_scalar (N := float_number lib)
                 (square (N := float_number lib)
                    (div_scalar (N := float_number lib)
                       (sub_scalar (N := float_number lib)
                          (map Spec64.sl rs) (Spec64.mu_s mu)) Ls))
                 (of_int (Number := float_number lib) (length rs)) =
               map (Spec64.sigma_L_of Ls (length rs) mu) rs).
  { unfold div_scalar, square, sub_scalar. rewrite !map_map. reflexivity. }
  rewrite EL.
  eexists. split; [|repeat split].
  - f_equal. f_equal. unfold Spec64.score_skipna, mul, add, sum, fillna0.
    rewrite !zip_with_map64, map_map.
    cbn [fmul float_number of_int np_sum]. rewrite FloatFacts.mul_comm.
    reflexivity.
  - unfold getitem, setitem. cbn [cols].
    repeat rewrite lookup_assign_ne by discriminate.
    apply lookup_assign_eq.
  - unfold getitem, setitem. cbn [cols].
    repeat rewrite lookup_assign_ne by discriminate.
    apply lookup_assign_eq.
  - unfold getitem, setitem. cbn [cols].
    repeat rewrite lookup_assign_ne by discriminate.
    apply lookup_assign_eq.
  - unfold getitem, setitem. cbn [cols]. apply lookup_assign_eq.
Qed.


Lemma score_skipna_no_nan (Ls Lx Ly Lz : float) (mu : Spec64.Means)
    (rs : list Spec64.Restraint) :
  Forall (fun r => PrimFloat.is_nan
                     (Spec64.term_of lib Ls Lx Ly Lz (length rs) mu r) = false)
    rs ->
  Spec64.score_skipna lib Ls Lx Ly Lz mu rs =
  Spec64.score_of lib Ls Lx Ly Lz mu rs.
Proof.
  intros H. unfold Spec64.score_skipna, Spec64.score_of. do 2 f_equal.
  apply map_ext_in. intros r Hr. unfold Spec64.skipna.
  rewrite Forall_forall in H. now rewrite (H r Hr).
Qed.

(** The evaluator on a table whose required columns are columns of numbers
    without a missing value. *)
Lemma evaluate_numbers (Ls Lx Ly Lz : float) (df : DataFrame float) :
  (forall c, In c Reader.REQUIRED_COLUMNS ->
     exists s, getitem df c = Some s /\ series_len s = nrows df /\
               Cleaning.all_numbers s) ->
  exists rs mu df',
    length rs = nrows df /\
    Spec64.holds lib df rs mu /\
    Forall Spec64.numbers rs /\
    evaluate (N := float_number lib) Ls Lx Ly Lz df =
      inr (df', Spec64.score_skipna lib Ls Lx Ly Lz mu rs) /\
    getitem df' "fdij" = Some (FloatSeries (map (Spec64.fdij_of lib) rs)) /\
    getitem df' "omega_ij" = Some (FloatSeries (map (Spec64.omega_of lib) rs)) /\
    getitem df' "sigma_P" =
      Some (FloatSeries
              (map (Spec64.sigma_P_of Lx Ly Lz (length rs) mu) rs)) /\
    getitem df' "sigma_L" =
      Some (FloatSeries (map (Spec64.sigma_L_of Ls (length rs) mu) rs)).
Proof.
  intros Hreq.
  assert (Hc : forall c, In c Reader.REQUIRED_COLUMNS ->
            exists xs m,
              column (N := float_number lib) df c = inr xs /\
              length xs = nrows df /\
              Forall (fun x => PrimFloat.is_nan x = false) xs /\
              column_mean (N := float_number lib) df c = inr m /\
              Spec64.mean_of lib df c m).
  { intros c Hin. destruct (Hreq c Hin) as [s [Hs [Hl Ha]]].
    destruct (numbers_column df c Hs Ha) as [xs [m [E1 [Hlen [Hn [E2 Hm]]]]]].
    exists xs, m. repeat split; auto. congruence. }
  destruct (Hc "prot x coor") as [x [mx [Hx [Kx [Nx [Mx Ax]]]]]]; [simpl; tauto|].
  destruct (Hc "prot y coor") as [y [my [Hy [Ky [Ny [My Ay]]]]]]; [simpl; tauto|].
  destruct (Hc "prot z coor") as [z [mz [Hz [Kz [Nz [Mz Az]]]]]]; [simpl; tauto|].
  destruct (Hc "sl") as [s [ms [Hs [Ks [Ns [Ms As]]]]]]; [simpl; tauto|].
  destruct (Hc "wi") as [w [mw [Hw [Kw [Nw _]]]]]; [simpl; tauto|].
  destruct (Hc "dij") as [d [md [Hd [Kd [Nd _]]]]]; [simpl; tauto|].
  destruct (records_of_fields x y z s w d Kx Ky Kz Ks Kw Kd)
    as [Hlen [Px [Py [Pz [Ps [Pw Pd]]]]]].
  set (rs := Spec64.records_of x y z s w d) in *.
  set (mu := {| Spec64.mu_x := mx; Spec64.mu_y := my;
                Spec64.mu_z := mz; Spec64.mu_s := ms |}).
  rewrite <- Px in Hx, Nx. rewrite <- Py in Hy, Ny. rewrite <- Pz in Hz, Nz.
  rewrite <- Ps in Hs, Ns. rewrite <- Pw in Hw, Nw. rewrite <- Pd in Hd, Nd.
  destruct (@evaluate_records Ls Lx Ly Lz df rs mu (eq_sym Hlen)
              Hx Hy Hz Hs Hw Hd Mx My Mz Ms) as [df' [E H4]].
  exists rs, mu, df'. split; [exact Hlen|].
  split; [|split; [|split; [exact E|exact H4]]].
  - unfold Spec64.holds. repeat split; auto.
  - rewrite Forall_map in Nx, Ny, Nz, Ns, Nw, Nd.
    rewrite Forall_forall in *. intros r Hr. unfold Spec64.numbers.
    repeat split; auto.
Qed.

(** The worked example in binary64 (the script computes
    [exp(-(1.8 - 1.8))], and adds two numbers at a time). *)
Lemma p6_score_binary64 :
  sums_honest lib ->
  libm_exp lib PrimFloat.neg_zero = 1%float ->
  evaluate (N := float_number lib) 1%float 1%float 1%float 1%float
    Examples.p6_table = inr (Examples.p6_annotated, 4%float).
Proof.
  intros [Hs [_ Hi]] He.
  assert (E1 : nanmean_sum_int lib [0%float; 2%float] = 2%float).
  { apply (@FloatFacts.adds_up_two 0%float 2%float); try apply Hi;
      repeat split; reflexivity. }
  assert (E2 : nanmean_sum_int lib [0%float; 0%float] = 0%float).
  { apply (@FloatFacts.adds_up_two 0%float 0%float); try apply Hi;
      repeat split; reflexivity. }
  assert (E3 : numpy_sum lib [1%float; 1%float] = 2%float).
  { apply (@FloatFacts.adds_up_two 1%float 1%float); try apply Hs;
      repeat split; reflexivity. }
  vm_compute in E1, E2, E3, He |- *. rewrite E1, E2, He. vm_compute.
  rewrite E3. reflexivity.
Qed.

End Binary64.

(** C1 (amended).  In binary64, whatever the library routines are: on
    every table the reader returns, with any lengths, the evaluator
    succeeds.  The table holds n >= 1 records, whose fields are numbers,
    and the arithmetic means of their coordinates and of [sl]; the columns [fdij], [omega_ij], [sigma_P]
    and [sigma_L] of the result hold, record by record, the values of the
    specification's formulas; and the score is n times the sum of the
    summands [omega_i * (sigma_P_i + sigma_L_i)] in which a summand that is
    NaN counts as zero.  When no summand is NaN this is the score of the
    specification, [n * sum_i (omega_i * (sigma_P_i + sigma_L_i))].  On the
    worked example, with all lengths 1, the score is exactly 4.0 for every
    exponential that maps -0 to 1 and all sums that add their entries. *)
Theorem evaluate_formula :
  (forall (lib : Routines) (Ls Lx Ly Lz : float) (df0 df : DataFrame float),
     wf df0 -> Cleaning.complete df0 -> Reader.clean_table df0 = inr df ->
     exists rs mu df',
       1 <= length rs /\
       length rs = nrows df /\
       Spec64.holds lib df rs mu /\
       Forall Spec64.numbers rs /\
       evaluate (N := float_number lib) Ls Lx Ly Lz df =
         inr (df', Spec64.score_skipna lib Ls Lx Ly Lz mu rs) /\
       getitem df' "fdij" = Some (FloatSeries (map (Spec64.fdij_of lib) rs)) /\
       getitem df' "omega_ij" =
         Some (FloatSeries (map (Spec64.omega_of lib) rs)) /\
       getitem df' "sigma_P" =
         Some (FloatSeries
                 (map (Spec64.sigma_P_of Lx Ly Lz (length rs) mu) rs)) /\
       getitem df' "sigma_L" =
         Some (FloatSeries (map (Spec64.sigma_L_of Ls (length rs) mu) rs)) /\
       (Forall (fun r => PrimFloat.is_nan
                           (Spec64.term_of lib Ls Lx Ly Lz (length rs) mu r)
                         = false) rs ->
        Spec64.score_skipna lib Ls Lx Ly Lz mu rs =
        Spec64.score_of lib Ls Lx Ly Lz mu rs)) /\
  (forall lib : Routines,
     sums_honest lib ->
     libm_exp lib PrimFloat.neg_zero = 1%float ->
     evaluate (N := float_number lib) 1%float 1%float 1%float 1%float
       Examples.p6_table = inr (Examples.p6_annotated, 4%float)).
Proof.
  split; [|exact p6_score_binary64].
  intros lib Ls Lx Ly Lz df0 df Hwf Hc E.
  destruct (ReaderFacts.cleaned_shape Hwf Hc E) as [Hn [_ Hreq]].
  destruct (evaluate_numbers lib Ls Lx Ly Lz df Hreq)
    as [rs [mu [df' [Hlen [Hh [Hnum [Ev [H1 [H2 [H3 H4]]]]]]]]]].
  exists rs, mu, df'. repeat (split; [auto; lia|]).
  apply score_skipna_no_nan.
Qed.

Lemma evaluate_formula_witness :
  (exists rs mu df',
     1 <= length rs /\
     length rs = nrows Examples.p6_table /\
     Spec64.holds Examples.routines Examples.p6_table rs mu /\
     Forall Spec64.numbers rs /\
     evaluate (N := float_number Examples.routines)
       1%float 1%float 1%float 1%float Examples.p6_table =
       inr (df', Spec64.score_skipna Examples.routines
                   1%float 1%float 1%float 1%float mu rs) /\
     getitem df' "fdij" =
       Some (FloatSeries (map (Spec64.fdij_of Examples.routines) rs)) /\
     getitem df' "omega_ij" =
       Some (FloatSeries (map (Spec64.omega_of Examples.routines) rs)) /\
     getitem df' "sigma_P" =
       Some (FloatSeries
               (map (Spec64.sigma_P_of 1%float 1%float 1%float
                       (length rs) mu) rs)) /\
     getitem df' "sigma_L" =
       Some (FloatSeries (map (Spec64.sigma_L_of 1%float (length rs) mu) rs)) /\
     (Forall (fun r => PrimFloat.is_nan
                         (Spec64.term_of Examples.routines
                            1%float 1%float 1%float 1%float (length rs) mu r)
                       = false) rs ->
      Spec64.score_skipna Examples.routines
        1%float 1%float 1%float 1%float mu rs =
      Spec64.score_of Examples.routines
        1%float 1%float 1%float 1%float mu rs)) /\
  evaluate (N := float_number Examples.routines)
    1%float 1%float 1%float 1%float Examples.p6_table =
    inr (Examples.p6_annotated, 4%float).
Proof.
  split.
  - apply (proj1 evaluate_formula Examples.routines
             1%float 1%float 1%float 1%float Examples.p6_table).
    + repeat constructor.
    + intros c. simpl. tauto.
    + reflexivity.
  - apply (proj2 evaluate_formula Examples.routines).
    + exact FloatFacts.routines_honest.
    + reflexivity.
Defined.

(** C1, as stated, fails: a summand that is NaN is left out of the sum.
    On the worked example with [Ly = 0] every summand is NaN (the deviation
    of [y] is 0, and 0/0 is NaN): the script returns 0.0, which is not
    [n * sum_i (omega_i * (sigma_P_i + sigma_L_i))], a NaN.  With all
    lengths 1, on two records far apart of which the first has the weight
    zero, the first summand is NaN (zero times infinity): the script
    returns +inf, and the formula is NaN again. *)
Lemma score_skips_nan_summands :
  (exists df',
     Reader.clean_table Examples.p6_table = inr Examples.p6_table /\
     Spec64.holds Examples.routines Examples.p6_table
       Examples.p6_records Examples.p6_means /\
     evaluate (N := float_number Examples.routines)
       1%float 1%float 0%float 1%float Examples.p6_table =
       inr (df', 0%float) /\
     PrimFloat.is_nan
       (Spec64.score_of Examples.routines 1%float 1%float 0%float 1%float
          Examples.p6_means Examples.p6_records) = true) /\
  (exists df',
     Reader.clean_table Examples.overflow_table =
       inr Examples.overflow_table /\
     Spec64.holds Examples.routines Examples.overflow_table
       Examples.overflow_records Examples.overflow_means /\
     evaluate (N := float_number Examples.routines)
       1%float 1%float 1%float 1%float Examples.overflow_table =
       inr (df', PrimFloat.infinity) /\
     PrimFloat.is_nan
       (Spec64.score_of Examples.routines 1%float 1%float 1%float 1%float
          Examples.overflow_means Examples.overflow_records) = true).
Proof.
  split; eexists; (split; [reflexivity|]); (split; [|split]);
    try (vm_compute; reflexivity);
    unfold Spec64.holds, Spec64.mean_of;
    repeat split; try reflexivity; eexists; (split; [reflexivity|]);
      vm_compute; reflexivity.
Qed.

(** *** The division by n and the multiplication by n *)

Lemma big_sum_scal (k : R) (f : Spec.Restraint -> R) (rs : list Spec.Restraint) :
  (k * Spec.big_sum f rs = Spec.big_sum (fun r => k * f r) rs)%R.
Proof.
  induction rs as [|r rs IH]; simpl.
  - ring.
  - rewrite <- IH. ring.
Qed.

(** In exact arithmetic the final multiplication by [n] cancels the
    division by [n] of every record's terms, weights or not. *)
Lemma score_of_simplified (Ls Lx Ly Lz : R) (rs : list Spec.Restraint) :
  Spec.score_of Ls Lx Ly Lz rs = Spec.simplified_score Ls Lx Ly Lz rs.
Proof.
  unfold Spec.score_of, Spec.simplified_score.
  destruct rs as [|r0 rs0] eqn:E; [simpl; ring|]. rewrite <- E.
  assert (Hn : INR (length rs) <> 0%R).
  { apply not_0_INR. subst rs. discriminate. }
  rewrite big_sum_scal. apply big_sum_ext. intros r _.
  unfold Spec.sigma_P_of, Spec.sigma_L_of. field. exact Hn.
Qed.

(** C2 (amended).  On every table that holds the records [rs] (so for
    every n >= 1 too), in exact arithmetic, the evaluator's score equals
    the simplified formula in which the division by n and the final
    multiplication by n are both removed. *)
Theorem score_is_simplified_formula
    (Ls Lx Ly Lz : R) (df : DataFrame R) (rs : list Spec.Restraint) :
  Spec.holds df rs ->
  exists df',
    evaluate Ls Lx Ly Lz df = inr (df', Spec.simplified_score Ls Lx Ly Lz rs).
Proof.
  intros H. destruct (evaluate_exact Ls Lx Ly Lz H) as [df' [E _]].
  exists df'. now rewrite <- score_of_simplified.
Qed.

Lemma score_is_simplified_formula_witness :
  exists df',
    evaluate 1%R 1%R 1%R 1%R (Spec.frame_of [Spec.record_A; Spec.record_B]) =
    inr (df', Spec.simplified_score 1 1 1 1 [Spec.record_A; Spec.record_B]).
Proof.
  apply score_is_simplified_formula. repeat split.
Defined.

(** C2, as stated, fails: no table of n >= 1 records has a score that
    differs, in exact arithmetic, from the simplified formula. *)
Lemma no_table_separates_the_formulas :
  ~ exists (Ls Lx Ly Lz : R) (df df' : DataFrame R)
           (rs : list Spec.Restraint) (score : R),
      1 <= length rs /\
      Spec.holds df rs /\
      evaluate Ls Lx Ly Lz df = inr (df', score) /\
      score <> Spec.simplified_score Ls Lx Ly Lz rs.
Proof.
  intros [Ls [Lx [Ly [Lz [df [df' [rs [score [_ [H [E Hne]]]]]]]]]]].
  destruct (evaluate_exact Ls Lx Ly Lz H) as [df'' [E' _]].
  rewrite E in E'. injection E' as _ Hs.
  rewrite score_of_simplified in Hs. contradiction.
Qed.

(** *** Sign of the score *)

Section Sign64.
Variable lib : Routines.

Import Sign.

Lemma skipna_nonneg (t : float) : not_negative t -> nonneg (Spec64.skipna t).
Proof.
  intros H. unfold Spec64.skipna.
  destruct (PrimFloat.is_nan t) eqn:E; [reflexivity|].
  now apply FloatFacts.not_negative_not_nan.
Qed.

Lemma sigma_not_negative (Ls Lx Ly Lz : float) (n : nat) (mu : Spec64.Means)
    (r : Spec64.Restraint) :
  not_negative (Spec64.sigma_P_of Lx Ly Lz n mu r) /\
  not_negative (Spec64.sigma_L_of Ls n mu r).
Proof.
  unfold Spec64.sigma_P_of, Spec64.sigma_L_of, Spec64.sq, Spec64.of_nat.
  split.
  - apply FloatFacts.div_not_negative; [|apply FloatFacts.of_uint63_plus].
    repeat apply FloatFacts.add_not_negative;
      apply FloatFacts.square_not_negative.
  - apply FloatFacts.div_not_negative; [|apply FloatFacts.of_uint63_plus].
    apply FloatFacts.square_not_negative.
Qed.

Lemma score_sign (Ls Lx Ly Lz : float) (mu : Spec64.Means)
    (rs : list Spec64.Restraint) :
  (forall x, not_negative (libm_exp lib x)) ->
  summation (numpy_sum lib) ->
  1 <= length rs -> (Z.of_nat (length rs) < 2 ^ 53)%Z ->
  Forall (fun r => not_negative (Spec64.wi r)) rs ->
  nonneg (Spec64.score_skipna lib Ls Lx Ly Lz mu rs).
Proof.
  intros Hexp Hsum H1 H2 Hw. unfold Spec64.score_skipna.
  rewrite FloatFacts.mul_comm. apply FloatFacts.mul_nonneg_pos.
  - apply (FloatFacts.adds_up_nonneg (Hsum _)).
    apply Forall_map. eapply Forall_impl; [|exact Hw].
    intros r Hr. apply skipna_nonneg. unfold Spec64.term_of.
    apply FloatFacts.mul_not_negative.
    + unfold Spec64.omega_of. apply FloatFacts.mul_not_negative; [exact Hr|].
      apply Hexp.
    + apply FloatFacts.add_not_negative;
        [ apply (proj1 (sigma_not_negative Ls Lx Ly Lz (length rs) mu r))
        | apply (proj2 (sigma_not_negative Ls Lx Ly Lz (length rs) mu r)) ].
  - apply FloatFacts.of_nat_pos_finite; assumption.
Qed.

End Sign64.

(** C10 (amended).  In binary64, whatever the lengths are (zero and NaN
    included): on every table the reader returns in which no weight is
    negative, with fewer than 2^53 rows, for every exponential that is never
    negative and every sum that adds its entries, the evaluator returns a
    score that is a number (not NaN) and is not negative.  Every [fdij],
    [sigma_P] and [sigma_L] is zero, positive or NaN, never negative; and
    every [fdij] is a number when the exponential of a number is one.
    (An [fdij] can be zero: the exponential underflows.) *)
Theorem score_nonnegative
    (lib : Routines) (Ls Lx Ly Lz : float) (df0 df : DataFrame float) :
  wf df0 -> Cleaning.complete df0 -> Reader.clean_table df0 = inr df ->
  (Z.of_nat (nrows df) < 2 ^ 53)%Z ->
  (forall x, Sign.not_negative (libm_exp lib x)) ->
  summation (numpy_sum lib) ->
  (forall wi, column (N := float_number lib) df "wi" = inr wi ->
              Forall Sign.nonneg wi) ->
  exists df' score fdij sigma_P sigma_L,
    evaluate (N := float_number lib) Ls Lx Ly Lz df = inr (df', score) /\
    Sign.nonneg score /\
    getitem df' "fdij" = Some (FloatSeries fdij) /\
    Forall Sign.not_negative fdij /\
    ((forall x, PrimFloat.is_nan x = false ->
                PrimFloat.is_nan (libm_exp lib x) = false) ->
     Forall Sign.nonneg fdij) /\
    getitem df' "sigma_P" = Some (FloatSeries sigma_P) /\
    Forall Sign.not_negative sigma_P /\
    getitem df' "sigma_L" = Some (FloatSeries sigma_L) /\
    Forall Sign.not_negative sigma_L.
Proof.
  intros Hwf Hc E Hn Hexp Hsum Hw.
  destruct (ReaderFacts.cleaned_shape Hwf Hc E) as [H1 [_ Hreq]].
  destruct (evaluate_numbers lib Ls Lx Ly Lz df Hreq)
    as [rs [mu [df' [Hlen [Hh [Hnum [Ev [E1 [_ [E3 E4]]]]]]]]]].
  destruct Hh as [_ [_ [_ [_ [_ [Hwi _]]]]]].
  specialize (Hw _ Hwi).
  exists df', (Spec64.score_skipna lib Ls Lx Ly Lz mu rs),
    (map (Spec64.fdij_of lib) rs),
    (map (Spec64.sigma_P_of Lx Ly Lz (length rs) mu) rs),
    (map (Spec64.sigma_L_of Ls (length rs) mu) rs).
  split; [exact Ev|]. split; [|repeat split; auto].
  - apply score_sign; auto; try lia.
    rewrite Forall_map in Hw. eapply Forall_impl; [|exact Hw].
    intros r. apply FloatFacts.nonneg_not_negative.
  - apply Forall_map, Forall_forall. intros r _. apply Hexp.
  - intros Hnum'. apply Forall_map. eapply Forall_impl; [|exact Hnum].
    intros r Hr. apply FloatFacts.not_negative_not_nan; [apply Hexp|].
    apply Hnum', FloatFacts.exponent_not_nan. apply Hr.
  - apply Forall_map, Forall_forall. intros r _.
    apply (sigma_not_negative Ls Lx Ly Lz (length rs) mu r).
  - apply Forall_map, Forall_forall. intros r _.
    apply (sigma_not_negative Ls Lx Ly Lz (length rs) mu r).
Qed.

Lemma score_nonnegative_witness :
  exists df' score fdij sigma_P sigma_L,
    evaluate (N := float_number Examples.routines)
      0%float 1%float PrimFloat.nan 1%float Examples.p6_table =
      inr (df', score) /\
    Sign.nonneg score /\
    getitem df' "fdij" = Some (FloatSeries fdij) /\
    Forall Sign.not_negative fdij /\
    ((forall x, PrimFloat.is_nan x = false ->
                PrimFloat.is_nan (Examples.exp_poly x) = false) ->
     Forall Sign.nonneg fdij) /\
    getitem df' "sigma_P" = Some (FloatSeries sigma_P) /\
    Forall Sign.not_negative sigma_P /\
    getitem df' "sigma_L" = Some (FloatSeries sigma_L) /\
    Forall Sign.not_negative sigma_L.
Proof.
  apply (@score_nonnegative Examples.routines
           0%float 1%float PrimFloat.nan 1%float
           Examples.p6_table Examples.p6_table).
  - repeat constructor.
  - intros c. simpl. tauto.
  - reflexivity.
  - reflexivity.
  - exact FloatFacts.exp_poly_not_negative.
  - exact FloatFacts.left_sum_summation.
  - intros wi [= <-]. repeat constructor.
Defined.

(** *** Underflow of the exponential *)

Section Underflow.

Local Open Scope R_scope.

Lemma pow_three_halves_le_exp (n : nat) : (3 / 2) ^ n <= exp (INR n / 2).
Proof.
  induction n as [|n IH].
  - simpl. replace (0 / 2) with 0 by lra. rewrite exp_0. lra.
  - rewrite S_INR. replace ((INR n + 1) / 2) with (INR n / 2 + 1 / 2) by lra.
    rewrite exp_plus. cbn [pow]. rewrite Rmult_comm.
    apply Rmult_le_compat.
    + apply pow_le. lra.
    + lra.
    + exact IH.
    + pose proof (exp_ineq1 (1 / 2) ltac:(lra)). lra.
Qed.

Lemma two_pow_lt_exp_998 : 2 ^ 1075 < exp 998.
Proof.
  apply Rlt_le_trans with ((3 / 2) ^ 1996).
  - apply Rmult_lt_reg_r with (2 ^ 1996).
    + apply pow_lt. lra.
    + rewrite <- Rpow_mult_distr, <- pow_add.
      replace (3 / 2 * 2) with 3 by lra.
      rewrite !pow_IZR. apply IZR_lt. reflexivity.
  - replace 998 with (INR 1996 / 2).
    + apply pow_three_halves_le_exp.
    + rewrite INR_IZR_INZ. simpl Z.of_nat. lra.
Qed.

(** Below -998 the exponential is less than half the least positive
    binary64, [2^-1074]. *)
Lemma exp_below_half_least (x : R) : x <= -998 -> exp x < / 2 ^ 1075.
Proof.
  intros H.
  apply Rle_lt_trans with (exp (-998)).
  - destruct H as [H | ->]; [left; now apply exp_increasing | right; reflexivity].
  - change (exp (-998)) with (exp (Ropp 998)).
    rewrite exp_Ropp. apply Rinv_lt_contravar.
    + apply Rmult_lt_0_compat; [apply pow_lt; lra | apply exp_pos].
    + exact two_pow_lt_exp_998.
Qed.

End Underflow.

(** C10, as stated, fails in binary64: an [fdij] is not always strictly
    positive.  For a record at the distance 1000 the script computes the
    exponential of a number below -998; the exponential of such a number is
    less than [2^-1075], half the least positive binary64, so its binary64
    value is zero, and [fdij] is 0.0, which is not greater than zero. *)
Lemma fdij_underflows :
  (exists df' score,
     Reader.clean_table Examples.far_table = inr Examples.far_table /\
     evaluate (N := float_number Examples.routines_underflow)
       1%float 1%float 1%float 1%float Examples.far_table =
       inr (df', score) /\
     getitem df' "fdij" = Some (FloatSeries [0%float]) /\
     (0 <? 0)%float = false) /\
  (- (1000 - 0x1.ccccccccccccdp+0) <? -998)%float = true /\
  (forall x : R, (x <= -998)%R -> (exp x < / 2 ^ 1075)%R).
Proof.
  split; [|split; [reflexivity | exact exp_below_half_least]].
  eexists. eexists. split; [reflexivity|].
  split; [vm_compute; reflexivity|]. split; reflexivity.
Qed.

End EvaluatorFacts.

(** ** The output path *)

Module PathsFacts.

Import Paths.

Local Open Scope string_scope.

Lemma append_assoc (s t u : string) : (s ++ t) ++ u = s ++ t ++ u.
Proof. induction s; simpl; auto. now rewrite IHs. Qed.

Lemma length_append (s t : string) :
  String.length (s ++ t) = String.length s + String.length t.
Proof. induction s; simpl; auto. Qed.

Lemma contains_append (c : ascii) (s t : string) :
  contains c (s ++ t) = contains c s || contains c t.
Proof.
  induction s; simpl; auto. rewrite IHs. now rewrite orb_assoc.
Qed.

Lemma rfind_absent (c : ascii) (s : string) :
  contains c s = false -> rfind c s = (-1)%Z.
Proof.
  induction s as [|a s IH]; simpl; auto.
  intros H. apply orb_false_iff in H. destruct H as [Ha Hs].
  rewrite (IH Hs), Ha. reflexivity.
Qed.

Lemma rfind_append_absent (c : ascii) (s t : string) :
  contains c t = false -> rfind c (s ++ t) = rfind c s.
Proof.
  intros H. induction s as [|a s IH]; simpl.
  - now apply rfind_absent.
  - now rewrite IH.
Qed.

Lemma rfind_last (c : ascii) (s t : string) :
  contains c t = false ->
  rfind c (s ++ String c t) = Z.of_nat (String.length s).
Proof.
  intros H. induction s as [|a s IH]; simpl String.length; simpl append.
  - simpl. rewrite (rfind_absent _ _ H). simpl. now rewrite Ascii.eqb_refl.
  - cbn [rfind]. rewrite IH.
    destruct (0 <=? Z.of_nat (String.length s))%Z eqn:E; [lia|].
    apply Z.leb_gt in E. lia.
Qed.

Lemma substring_prefix (s t : string) :
  substring 0 (String.length s) (s ++ t) = s.
Proof.
  induction s as [|a s IH]; simpl.
  - now destruct t.
  - now rewrite IH.
Qed.

Lemma substring_at (s : string) (a : ascii) (t : string) :
  substring (String.length s) 1 (s ++ String a t) = String a "".
Proof.
  induction s as [|b s IH]; simpl; auto. now destruct t.
Qed.

Lemma has_name_char_found (c : ascii) (name : string) :
  forall dir rest,
    only c name = false ->
    has_name_char c (dir ++ name ++ rest)
      (String.length dir) (String.length name) = true.
Proof.
  induction name as [|a name IH]; intros dir rest H; simpl in H;
    [discriminate|].
  cbn [String.length has_name_char]. cbn [append].
  rewrite substring_at.
  destruct (Ascii.eqb a c) eqn:E.
  - apply Ascii.eqb_eq in E. subst a. rewrite String.eqb_refl. cbn [negb].
    simpl in H.
    replace (dir ++ String c (name ++ rest))
      with ((dir ++ String c "") ++ name ++ rest)
      by (now rewrite append_assoc).
    replace (S (String.length dir)) with (String.length (dir ++ String c ""))
      by (rewrite length_append; simpl; lia).
    now apply IH.
  - assert (Hne : String.eqb (String a "") (String c "") = false).
    { apply String.eqb_neq. intros [= ->]. now rewrite Ascii.eqb_refl in E. }
    now rewrite Hne.
Qed.

Lemma substring_suffix (s t : string) :
  substring (String.length s) (String.length t) (s ++ t) = t.
Proof.
  induction s as [|a s IH]; simpl; auto.
  induction t as [|b t IHt]; simpl; auto. now rewrite IHt.
Qed.

Lemma rfind_directory (dir : string) :
  dir = "" \/ (exists d, dir = d ++ "/") ->
  (rfind "/" dir + 1 = Z.of_nat (String.length dir))%Z.
Proof.
  intros [-> | [d ->]]; [reflexivity|].
  rewrite rfind_last by reflexivity. rewrite length_append. simpl. lia.
Qed.

(** [splitext] on a path with an extension: a directory part (empty, or
    ending with the separator), a file name that is not made of dots only,
    a dot, and an extension without dot or separator. *)
Lemma splitext_extension (dir name ext : string) :
  dir = "" \/ (exists d, dir = d ++ "/") ->
  contains "/" name = false ->
  only "." name = false ->
  contains "." ext = false ->
  contains "/" ext = false ->
  splitext (dir ++ name ++ "." ++ ext) = (dir ++ name, "." ++ ext).
Proof.
  intros Hdir Hname Hdots Hext Hext'.
  unfold splitext, _splitext.
  assert (Hsep : rfind "/" (dir ++ name ++ "." ++ ext) = rfind "/" dir).
  { apply rfind_append_absent. rewrite contains_append, Hname. simpl.
    exact Hext'. }
  assert (Hdot : rfind "." (dir ++ name ++ "." ++ ext)
                 = Z.of_nat (String.length (dir ++ name))).
  { rewrite <- append_assoc. apply rfind_last. exact Hext. }
  rewrite Hsep, Hdot. rewrite (rfind_directory Hdir).
  rewrite length_append.
  assert (Hlt : (rfind "/" dir <? Z.of_nat (String.length dir + String.length name))%Z
                = true).
  { apply Z.ltb_lt. pose proof (rfind_directory Hdir). lia. }
  rewrite Hlt. cbn [andb].
  replace (Z.to_nat (Z.of_nat (String.length dir))) with (String.length dir) by lia.
  replace (Z.to_nat (Z.of_nat (String.length dir + String.length name)
                     - Z.of_nat (String.length dir)))
    with (String.length name) by lia.
  rewrite (has_name_char_found "." name dir ("." ++ ext) Hdots).
  rewrite Nat2Z.id.
  f_equal.
  - rewrite <- append_assoc, <- length_append. apply substring_prefix.
  - rewrite <- append_assoc, <- length_append.
    replace (String.length ((dir ++ name) ++ "." ++ ext) - String.length (dir ++ name))
      with (String.length ("." ++ ext))
      by (rewrite (length_append (dir ++ name)); lia).
    apply substring_suffix.
Qed.

(** C8 (amended).  For an input path made of a directory part, a file name
    (not made of dots only), a dot and an extension, the output path is the
    path without its extension followed by "_output.xlsx": the extension of
    the output is always "xlsx", whatever the input's is. *)
Theorem output_path_replaces_extension (dir name ext : string) :
  dir = "" \/ (exists d, dir = d ++ "/") ->
  contains "/" name = false ->
  only "." name = false ->
  contains "." ext = false ->
  contains "/" ext = false ->
  output_path (dir ++ name ++ "." ++ ext) = dir ++ name ++ "_output.xlsx".
Proof.
  intros Hdir Hname Hdots Hext Hext'. unfold output_path.
  rewrite (@splitext_extension dir name ext Hdir Hname Hdots Hext Hext').
  cbn [fst]. apply append_assoc.
Qed.

Lemma output_path_replaces_extension_witness :
  output_path ("results/" ++ "data.v2" ++ "." ++ "xlsm") =
  "results/" ++ "data.v2" ++ "_output.xlsx".
Proof.
  apply output_path_replaces_extension.
  - right. exists "results". reflexivity.
  - reflexivity.
  - reflexivity.
  - reflexivity.
  - reflexivity.
Defined.

(** C8, as stated, fails: the input's own extension is not preserved. *)
Lemma output_path_drops_extension :
  output_path "data.xlsm" = "data_output.xlsx" /\
  output_path "data.xlsm" <> "data_output.xlsm".
Proof. split; [reflexivity | discriminate]. Qed.

End PathsFacts.

(** ** The whole function and its effects *)

Module ProgramFacts.

Import Reader Evaluator Paths.

Local Open Scope string_scope.


(** A run succeeds when the four length cells hold numbers and the table
    has all the required columns and a clean row. *)
Lemma compute_restraint_score_succeeds
    (lib : Routines) (path : string) (fs : FS) (book : Workbook)
    (a b c d : float) :
  fs path = Some book ->
  iat (raw book) 1 1 = inr (ONum a) ->
  iat (raw book) 2 1 = inr (ONum b) ->
  iat (raw book) 3 1 = inr (ONum c) ->
  iat (raw book) 4 1 = inr (ONum d) ->
  wf (table book TABLE_SKIPROWS) ->
  Cleaning.complete (table book TABLE_SKIPROWS) ->
  Cleaning.dirty_count (table book TABLE_SKIPROWS)
    < nrows (table book TABLE_SKIPROWS) ->
  exists df score,
    compute_restraint_score lib path fs =
    (inr (df, score), report path a b c d df score).
Proof.
  intros Hf Ha Hb Hc Hd Hwf Hcomp Hlt.
  destruct (ReaderFacts.clean_table_rows Hwf Hcomp Hlt) as [df' [E _]].
  destruct (ReaderFacts.cleaned_shape Hwf Hcomp E) as [_ [_ Hreq]].
  destruct (EvaluatorFacts.evaluate_numbers lib a b c d df' Hreq)
    as [rs [mu [df'' [_ [_ [_ [Hev _]]]]]]].
  unfold compute_restraint_score, bind.
  rewrite (ReaderFacts.read_lengths_cells _ _ Hf Ha Hb Hc Hd).
  rewrite (ReaderFacts.read_restraint_table_run _ _ Hf), E.
  unfold lift. rewrite Hev. do 2 eexists. reflexivity.
Qed.



End ProgramFacts.

(** * Further properties of the reader *)

Module ReaderExtras.

Import FrameFacts Reader Cleaning ReaderFacts.

Local Open Scope string_scope.

Lemma read_lengths_inv
    (path : string) (fs : FS) (book : Workbook) (a b c d : float) :
  fs path = Some book ->
  read_lengths path fs = (inr (a, b, c, d), []) ->
  iat (raw book) 1 1 = inr (ONum a) /\
  iat (raw book) 2 1 = inr (ONum b) /\
  iat (raw book) 3 1 = inr (ONum c) /\
  iat (raw book) 4 1 = inr (ONum d).
Proof.
  intros Hf. rewrite (read_lengths_run _ _ Hf). unfold _cell.
  cbn [dict_get LENGTH_CELLS String.eqb Ascii.eqb Bool.eqb].
  intros H.
  destruct (iat (raw book) 1 1) as [e|[a'|t]]; cbn [py_float] in H;
    try discriminate H.
  destruct (iat (raw book) 2 1) as [e|[b'|t]]; cbn [py_float] in H;
    try discriminate H.
  destruct (iat (raw book) 3 1) as [e|[c'|t]]; cbn [py_float] in H;
    try discriminate H.
  destruct (iat (raw book) 4 1) as [e|[d'|t]]; cbn [py_float] in H;
    try discriminate H.
  inversion H; subst. auto.
Qed.

(** X1.  On an existing workbook, [read_lengths] returns (Ls, Lx, Ly, Lz)
    exactly when the cells (1,1), (2,1), (3,1) and (4,1) of the grid exist
    and hold these four numbers: a cell out of the grid or a cell of text
    makes it fail. *)
Theorem read_lengths_succeeds_iff
    (path : string) (fs : FS) (book : Workbook) (a b c d : float) :
  fs path = Some book ->
  (read_lengths path fs = (inr (a, b, c, d), []) <->
   iat (raw book) 1 1 = inr (ONum a) /\
   iat (raw book) 2 1 = inr (ONum b) /\
   iat (raw book) 3 1 = inr (ONum c) /\
   iat (raw book) 4 1 = inr (ONum d)).
Proof.
  intros Hf. split.
  - now apply read_lengths_inv.
  - intros [H1 [H2 [H3 H4]]]. now apply (read_lengths_cells _ _ Hf).
Qed.

Lemma read_lengths_succeeds_iff_witness :
  read_lengths "restraints.xlsx" Examples.p6_fs =
    (inr (1%float, 1%float, 1%float, 1%float), []) <->
  iat Examples.p6_sheet 1 1 = inr (ONum 1%float) /\
  iat Examples.p6_sheet 2 1 = inr (ONum 1%float) /\
  iat Examples.p6_sheet 3 1 = inr (ONum 1%float) /\
  iat Examples.p6_sheet 4 1 = inr (ONum 1%float).
Proof.
  apply (@read_lengths_succeeds_iff "restraints.xlsx" Examples.p6_fs
           Examples.p6_book).
  reflexivity.
Defined.

Lemma iat_in_grid (sheet : list (list (obj float))) (r c : nat) (o : obj float) :
  iat sheet r c = inr o -> r < length sheet.
Proof.
  unfold iat. destruct (nth_error sheet r) as [row|] eqn:E; [|discriminate].
  intros _. apply nth_error_Some. congruence.
Qed.

(** X2.  On a workbook whose grid has fewer than five rows, [read_lengths]
    fails, whatever the rows hold, and has no effect. *)
Theorem read_lengths_small_grid
    (path : string) (fs : FS) (book : Workbook) :
  fs path = Some book ->
  length (raw book) < 5 ->
  exists e, read_lengths path fs = (inl e, []).
Proof.
  intros Hf Hlen.
  destruct (read_lengths path fs) as [[e|[[[a b] c] d]] tr] eqn:E.
  - exists e. f_equal.
    pose proof (f_equal snd E) as Htr. cbn [snd] in Htr.
    rewrite (read_lengths_run _ _ Hf) in Htr. cbn [snd] in Htr. now subst.
  - exfalso.
    assert (Htr : tr = []).
    { pose proof (f_equal snd E) as Htr. cbn [snd] in Htr.
      rewrite (read_lengths_run _ _ Hf) in Htr. cbn [snd] in Htr. now subst. }
    subst tr.
    destruct (read_lengths_inv _ _ Hf E) as [_ [_ [_ H4]]].
    apply iat_in_grid in H4. lia.
Qed.

Lemma read_lengths_small_grid_witness :
  exists e,
    read_lengths "t.xlsx"
      (Examples.one_file "t.xlsx"
         {| raw := [[OText "Ls"; ONum 1%float]; [OText "Lx"; ONum 1%float]];
            table := fun _ => Examples.p6_table |}) = (inl e, []).
Proof.
  apply (@read_lengths_small_grid "t.xlsx" _
           {| raw := [[OText "Ls"; ONum 1%float]; [OText "Lx"; ONum 1%float]];
              table := fun _ => Examples.p6_table |}).
  - reflexivity.
  - simpl. lia.
Defined.

(** X3.  When [read_restraint_table] returns, the table it returns holds
    the clean rows of the input, in their order, in every column.  A column
    that is not required keeps its dtype and its values, text included.  A
    required column holds the clean rows of what [pd.to_numeric] makes of
    it; in particular a required column that is float64, int64 or bool in
    the input keeps its dtype and its values. *)
Theorem read_restraint_table_keeps_clean_rows
    (path : string) (fs : FS) (book : Workbook) :
  fs path = Some book ->
  wf (table book TABLE_SKIPROWS) ->
  complete (table book TABLE_SKIPROWS) ->
  dirty_count (table book TABLE_SKIPROWS) < nrows (table book TABLE_SKIPROWS) ->
  exists df',
    read_restraint_table path fs = (inr df', []) /\
    (forall c s,
       ~ In c REQUIRED_COLUMNS ->
       getitem (table book TABLE_SKIPROWS) c = Some s ->
       getitem df' c =
       Some (select_series
               (map (fun i => negb (dirty (table book TABLE_SKIPROWS) i))
                  (seq 0 (nrows (table book TABLE_SKIPROWS)))) s)) /\
    (forall c s,
       In c REQUIRED_COLUMNS ->
       getitem (table book TABLE_SKIPROWS) c = Some s ->
       getitem df' c =
       Some (select_series
               (map (fun i => negb (dirty (table book TABLE_SKIPROWS) i))
                  (seq 0 (nrows (table book TABLE_SKIPROWS))))
               (to_numeric PrimFloat.nan float_of_Z s))) /\
    (forall c s,
       In c REQUIRED_COLUMNS ->
       getitem (table book TABLE_SKIPROWS) c = Some s ->
       as_object s = None ->
       getitem df' c =
       Some (select_series
               (map (fun i => negb (dirty (table book TABLE_SKIPROWS) i))
                  (seq 0 (nrows (table book TABLE_SKIPROWS)))) s)).
Proof.
  intros Hf Hwf Hc Hlt. rewrite (read_restraint_table_run _ _ Hf).
  set (df := table book TABLE_SKIPROWS) in *.
  destruct (clean_table_complete Hwf Hc)
    as [df1 [Hwf1 [Hn [Hcol [Hreq [Hoth [_ E]]]]]]].
  cbv zeta in E.
  destruct (nrows df - dirty_count df =? 0)%nat eqn:E0;
    [apply Nat.eqb_eq in E0; lia|].
  eexists. split; [rewrite E; reflexivity|]. split; [|split].
  - intros c s Hnin Hs. unfold getitem. cbn [cols]. rewrite lookup_map_snd.
    fold (getitem df1 c). rewrite (Hoth c Hnin), Hs. reflexivity.
  - intros c s Hin Hs. unfold getitem. cbn [cols]. rewrite lookup_map_snd.
    fold (getitem df1 c). destruct (Hreq c Hin) as [s' [Hs' Hs1]].
    rewrite Hs1. rewrite Hs in Hs'. injection Hs' as <-. reflexivity.
  - intros c s Hin Hs Hobj. unfold getitem. cbn [cols].
    rewrite lookup_map_snd.
    fold (getitem df1 c). destruct (Hreq c Hin) as [s' [Hs' Hs1]].
    rewrite Hs1. rewrite Hs in Hs'. injection Hs' as <-.
    destruct s; try reflexivity. discriminate.
Qed.

Lemma read_restraint_table_keeps_clean_rows_witness :
  exists df',
    read_restraint_table "t.xlsx"
      (Examples.one_file "t.xlsx" (Examples.book_of Examples.dirty_table)) =
      (inr df', []) /\
    (forall c s,
       ~ In c REQUIRED_COLUMNS ->
       getitem Examples.dirty_table c = Some s ->
       getitem df' c =
       Some (select_series
               (map (fun i => negb (dirty Examples.dirty_table i))
                  (seq 0 (nrows Examples.dirty_table))) s)) /\
    (forall c s,
       In c REQUIRED_COLUMNS ->
       getitem Examples.dirty_table c = Some s ->
       getitem df' c =
       Some (select_series
               (map (fun i => negb (dirty Examples.dirty_table i))
                  (seq 0 (nrows Examples.dirty_table)))
               (to_numeric PrimFloat.nan float_of_Z s))) /\
    (forall c s,
       In c REQUIRED_COLUMNS ->
       getitem Examples.dirty_table c = Some s ->
       as_object s = None ->
       getitem df' c =
       Some (select_series
               (map (fun i => negb (dirty Examples.dirty_table i))
                  (seq 0 (nrows Examples.dirty_table))) s)).
Proof.
  apply (@read_restraint_table_keeps_clean_rows "t.xlsx" _
           (Examples.book_of Examples.dirty_table)).
  - reflexivity.
  - repeat constructor.
  - intros c. simpl. tauto.
  - vm_compute. lia.
Defined.

(** *** Cleaning a cleaned table *)

Lemma assign_same (c : string) (s : Series float) l :
  lookup c l = Some s -> assign c s l = l.
Proof.
  induction l as [|[k s0] l IH]; simpl; [discriminate|].
  destruct (String.eqb k c) eqn:E.
  - now intros [= ->].
  - intros H. now rewrite IH.
Qed.

Lemma coerce_columns_numbers (cs : list string) (df : DataFrame float) :
  (forall c, In c cs -> exists s, getitem df c = Some s /\ all_numbers s) ->
  coerce_columns df cs = inr df.
Proof.
  induction cs as [|c cs IH]; intros H; simpl; auto.
  destruct (H c) as [s [Hs Ha]]; [now left|]. rewrite Hs.
  assert (Hsame : setitem df c (to_numeric PrimFloat.nan float_of_Z s) = df).
  { assert (Hto : to_numeric PrimFloat.nan float_of_Z s = s)
      by (destruct s; try reflexivity; contradiction).
    rewrite Hto. unfold setitem. unfold getitem in Hs.
    rewrite (assign_same _ _ Hs). now destruct df. }
  rewrite Hsame. apply IH. intros c' Hc'. apply H. now right.
Qed.

Lemma select_all {A : Type} (mask : list bool) (l : list A) :
  (forall b, In b mask -> b = true) ->
  length mask = length l ->
  select mask l = l.
Proof.
  revert l. induction mask as [|b mask IH]; intros [|a l] Hall Hlen;
    simpl in *; try discriminate; auto.
  rewrite (Hall b) by auto. f_equal. apply IH; auto.
Qed.

Lemma count_true_all (mask : list bool) :
  (forall b, In b mask -> b = true) -> count_true mask = length mask.
Proof.
  unfold count_true. induction mask as [|b mask IH]; intros Hall; simpl; auto.
  rewrite (Hall b) by (now left). simpl. f_equal. apply IH.
  intros b' Hb'. apply Hall. now right.
Qed.

(** A table whose required columns are columns of numbers without a
    missing value has no dirty row. *)
Lemma no_dirty_row (df : DataFrame float) (i : nat) :
  (forall c, In c REQUIRED_COLUMNS ->
     exists s, getitem df c = Some s /\
               series_len s = nrows df /\
               all_numbers s) ->
  i < nrows df ->
  dirty df i = false.
Proof.
  intros H Hi. unfold dirty.
  apply not_true_is_false. intros Hex. apply existsb_exists in Hex.
  destruct Hex as [c [Hc Hbad]].
  destruct (H c Hc) as [s [Hs [Hlen Hnan]]].
  rewrite Hs in Hbad.
  destruct s as [xs|zs|bs|os]; cbn [dirty_at series_len all_numbers] in *;
    try contradiction.
  - destruct (nth_error xs i) as [x|] eqn:Ex.
    + cbn in Hbad. rewrite Forall_forall in Hnan.
      rewrite (Hnan x) in Hbad; [discriminate|].
      eapply nth_error_In; eauto.
    + apply nth_error_None in Ex. lia.
  - destruct (nth_error zs i) as [z|] eqn:Ex; [discriminate|].
    apply nth_error_None in Ex. lia.
  - destruct (nth_error bs i) as [b|] eqn:Ex; [discriminate|].
    apply nth_error_None in Ex. lia.
Qed.

Lemma clean_table_fixed (df : DataFrame float) :
  wf df -> complete df -> 0 < nrows df ->
  (forall c, In c REQUIRED_COLUMNS ->
     exists s, getitem df c = Some s /\
               series_len s = nrows df /\
               all_numbers s) ->
  clean_table df = inr df.
Proof.
  intros Hwf Hc Hpos Hreq.
  destruct (clean_core Hwf Hc) as [df1 [E [Em _]]].
  assert (E1 : coerce_columns df REQUIRED_COLUMNS = inr df).
  { apply coerce_columns_numbers. intros c Hin.
    destruct (Hreq c Hin) as [s [Hs [_ Ha]]]. eauto. }
  rewrite E1 in E. injection E as <-.
  set (mask := map (fun i => negb (dirty df i)) (seq 0 (nrows df))) in *.
  assert (Hall : forall b, In b mask -> b = true).
  { intros b Hb. unfold mask in Hb. apply in_map_iff in Hb.
    destruct Hb as [i [<- Hi]]. apply in_seq in Hi.
    rewrite (no_dirty_row df Hreq) by lia. reflexivity. }
  assert (Hlen : length mask = nrows df).
  { unfold mask. now rewrite length_map, length_seq. }
  unfold clean_table. rewrite (complete_no_missing Hc), E1.
  unfold dropna. rewrite Em. fold mask.
  rewrite (count_true_all mask Hall), Hlen.
  assert (Hcols : map (fun c => (fst c, select_series mask (snd c))) (cols df)
                  = cols df).
  { rewrite <- (map_id (cols df)) at 2. apply map_ext_in.
    intros [k s] Hin. cbn [fst snd]. f_equal.
    unfold wf in Hwf. rewrite Forall_forall in Hwf.
    specialize (Hwf _ Hin). cbn [snd] in Hwf.
    destruct s; cbn [select_series series_len] in *;
      f_equal; apply select_all; auto; congruence. }
  rewrite Hcols. unfold empty. cbn [nrows cols].
  assert (Hn0 : (nrows df =? 0)%nat = false) by (apply Nat.eqb_neq; lia).
  assert (Hc0 : (length (cols df) =? 0)%nat = false).
  { apply Nat.eqb_neq. intros H0.
    assert (Hd : In "dij" (columns df)).
    { apply Hc. unfold REQUIRED_COLUMNS. simpl. tauto. }
    unfold columns in Hd. destruct (cols df); [destruct Hd | discriminate]. }
  rewrite Hn0, Hc0. cbn [orb]. now destruct df.
Qed.

(** X4.  Cleaning is idempotent: a table that [read_restraint_table]
    returned is returned unchanged when it is cleaned again (no column is
    coerced further, no row is dropped). *)
Theorem clean_table_idempotent (df df' : DataFrame float) :
  wf df -> complete df ->
  clean_table df = inr df' ->
  clean_table df' = inr df'.
Proof.
  intros Hwf Hc E.
  assert (Hlt : dirty_count df < nrows df).
  { destruct (clean_table_complete Hwf Hc) as [df1 [_ [_ [_ [_ [_ [_ E1]]]]]]].
    cbv zeta in E1. rewrite E in E1.
    destruct (nrows df - dirty_count df =? 0)%nat eqn:E0; [discriminate|].
    apply Nat.eqb_neq in E0. lia. }
  destruct (clean_table_rows Hwf Hc Hlt) as [df2 [E2 [Hn [Hwf2 [Hcol Hreq]]]]].
  rewrite E in E2. injection E2 as <-.
  apply clean_table_fixed; auto.
  - intros c Hin. unfold complete in Hc. rewrite Hcol. auto.
  - lia.
  - intros c Hin. destruct (Hreq c Hin) as [s [Hs [Hlen Hnan]]].
    exists s. repeat split; auto. congruence.
Qed.

Lemma clean_table_idempotent_witness :
  exists df',
    clean_table Examples.dirty_table = inr df' /\
    clean_table df' = inr df'.
Proof.
  eexists. split; [reflexivity|].
  apply (@clean_table_idempotent Examples.dirty_table).
  - repeat constructor.
  - intros c. simpl. tauto.
  - reflexivity.
Defined.

End ReaderExtras.

(** * Further properties of the evaluator *)

Module EvaluatorExtras.

Import FrameFacts Evaluator EvaluatorFacts.

Local Open Scope string_scope.

Section Generic.
Context {F : Type} {M : Missing F} {N : Number F}.

Lemma evaluate_inv (Ls Lx Ly Lz : F) (df df' : DataFrame F) (score : F) :
  evaluate Ls Lx Ly Lz df = inr (df', score) ->
  exists x y z sl wi dij mu_x mu_y mu_z mu_s,
    column df "prot x coor" = inr x /\
    column df "prot y coor" = inr y /\
    column df "prot z coor" = inr z /\
    column df "sl" = inr sl /\
    column df "wi" = inr wi /\
    column df "dij" = inr dij /\
    column_mean df "prot x coor" = inr mu_x /\
    column_mean df "prot y coor" = inr mu_y /\
    column_mean df "prot z coor" = inr mu_z /\
    column_mean df "sl" = inr mu_s.
Proof.
  intros H.
  assert (Hs : score_only (evaluate Ls Lx Ly Lz df) = inr score)
    by (now rewrite H).
  rewrite score_only_evaluate in Hs.
  destruct (column df "dij") as [e|dij]; cbn [rbind] in Hs; [discriminate|].
  destruct (column df "wi") as [e|wi]; cbn [rbind] in Hs; [discriminate|].
  destruct (column_mean df "prot x coor") as [e|mu_x]; cbn [rbind] in Hs;
    [discriminate|].
  destruct (column_mean df "prot y coor") as [e|mu_y]; cbn [rbind] in Hs;
    [discriminate|].
  destruct (column_mean df "prot z coor") as [e|mu_z]; cbn [rbind] in Hs;
    [discriminate|].
  destruct (column df "prot x coor") as [e|x]; cbn [rbind] in Hs; [discriminate|].
  destruct (column df "prot y coor") as [e|y]; cbn [rbind] in Hs; [discriminate|].
  destruct (column df "prot z coor") as [e|z]; cbn [rbind] in Hs; [discriminate|].
  destruct (column_mean df "sl") as [e|mu_s]; cbn [rbind] in Hs;
    [discriminate|].
  destruct (column df "sl") as [e|sl]; cbn [rbind] in Hs; [discriminate|].
  exists x, y, z, sl, wi, dij, mu_x, mu_y, mu_z, mu_s. repeat split.
Qed.

Lemma column_length (df : DataFrame F) (c : string) (xs : list F) :
  wf df -> column df c = inr xs -> length xs = nrows df.
Proof.
  intros Hwf H. unfold column in H.
  destruct (getitem df c) as [s|] eqn:E; try discriminate.
  rewrite <- (lookup_series_len c Hwf E).
  destruct s; cbn [as_float series_len] in *; try discriminate;
    injection H as <-; auto; apply length_map.
Qed.

Lemma fst_assign_absent (c : string) (s : Series F) l :
  ~ In c (map fst l) -> map fst (assign c s l) = (map fst l ++ [c])%list.
Proof.
  induction l as [|[k s0] l IH]; simpl; auto.
  intros H. destruct (String.eqb k c) eqn:E.
  - apply String.eqb_eq in E. tauto.
  - simpl. f_equal. apply IH. tauto.
Qed.

Lemma columns_setitem_absent (df : DataFrame F) (c : string) (s : Series F) :
  ~ In c (columns df) -> columns (setitem df c s) = (columns df ++ [c])%list.
Proof. intros H. unfold columns, setitem. cbn [cols]. now apply fst_assign_absent. Qed.

Lemma getitem_setitem_ne (df : DataFrame F) (c c' : string) (s : Series F) :
  c <> c' -> getitem (setitem df c s) c' = getitem df c'.
Proof.
  intros H. unfold getitem, setitem. cbn [cols]. now apply lookup_assign_ne.
Qed.

Lemma getitem_setitem_eq (df : DataFrame F) (c : string) (s : Series F) :
  getitem (setitem df c s) c = Some s.
Proof. unfold getitem, setitem. cbn [cols]. apply lookup_assign_eq. Qed.

(** Elementwise operations keep the number of entries. *)
Lemma length_add (a b : list F) (n : nat) :
  length a = n -> length b = n -> length (add a b) = n.
Proof. intros Ha Hb. unfold add. rewrite length_zip_with; congruence. Qed.

Lemma length_mul (a b : list F) (n : nat) :
  length a = n -> length b = n -> length (mul a b) = n.
Proof. intros Ha Hb. unfold mul. rewrite length_zip_with; congruence. Qed.

Lemma length_sub_scalar (a : list F) (k : F) (n : nat) :
  length a = n -> length (sub_scalar a k) = n.
Proof. intros Ha. unfold sub_scalar. now rewrite length_map. Qed.

Lemma length_div_scalar (a : list F) (k : F) (n : nat) :
  length a = n -> length (div_scalar a k) = n.
Proof. intros Ha. unfold div_scalar. now rewrite length_map. Qed.

Lemma length_square (a : list F) (n : nat) :
  length a = n -> length (square a) = n.
Proof. intros Ha. unfold square. now rewrite length_map. Qed.

Lemma length_neg (a : list F) (n : nat) :
  length a = n -> length (neg a) = n.
Proof. intros Ha. unfold neg. now rewrite length_map. Qed.

Lemma length_np_exp (a : list F) (n : nat) :
  length a = n -> length (np_exp a) = n.
Proof. intros Ha. unfold np_exp. now rewrite length_map. Qed.

(** X5.  When the evaluator returns, the annotated table has the rows of
    the table it was given: every column other than [fdij], [omega_ij],
    [sigma_P] and [sigma_L] is unchanged, these four are float64 columns
    with one entry per row, and when the input had none of them they come
    after the input's columns, in this order. *)
Theorem evaluate_annotates
    (Ls Lx Ly Lz : F) (df df' : DataFrame F) (score : F) :
  wf df ->
  evaluate Ls Lx Ly Lz df = inr (df', score) ->
  nrows df' = nrows df /\
  wf df' /\
  (forall c, ~ In c COMPUTED_COLUMNS -> getitem df' c = getitem df c) /\
  (forall c, In c COMPUTED_COLUMNS ->
     exists xs, getitem df' c = Some (FloatSeries xs) /\
                length xs = nrows df) /\
  ((forall c, In c COMPUTED_COLUMNS -> ~ In c (columns df)) ->
   columns df' = (columns df ++ COMPUTED_COLUMNS)%list).
Proof.
  intros Hwf H.
  destruct (evaluate_inv _ _ _ _ _ H)
    as [x [y [z [sl [wi [dij [mu_x [mu_y [mu_z [mu_s
         [Hx [Hy [Hz [Hsl [Hwi [Hdij [Hmx [Hmy [Hmz Hms]]]]]]]]]]]]]]]]]]].
  rewrite (evaluate_columns Ls Lx Ly Lz df Hx Hy Hz Hsl Hwi Hdij
             Hmx Hmy Hmz Hms) in H.
  cbv zeta in H. injection H as Hdf _.
  pose proof (column_length _ Hwf Hx) as Lx'.
  pose proof (column_length _ Hwf Hy) as Ly'.
  pose proof (column_length _ Hwf Hz) as Lz'.
  pose proof (column_length _ Hwf Hsl) as Lsl.
  pose proof (column_length _ Hwf Hwi) as Lwi.
  pose proof (column_length _ Hwf Hdij) as Ldij.
  set (fdij := np_exp (neg (sub_scalar dij D0))) in *.
  set (omega := mul wi fdij) in *.
  set (sP := div_scalar _ _) in Hdf at 1.
  set (sL := div_scalar _ _) in Hdf at 1.
  assert (Lf : length fdij = nrows df).
  { unfold fdij. auto using length_np_exp, length_neg, length_sub_scalar. }
  assert (Lo : length omega = nrows df).
  { unfold omega. auto using length_mul. }
  assert (LP : length sP = nrows df).
  { unfold sP.
    auto 10 using length_div_scalar, length_add, length_square,
      length_sub_scalar. }
  assert (LL : length sL = nrows df).
  { unfold sL.
    auto 10 using length_div_scalar, length_square, length_sub_scalar. }
  subst df'. split; [reflexivity|]. split; [|split; [|split]].
  - repeat apply wf_setitem; auto.
  - intros c Hc. unfold COMPUTED_COLUMNS in Hc. simpl in Hc.
    rewrite !getitem_setitem_ne by (intros <-; apply Hc; auto 10). reflexivity.
  - intros c [<-|[<-|[<-|[<-|[]]]]].
    + exists fdij. rewrite !getitem_setitem_ne by discriminate.
      now rewrite getitem_setitem_eq.
    + exists omega. rewrite !getitem_setitem_ne by discriminate.
      now rewrite getitem_setitem_eq.
    + exists sP. rewrite !getitem_setitem_ne by discriminate.
      now rewrite getitem_setitem_eq.
    + exists sL. now rewrite getitem_setitem_eq.
  - intros Hnew. unfold COMPUTED_COLUMNS in *.
    assert (N1 : ~ In "fdij" (columns df)) by (apply Hnew; simpl; tauto).
    assert (N2 : ~ In "omega_ij" (columns df)) by (apply Hnew; simpl; tauto).
    assert (N3 : ~ In "sigma_P" (columns df)) by (apply Hnew; simpl; tauto).
    assert (N4 : ~ In "sigma_L" (columns df)) by (apply Hnew; simpl; tauto).
    set (df1 := setitem df "fdij" (FloatSeries fdij)).
    assert (C1 : columns df1 = (columns df ++ ["fdij"])%list)
      by (now apply columns_setitem_absent).
    set (df2 := setitem df1 "omega_ij" (FloatSeries omega)).
    assert (C2 : columns df2 = (columns df ++ ["fdij"; "omega_ij"])%list).
    { unfold df2. rewrite columns_setitem_absent.
      - rewrite C1, <- app_assoc. reflexivity.
      - rewrite C1, in_app_iff. simpl. intuition discriminate. }
    set (df3 := setitem df2 "sigma_P" (FloatSeries sP)).
    assert (C3 : columns df3
                 = (columns df ++ ["fdij"; "omega_ij"; "sigma_P"])%list).
    { unfold df3. rewrite columns_setitem_absent.
      - rewrite C2, <- app_assoc. reflexivity.
      - rewrite C2, in_app_iff. simpl. intuition discriminate. }
    rewrite columns_setitem_absent.
    + fold df1 df2 df3. rewrite C3, <- app_assoc. reflexivity.
    + fold df1 df2 df3. rewrite C3, in_app_iff. simpl. intuition discriminate.
Qed.

(** X6.  Scoring again the annotated table the evaluator returned gives
    the same score: the four columns it wrote take no part in it. *)
Theorem evaluate_again_same_score
    (Ls Lx Ly Lz : F) (df df' : DataFrame F) (score : F) :
  evaluate Ls Lx Ly Lz df = inr (df', score) ->
  score_only (evaluate Ls Lx Ly Lz df') = inr score.
Proof.
  intros H.
  destruct (evaluate_inv _ _ _ _ _ H)
    as [x [y [z [sl [wi [dij [mu_x [mu_y [mu_z [mu_s
         [Hx [Hy [Hz [Hsl [Hwi [Hdij [Hmx [Hmy [Hmz Hms]]]]]]]]]]]]]]]]]]].
  rewrite (evaluate_columns Ls Lx Ly Lz df Hx Hy Hz Hsl Hwi Hdij
             Hmx Hmy Hmz Hms) in H.
  cbv zeta in H. injection H as Hdf Hscore.
  rewrite score_only_evaluate. subst df'.
  repeat rewrite column_setitem_ne by discriminate.
  repeat rewrite column_mean_setitem_ne by discriminate.
  rewrite Hx, Hy, Hz, Hsl, Hwi, Hdij, Hmx, Hmy, Hmz, Hms.
  cbn [rbind]. cbv zeta.
  unfold len, setitem. cbn [nrows]. unfold len in Hscore. now rewrite Hscore.
Qed.

End Generic.

Lemma evaluate_annotates_witness :
  nrows Examples.p6_annotated = nrows Examples.p6_table /\
  wf Examples.p6_annotated /\
  (forall c, ~ In c COMPUTED_COLUMNS ->
     getitem Examples.p6_annotated c = getitem Examples.p6_table c) /\
  (forall c, In c COMPUTED_COLUMNS ->
     exists xs, getitem Examples.p6_annotated c = Some (FloatSeries xs) /\
                length xs = nrows Examples.p6_table) /\
  ((forall c, In c COMPUTED_COLUMNS -> ~ In c (columns Examples.p6_table)) ->
   columns Examples.p6_annotated =
   (columns Examples.p6_table ++ COMPUTED_COLUMNS)%list).
Proof.
  apply (@evaluate_annotates float _ (float_number Examples.routines)
           1%float 1%float 1%float 1%float
           Examples.p6_table Examples.p6_annotated 4%float).
  - repeat constructor.
  - reflexivity.
Defined.

Lemma evaluate_again_same_score_witness :
  score_only
    (evaluate (N := float_number Examples.routines)
       1%float 1%float 1%float 1%float Examples.p6_annotated) = inr 4%float.
Proof.
  apply (@evaluate_again_same_score float _ (float_number Examples.routines)
           1%float 1%float 1%float 1%float Examples.p6_table).
  reflexivity.
Defined.

(** *** The formula in exact arithmetic *)

Section Exact.

Import Spec Variation.

Local Open Scope R_scope.

Lemma big_sum_map (f : Restraint -> R) (g : Restraint -> Restraint)
    (rs : list Restraint) :
  big_sum f (map g rs) = big_sum (fun r => f (g r)) rs.
Proof. induction rs as [|r rs IH]; simpl; auto. now rewrite IH. Qed.

Lemma big_sum_plus_const (f : Restraint -> R) (t : R) (rs : list Restraint) :
  big_sum (fun r => f r + t) rs = big_sum f rs + INR (length rs) * t.
Proof.
  induction rs as [|r rs IH].
  - simpl. ring.
  - cbn [big_sum]. rewrite IH. cbn [length]. rewrite S_INR. ring.
Qed.

Lemma big_sum_perm (f : Restraint -> R) (rs rs' : list Restraint) :
  Permutation rs rs' -> big_sum f rs = big_sum f rs'.
Proof.
  induction 1; simpl; lra.
Qed.

Lemma avg_shift (f : Restraint -> R) (t : R) (rs : list Restraint) :
  rs <> [] -> avg (fun r => f r + t) rs = avg f rs + t.
Proof.
  intros Hne. unfold avg. rewrite big_sum_plus_const.
  assert (INR (length rs) <> 0).
  { apply not_0_INR. destruct rs; [contradiction | discriminate]. }
  field. assumption.
Qed.

Lemma avg_ext (f g : Restraint -> R) (rs : list Restraint) :
  (forall r, In r rs -> f r = g r) -> avg f rs = avg g rs.
Proof. intros H. unfold avg. now rewrite (big_sum_ext f g rs H). Qed.

Lemma avg_map (f : Restraint -> R) (g : Restraint -> Restraint)
    (rs : list Restraint) :
  avg f (map g rs) = avg (fun r => f (g r)) rs.
Proof. unfold avg. now rewrite big_sum_map, length_map. Qed.

(** The score does not depend on the origin of the coordinates. *)
Lemma score_of_shift (Ls Lx Ly Lz tx ty tz ts : R) (rs : list Restraint) :
  score_of Ls Lx Ly Lz (map (shift tx ty tz ts) rs) = score_of Ls Lx Ly Lz rs.
Proof.
  destruct rs as [|r0 rs0] eqn:E; [reflexivity|]. rewrite <- E.
  assert (Hne : rs <> []) by (subst; discriminate).
  unfold score_of. rewrite length_map, big_sum_map. f_equal.
  apply big_sum_ext. intros r _.
  unfold sigma_P_of, sigma_L_of, dev_P, dev_L, omega_of, fdij_of.
  rewrite length_map, !avg_map. cbn [px py pz sl wi dij shift].
  rewrite !avg_shift by assumption.
  replace (px r + tx - (avg px rs + tx)) with (px r - avg px rs) by ring.
  replace (py r + ty - (avg py rs + ty)) with (py r - avg py rs) by ring.
  replace (pz r + tz - (avg pz rs + tz)) with (pz r - avg pz rs) by ring.
  replace (sl r + ts - (avg sl rs + ts)) with (sl r - avg sl rs) by ring.
  reflexivity.
Qed.

(** The score is linear in the weights. *)
Lemma score_of_reweigh (Ls Lx Ly Lz k : R) (rs : list Restraint) :
  score_of Ls Lx Ly Lz (map (reweigh k) rs) = k * score_of Ls Lx Ly Lz rs.
Proof.
  unfold score_of. rewrite length_map, big_sum_map.
  rewrite <- Rmult_assoc, (Rmult_comm k), Rmult_assoc. f_equal.
  rewrite big_sum_scal. apply big_sum_ext. intros r _.
  assert (Hx : avg px (map (reweigh k) rs) = avg px rs)
    by (rewrite avg_map; now apply avg_ext).
  assert (Hy : avg py (map (reweigh k) rs) = avg py rs)
    by (rewrite avg_map; now apply avg_ext).
  assert (Hz : avg pz (map (reweigh k) rs) = avg pz rs)
    by (rewrite avg_map; now apply avg_ext).
  assert (Hs : avg sl (map (reweigh k) rs) = avg sl rs)
    by (rewrite avg_map; now apply avg_ext).
  unfold sigma_P_of, sigma_L_of, dev_P, dev_L, omega_of, fdij_of.
  rewrite length_map, Hx, Hy, Hz, Hs. cbn [px py pz sl wi dij reweigh].
  unfold Rdiv. ring.
Qed.

(** The score does not depend on the order of the records. *)
Lemma score_of_perm (Ls Lx Ly Lz : R) (rs rs' : list Restraint) :
  Permutation rs rs' -> score_of Ls Lx Ly Lz rs = score_of Ls Lx Ly Lz rs'.
Proof.
  intros HP. unfold score_of.
  rewrite (Permutation_length HP). f_equal.
  rewrite (big_sum_perm _ HP). apply big_sum_ext. intros r _.
  unfold sigma_P_of, sigma_L_of, dev_P, dev_L, avg.
  rewrite (Permutation_length HP).
  now rewrite !(big_sum_perm _ HP).
Qed.

Lemma big_sum_const (f : Restraint -> R) (c : R) (rs : list Restraint) :
  (forall r, In r rs -> f r = c) -> big_sum f rs = INR (length rs) * c.
Proof.
  induction rs as [|r rs IH]; intros H.
  - simpl. ring.
  - cbn [big_sum length]. rewrite S_INR, (H r) by (now left).
    rewrite IH by (intros r' Hr'; apply H; now right). ring.
Qed.

Lemma avg_const (f : Restraint -> R) (c : R) (rs : list Restraint) :
  rs <> [] -> (forall r, In r rs -> f r = c) -> avg f rs = c.
Proof.
  intros Hne H. unfold avg. rewrite (@big_sum_const f c rs H).
  assert (INR (length rs) <> 0).
  { apply not_0_INR. destruct rs; [contradiction | discriminate]. }
  field. assumption.
Qed.

(** Records that all sit at one place score zero. *)
Lemma score_of_coincident (Ls Lx Ly Lz : R) (rs : list Restraint) :
  (forall r r', In r rs -> In r' rs ->
     px r = px r' /\ py r = py r' /\ pz r = pz r' /\ sl r = sl r') ->
  score_of Ls Lx Ly Lz rs = 0.
Proof.
  intros H. unfold score_of.
  destruct rs as [|r0 rs0] eqn:E; [simpl; ring|]. rewrite <- E in *.
  assert (Hne : rs <> []) by (subst; discriminate).
  assert (H0 : In r0 rs) by (subst; now left).
  rewrite (@big_sum_const _ 0 rs); [ring|].
  intros r Hr. destruct (H r r0 Hr H0) as [Ex [Ey [Ez Es]]].
  unfold sigma_P_of, sigma_L_of, dev_P, dev_L.
  rewrite (@avg_const px (px r0) rs Hne), (@avg_const py (py r0) rs Hne),
    (@avg_const pz (pz r0) rs Hne), (@avg_const sl (sl r0) rs Hne);
    try (intros r' Hr'; now destruct (H r' r0 Hr' H0) as [? [? [? ?]]]).
  rewrite Ex, Ey, Ez, Es. unfold Rdiv. ring.
Qed.

End Exact.

Section Units.

Import Spec Variation.

Local Open Scope R_scope.

Lemma avg_scal (f : Restraint -> R) (k : R) (rs : list Restraint) :
  avg (fun r => k * f r) rs = k * avg f rs.
Proof. unfold avg. rewrite <- big_sum_scal. unfold Rdiv. ring. Qed.

(** The score does not depend on the units of the coordinates and of the
    lengths. *)
Lemma score_of_rescale (Ls Lx Ly Lz k m : R) (rs : list Restraint) :
  k <> 0 -> m <> 0 -> Ls <> 0 -> Lx <> 0 -> Ly <> 0 -> Lz <> 0 ->
  score_of (m * Ls) (k * Lx) (k * Ly) (k * Lz) (map (rescale k m) rs) =
  score_of Ls Lx Ly Lz rs.
Proof.
  intros Hk Hm HLs HLx HLy HLz.
  destruct rs as [|r0 rs0] eqn:E; [reflexivity|]. rewrite <- E.
  assert (Hn : INR (length rs) <> 0).
  { apply not_0_INR. subst rs. discriminate. }
  unfold score_of. rewrite length_map, big_sum_map. f_equal.
  apply big_sum_ext. intros r _.
  assert (Hx : avg px (map (rescale k m) rs) = k * avg px rs)
    by (rewrite avg_map; apply avg_scal).
  assert (Hy : avg py (map (rescale k m) rs) = k * avg py rs)
    by (rewrite avg_map; apply avg_scal).
  assert (Hz : avg pz (map (rescale k m) rs) = k * avg pz rs)
    by (rewrite avg_map; apply avg_scal).
  assert (Hs : avg sl (map (rescale k m) rs) = m * avg sl rs)
    by (rewrite avg_map; apply avg_scal).
  unfold sigma_P_of, sigma_L_of, dev_P, dev_L, omega_of, fdij_of.
  rewrite length_map, Hx, Hy, Hz, Hs. cbn [px py pz sl wi dij rescale].
  field. repeat split; assumption.
Qed.

End Units.

(** X7.  In exact arithmetic the score does not depend on the origin: when
    every protein coordinate is moved by the same vector and every peptide
    position by the same amount, the evaluator returns the same score. *)
Theorem score_translation_invariant
    (Ls Lx Ly Lz tx ty tz ts : R) (df1 df2 : DataFrame R)
    (rs : list Spec.Restraint) :
  Spec.holds df1 rs ->
  Spec.holds df2 (map (Variation.shift tx ty tz ts) rs) ->
  exists df1' df2' score,
    evaluate Ls Lx Ly Lz df1 = inr (df1', score) /\
    evaluate Ls Lx Ly Lz df2 = inr (df2', score).
Proof.
  intros H1 H2.
  destruct (evaluate_exact Ls Lx Ly Lz H1) as [df1' [E1 _]].
  destruct (evaluate_exact Ls Lx Ly Lz H2) as [df2' [E2 _]].
  rewrite score_of_shift in E2. eauto.
Qed.

Lemma score_translation_invariant_witness :
  exists df1' df2' score,
    evaluate 1%R 1%R 1%R 1%R (Spec.frame_of [Spec.record_A; Spec.record_B]) =
      inr (df1', score) /\
    evaluate 1%R 1%R 1%R 1%R
      (Spec.frame_of (map (Variation.shift 5 (-3) 0 10)
                        [Spec.record_A; Spec.record_B])) = inr (df2', score).
Proof.
  apply (@score_translation_invariant 1%R 1%R 1%R 1%R 5%R (-3)%R 0%R 10%R
           _ _ [Spec.record_A; Spec.record_B]).
  - repeat split.
  - repeat split.
Defined.

(** X8.  In exact arithmetic the score is linear in the weights: when every
    [wi] is multiplied by the same factor, so is the score. *)
Theorem score_linear_in_weights
    (Ls Lx Ly Lz k : R) (df1 df2 : DataFrame R) (rs : list Spec.Restraint) :
  Spec.holds df1 rs ->
  Spec.holds df2 (map (Variation.reweigh k) rs) ->
  exists df1' df2' score,
    evaluate Ls Lx Ly Lz df1 = inr (df1', score) /\
    evaluate Ls Lx Ly Lz df2 = inr (df2', (k * score)%R).
Proof.
  intros H1 H2.
  destruct (evaluate_exact Ls Lx Ly Lz H1) as [df1' [E1 _]].
  destruct (evaluate_exact Ls Lx Ly Lz H2) as [df2' [E2 _]].
  rewrite score_of_reweigh in E2. eauto.
Qed.

Lemma score_linear_in_weights_witness :
  exists df1' df2' score,
    evaluate 1%R 1%R 1%R 1%R (Spec.frame_of [Spec.record_A; Spec.record_B]) =
      inr (df1', score) /\
    evaluate 1%R 1%R 1%R 1%R
      (Spec.frame_of (map (Variation.reweigh 3)
                        [Spec.record_A; Spec.record_B])) =
      inr (df2', (3 * score)%R).
Proof.
  apply (@score_linear_in_weights 1%R 1%R 1%R 1%R 3%R
           _ _ [Spec.record_A; Spec.record_B]).
  - repeat split.
  - repeat split.
Defined.

(** X9.  In exact arithmetic the score does not depend on the order of the
    rows: two tables that hold the same records in different orders get the
    same score. *)
Theorem score_row_order_invariant
    (Ls Lx Ly Lz : R) (df1 df2 : DataFrame R) (rs rs' : list Spec.Restraint) :
  Permutation rs rs' ->
  Spec.holds df1 rs ->
  Spec.holds df2 rs' ->
  exists df1' df2' score,
    evaluate Ls Lx Ly Lz df1 = inr (df1', score) /\
    evaluate Ls Lx Ly Lz df2 = inr (df2', score).
Proof.
  intros HP H1 H2.
  destruct (evaluate_exact Ls Lx Ly Lz H1) as [df1' [E1 _]].
  destruct (evaluate_exact Ls Lx Ly Lz H2) as [df2' [E2 _]].
  rewrite <- (score_of_perm Ls Lx Ly Lz HP) in E2. eauto.
Qed.

Lemma score_row_order_invariant_witness :
  exists df1' df2' score,
    evaluate 1%R 1%R 1%R 1%R (Spec.frame_of [Spec.record_A; Spec.record_B]) =
      inr (df1', score) /\
    evaluate 1%R 1%R 1%R 1%R (Spec.frame_of [Spec.record_B; Spec.record_A]) =
      inr (df2', score).
Proof.
  apply (@score_row_order_invariant 1%R 1%R 1%R 1%R
           _ _ [Spec.record_A; Spec.record_B] [Spec.record_B; Spec.record_A]).
  - apply perm_swap.
  - repeat split.
  - repeat split.
Defined.

(** X10.  In exact arithmetic, a table whose records all have the same
    protein coordinates and the same peptide position scores zero, whatever
    the weights and distances are; so does every table of one record. *)
Theorem score_zero_without_dispersion
    (Ls Lx Ly Lz : R) (df : DataFrame R) (rs : list Spec.Restraint) :
  Spec.holds df rs ->
  (forall r r', In r rs -> In r' rs ->
     Spec.px r = Spec.px r' /\ Spec.py r = Spec.py r' /\
     Spec.pz r = Spec.pz r' /\ Spec.sl r = Spec.sl r') ->
  exists df', evaluate Ls Lx Ly Lz df = inr (df', 0%R).
Proof.
  intros H Hsame.
  destruct (evaluate_exact Ls Lx Ly Lz H) as [df' [E _]].
  rewrite (@score_of_coincident Ls Lx Ly Lz rs Hsame) in E. eauto.
Qed.

Lemma score_zero_without_dispersion_witness :
  exists df',
    evaluate 1%R 1%R 1%R 1%R (Spec.frame_of [Spec.record_B]) = inr (df', 0%R).
Proof.
  apply (@score_zero_without_dispersion 1%R 1%R 1%R 1%R _ [Spec.record_B]).
  - repeat split.
  - intros r r' [<-|[]] [<-|[]]. repeat split.
Defined.

(** X18.  In exact arithmetic the score does not depend on the units: when
    the protein coordinates and the lengths Lx, Ly, Lz are multiplied by one
    nonzero factor, and the peptide positions and Ls by another, the
    evaluator returns the same score (all lengths being nonzero). *)
Theorem score_unit_invariant
    (Ls Lx Ly Lz k m : R) (df1 df2 : DataFrame R) (rs : list Spec.Restraint) :
  k <> 0%R -> m <> 0%R ->
  Ls <> 0%R -> Lx <> 0%R -> Ly <> 0%R -> Lz <> 0%R ->
  Spec.holds df1 rs ->
  Spec.holds df2 (map (Variation.rescale k m) rs) ->
  exists df1' df2' score,
    evaluate Ls Lx Ly Lz df1 = inr (df1', score) /\
    evaluate (m * Ls)%R (k * Lx)%R (k * Ly)%R (k * Lz)%R df2 =
      inr (df2', score).
Proof.
  intros Hk Hm HLs HLx HLy HLz H1 H2.
  destruct (evaluate_exact Ls Lx Ly Lz H1) as [df1' [E1 _]].
  destruct (evaluate_exact (m * Ls)%R (k * Lx)%R (k * Ly)%R (k * Lz)%R H2)
    as [df2' [E2 _]].
  rewrite score_of_rescale in E2 by assumption. eauto.
Qed.

Lemma score_unit_invariant_witness :
  exists df1' df2' score,
    evaluate 1%R 1%R 1%R 1%R (Spec.frame_of [Spec.record_A; Spec.record_B]) =
      inr (df1', score) /\
    evaluate (2 * 1)%R (10 * 1)%R (10 * 1)%R (10 * 1)%R
      (Spec.frame_of (map (Variation.rescale 10 2)
                        [Spec.record_A; Spec.record_B])) = inr (df2', score).
Proof.
  apply (@score_unit_invariant 1%R 1%R 1%R 1%R 10%R 2%R
           _ _ [Spec.record_A; Spec.record_B]).
  - lra.
  - lra.
  - lra.
  - lra.
  - lra.
  - lra.
  - repeat split.
  - repeat split.
Defined.

(** X11.  In exact arithmetic the distance weight decreases with the
    distance: of two rows, the one with the smaller [dij] has the strictly
    larger [fdij]; and a row whose [dij] is 1.8 has [fdij] equal to 1. *)
Theorem fdij_decreasing
    (Ls Lx Ly Lz : R) (df : DataFrame R) (rs : list Spec.Restraint) :
  Spec.holds df rs ->
  exists df' score fdij,
    evaluate Ls Lx Ly Lz df = inr (df', score) /\
    column df' "fdij" = inr fdij /\
    (forall i j ri rj,
       nth_error rs i = Some ri -> nth_error rs j = Some rj ->
       (Spec.dij ri < Spec.dij rj)%R ->
       (nth j fdij 0 < nth i fdij 0)%R) /\
    (forall i ri,
       nth_error rs i = Some ri -> Spec.dij ri = (18 / 10)%R ->
       nth i fdij 0%R = 1%R).
Proof.
  intros H.
  destruct (evaluate_exact Ls Lx Ly Lz H) as [df' [E [Hf _]]].
  exists df', (Spec.score_of Ls Lx Ly Lz rs), (map Spec.fdij_of rs).
  split; [exact E|]. split; [exact Hf|].
  assert (Hnth : forall i ri, nth_error rs i = Some ri ->
                   nth i (map Spec.fdij_of rs) 0%R = Spec.fdij_of ri).
  { intros i ri Hi. apply nth_error_nth.
    now rewrite nth_error_map, Hi. }
  split.
  - intros i j ri rj Hi Hj Hlt.
    rewrite (Hnth i ri Hi), (Hnth j rj Hj).
    unfold Spec.fdij_of. apply exp_increasing. lra.
  - intros i ri Hi Hd. rewrite (Hnth i ri Hi).
    unfold Spec.fdij_of. rewrite Hd.
    replace (- (18 / 10 - 18 / 10))%R with 0%R by lra. apply exp_0.
Qed.

Lemma fdij_decreasing_witness :
  exists df' score fdij,
    evaluate 1%R 1%R 1%R 1%R (Spec.frame_of [Spec.record_A; Spec.record_B]) =
      inr (df', score) /\
    column df' "fdij" = inr fdij /\
    (forall i j ri rj,
       nth_error [Spec.record_A; Spec.record_B] i = Some ri ->
       nth_error [Spec.record_A; Spec.record_B] j = Some rj ->
       (Spec.dij ri < Spec.dij rj)%R ->
       (nth j fdij 0 < nth i fdij 0)%R) /\
    (forall i ri,
       nth_error [Spec.record_A; Spec.record_B] i = Some ri ->
       Spec.dij ri = (18 / 10)%R ->
       nth i fdij 0%R = 1%R).
Proof.
  apply (@fdij_decreasing 1%R 1%R 1%R 1%R _ [Spec.record_A; Spec.record_B]).
  repeat split.
Defined.

End EvaluatorExtras.

(** * Further properties of the output path *)

Module PathsExtras.

Import Paths PathsFacts.

Local Open Scope string_scope.

Lemma append_empty_r (s : string) : s ++ "" = s.
Proof. induction s; simpl; auto. now rewrite IHs. Qed.

Lemma append_cancel_l (s a b : string) : s ++ a = s ++ b -> a = b.
Proof. induction s; simpl; auto. intros [= H]. auto. Qed.

Lemma rfind_present (c : ascii) (s : string) :
  contains c s = true -> (0 <= rfind c s)%Z.
Proof.
  induction s as [|a s IH]; simpl; [discriminate|].
  intros H. destruct (0 <=? rfind c s)%Z eqn:E.
  - apply Z.leb_le in E. lia.
  - destruct (Ascii.eqb a c); [lia|]. simpl in H.
    apply IH in H. apply Z.leb_gt in E. lia.
Qed.

Lemma rfind_append_present (c : ascii) (s t : string) :
  contains c t = true -> (Z.of_nat (String.length s) <= rfind c (s ++ t))%Z.
Proof.
  intros H. induction s as [|a s IH]; simpl append; simpl String.length.
  - now apply rfind_present.
  - cbn [rfind].
    destruct (0 <=? rfind c (s ++ t))%Z eqn:E; [lia|].
    apply Z.leb_gt in E. lia.
Qed.

(** The last occurrence splits the string. *)
Lemma rfind_split (c : ascii) (p : string) :
  (0 <= rfind c p)%Z ->
  exists s t,
    p = s ++ String c t /\
    contains c t = false /\
    rfind c p = Z.of_nat (String.length s).
Proof.
  induction p as [|a p IH]; simpl; [lia|].
  destruct (0 <=? rfind c p)%Z eqn:E.
  - intros _. apply Z.leb_le in E.
    destruct (IH E) as [s [t [Hp [Ht Hr]]]].
    exists (String a s), t. simpl. rewrite <- Hp. repeat split; auto. lia.
  - destruct (Ascii.eqb a c) eqn:Ea; [|lia].
    intros _. apply Ascii.eqb_eq in Ea. subst a.
    exists "", p. repeat split.
    destruct (contains c p) eqn:Hc; auto.
    apply rfind_present in Hc. apply Z.leb_gt in E. lia.
Qed.

(** What [splitext] returns: the path cut in two, the second part being
    empty or the last dot and what follows it. *)
Lemma splitext_shape (p : string) :
  exists root ext,
    splitext p = (root, ext) /\
    root ++ ext = p /\
    (ext = "" \/
     exists e, ext = String "." e /\
               contains "." e = false /\ contains "/" e = false).
Proof.
  unfold splitext, _splitext.
  destruct ((rfind "/" p <? rfind "." p)%Z
            && has_name_char "." p (Z.to_nat (rfind "/" p + 1))
                 (Z.to_nat (rfind "." p - (rfind "/" p + 1)))) eqn:E.
  - apply andb_true_iff in E. destruct E as [Hlt _]. apply Z.ltb_lt in Hlt.
    assert (Hsep : (-1 <= rfind "/" p)%Z).
    { destruct (contains "/" p) eqn:Hc.
      - apply rfind_present in Hc. lia.
      - rewrite (rfind_absent _ _ Hc). lia. }
    destruct (@rfind_split "." p) as [s [t [Hp [Ht Hr]]]]; [lia|].
    exists s, (String "." t). rewrite Hr, Nat2Z.id. subst p.
    split; [|split].
    + f_equal.
      * apply substring_prefix.
      * rewrite length_append.
        replace (String.length s + String.length (String "." t) - String.length s)
          with (String.length (String "." t)) by lia.
        apply substring_suffix.
    + reflexivity.
    + right. exists t. repeat split; auto.
      destruct (contains "/" t) eqn:Hc; auto.
      assert (Hc' : contains "/" (String "." t) = true) by (simpl; exact Hc).
      pose proof (rfind_append_present "/" s (String "." t) Hc') as Hge.
      lia.
  - exists p, "". split; [reflexivity|]. split; [apply append_empty_r | now left].
Qed.

(** X13.  The output path is never the same string as the input path,
    whatever the input path is. *)
Theorem output_path_is_not_input (p : string) : output_path p <> p.
Proof.
  destruct (splitext_shape p) as [root [ext [E [Hj Hs]]]].
  unfold output_path. rewrite E. cbn [fst]. intros H.
  rewrite <- Hj in H. apply append_cancel_l in H.
  destruct Hs as [-> | [e [-> _]]]; discriminate H.
Qed.

Lemma rfind_lt (c : ascii) (s : string) :
  (rfind c s < Z.of_nat (String.length s))%Z.
Proof.
  induction s as [|a s IH]; simpl rfind; simpl String.length; [lia|].
  destruct (0 <=? rfind c s)%Z; [lia|]. destruct (Ascii.eqb a c); lia.
Qed.

Lemma only_dots_no_separator (s : string) :
  only "." s = true -> contains "/" s = false.
Proof.
  induction s as [|a s IH]; simpl; auto.
  intros H. apply andb_true_iff in H. destruct H as [Ha Hs].
  apply Ascii.eqb_eq in Ha. subst a. simpl. auto.
Qed.

Lemma has_name_char_dots (c : ascii) (k : nat) :
  forall dots dir rest,
    only c dots = true ->
    k <= String.length dots ->
    has_name_char c (dir ++ dots ++ rest) (String.length dir) k = false.
Proof.
  induction k as [|k IH]; intros dots dir rest Hd Hk; [reflexivity|].
  destruct dots as [|a dots]; simpl in Hk; [lia|].
  simpl in Hd. apply andb_true_iff in Hd. destruct Hd as [Ha Hd].
  apply Ascii.eqb_eq in Ha. subst a.
  cbn [has_name_char]. cbn [append]. rewrite substring_at.
  rewrite String.eqb_refl. cbn [negb].
  replace (dir ++ String c (dots ++ rest))
    with ((dir ++ String c "") ++ dots ++ rest)
    by (now rewrite append_assoc).
  replace (S (String.length dir)) with (String.length (dir ++ String c ""))
    by (rewrite length_append; simpl; lia).
  apply IH; auto. lia.
Qed.

(** X14.  A path without extension gets the suffix as it is: when the
    file name has no dot, or only leading dots (a hidden file such as
    [.results]), and whatever dots its directory part has, the output path
    is the whole input path followed by "_output.xlsx". *)
Theorem output_path_without_extension (dir dots rest : string) :
  dir = "" \/ (exists d, dir = d ++ "/") ->
  only "." dots = true ->
  contains "." rest = false ->
  contains "/" rest = false ->
  output_path (dir ++ dots ++ rest) = dir ++ dots ++ rest ++ "_output.xlsx".
Proof.
  intros Hdir Hdots Hrest Hrest'.
  assert (Hsep : rfind "/" (dir ++ dots ++ rest) = rfind "/" dir).
  { apply rfind_append_absent. rewrite contains_append.
    now rewrite (only_dots_no_separator _ Hdots), Hrest'. }
  assert (Hdot : rfind "." (dir ++ dots ++ rest) = rfind "." (dir ++ dots)).
  { rewrite <- append_assoc. now apply rfind_append_absent. }
  pose proof (rfind_lt "." (dir ++ dots)) as Hlt.
  rewrite length_append in Hlt.
  pose proof (rfind_directory Hdir) as Hd.
  assert (Hno : splitext (dir ++ dots ++ rest) = (dir ++ dots ++ rest, "")).
  { unfold splitext, _splitext. rewrite Hsep, Hdot.
    destruct (rfind "/" dir <? rfind "." (dir ++ dots))%Z eqn:E; [|reflexivity].
    apply Z.ltb_lt in E. rewrite Hd, Nat2Z.id.
    rewrite has_name_char_dots; [reflexivity | assumption | lia]. }
  unfold output_path. rewrite Hno. cbn [fst].
  now rewrite !append_assoc.
Qed.

Lemma output_path_without_extension_witness :
  output_path ("run.1/" ++ "." ++ "results") =
  "run.1/" ++ "." ++ "results" ++ "_output.xlsx".
Proof.
  apply output_path_without_extension.
  - right. exists "run.1". reflexivity.
  - reflexivity.
  - reflexivity.
  - reflexivity.
Defined.

(** *** Every path has one of the two shapes *)

Lemma only_append (c : ascii) (s t : string) :
  only c (s ++ t) = only c s && only c t.
Proof.
  induction s as [|a s IH]; simpl; auto. rewrite IH. now rewrite andb_assoc.
Qed.

Lemma splitext_no_extension (dir dots rest : string) :
  dir = "" \/ (exists d, dir = d ++ "/") ->
  only "." dots = true ->
  contains "." rest = false ->
  contains "/" rest = false ->
  splitext (dir ++ dots ++ rest) = (dir ++ dots ++ rest, "").
Proof.
  intros Hdir Hdots Hrest Hrest'.
  assert (Hsep : rfind "/" (dir ++ dots ++ rest) = rfind "/" dir).
  { apply rfind_append_absent. rewrite contains_append.
    now rewrite (only_dots_no_separator _ Hdots), Hrest'. }
  assert (Hdot : rfind "." (dir ++ dots ++ rest) = rfind "." (dir ++ dots)).
  { rewrite <- append_assoc. now apply rfind_append_absent. }
  pose proof (rfind_lt "." (dir ++ dots)) as Hlt.
  rewrite length_append in Hlt.
  pose proof (rfind_directory Hdir) as Hd.
  unfold splitext, _splitext. rewrite Hsep, Hdot.
  destruct (rfind "/" dir <? rfind "." (dir ++ dots))%Z eqn:E; [|reflexivity].
  apply Z.ltb_lt in E. rewrite Hd, Nat2Z.id.
  rewrite has_name_char_dots; [reflexivity | assumption | lia].
Qed.

(** A path is a directory part followed by a name without separator. *)
Lemma split_directory (p : string) :
  exists dir base,
    p = dir ++ base /\
    (dir = "" \/ exists d, dir = d ++ "/") /\
    contains "/" base = false.
Proof.
  destruct (contains "/" p) eqn:Hc.
  - destruct (@rfind_split "/" p (rfind_present _ _ Hc)) as [s [t [Hp [Ht _]]]].
    exists (s ++ "/"), t. repeat split; auto.
    + rewrite Hp. now rewrite append_assoc.
    + right. now exists s.
  - exists "", p. repeat split; auto.
Qed.

(** A name is made of leading dots followed by nothing or by a part that
    starts with another character. *)
Lemma split_leading_dots (base : string) :
  exists dots rest,
    base = dots ++ rest /\
    only "." dots = true /\
    (rest = "" \/ exists a r, rest = String a r /\ a <> "."%char).
Proof.
  induction base as [|a base IH].
  - exists "", "". repeat split; auto.
  - destruct (Ascii.eqb a ".") eqn:Ea.
    + apply Ascii.eqb_eq in Ea. subst a.
      destruct IH as [dots [rest [Hb [Hd Hr]]]].
      exists (String "." dots), rest. repeat split; auto.
      simpl. now rewrite Hb.
    + exists "", (String a base). repeat split; auto.
      right. exists a, base. split; auto.
      intros ->. now rewrite Ascii.eqb_refl in Ea.
Qed.

(** X12.  Every input path has one of two shapes, and the output
    path follows from it.  Either the file name has an extension (the path
    is a directory part, a name that is not made of dots only, a dot, and
    an extension without dot or separator): the output path is the path
    with the dot and the extension replaced by "_output.xlsx".  Or it has
    none (the name is made of leading dots and a part without dot): the
    output path is the whole path followed by "_output.xlsx". *)
Theorem output_path_cases (p : string) :
  (exists dir name ext,
     p = dir ++ name ++ "." ++ ext /\
     (dir = "" \/ exists d, dir = d ++ "/") /\
     contains "/" name = false /\
     only "." name = false /\
     contains "." ext = false /\
     contains "/" ext = false /\
     output_path p = dir ++ name ++ "_output.xlsx") \/
  (exists dir dots rest,
     p = dir ++ dots ++ rest /\
     (dir = "" \/ exists d, dir = d ++ "/") /\
     only "." dots = true /\
     contains "." rest = false /\
     contains "/" rest = false /\
     output_path p = p ++ "_output.xlsx").
Proof.
  destruct (split_directory p) as [dir [base [Hp [Hdir Hbase]]]].
  destruct (split_leading_dots base) as [dots [rest [Hb [Hdots Hrest]]]].
  subst base. rewrite contains_append in Hbase.
  apply orb_false_iff in Hbase. destruct Hbase as [_ Hrs].
  destruct (contains "." rest) eqn:Hdot.
  - left.
    destruct (@rfind_split "." rest (rfind_present _ _ Hdot))
      as [s [t [Hr [Ht _]]]].
    destruct Hrest as [-> | [a [r [Hra Ha]]]]; [discriminate|].
    destruct s as [|b s].
    { exfalso. rewrite Hr in Hra. simpl in Hra. injection Hra as E _.
      now symmetry in E. }
    assert (Hb : b = a).
    { rewrite Hr in Hra. simpl in Hra. now injection Hra. }
    subst b. rewrite Hr in Hrs. rewrite contains_append in Hrs.
    apply orb_false_iff in Hrs. destruct Hrs as [Hs Ht'].
    simpl in Ht'.
    assert (Hname : contains "/" (dots ++ String a s) = false).
    { rewrite contains_append, Hs.
      now rewrite (only_dots_no_separator _ Hdots). }
    assert (Honly : only "." (dots ++ String a s) = false).
    { rewrite only_append, Hdots. simpl.
      destruct (Ascii.eqb a ".") eqn:E; auto.
      apply Ascii.eqb_eq in E. contradiction. }
    assert (Hpath : p = dir ++ (dots ++ String a s) ++ "." ++ t).
    { rewrite Hp, Hr. now rewrite !append_assoc. }
    exists dir, (dots ++ String a s), t.
    repeat (split; [assumption|]).
    unfold output_path. rewrite Hpath.
    rewrite (@splitext_extension dir (dots ++ String a s) t
               Hdir Hname Honly Ht Ht').
    cbn [fst]. now rewrite !append_assoc.
  - right. exists dir, dots, rest.
    repeat (split; [assumption|]).
    unfold output_path. rewrite Hp.
    now rewrite (@splitext_no_extension dir dots rest Hdir Hdots Hdot Hrs).
Qed.

End PathsExtras.

(** * Further properties of the whole function *)

Module ProgramExtras.

Import Reader Evaluator Paths.

Local Open Scope string_scope.

(** The evaluator's outcome on a table the reader returned. *)
Lemma evaluate_succeeds
    (lib : Routines) (Ls Lx Ly Lz : float) (df df' : DataFrame float) :
  wf df -> Cleaning.complete df ->
  clean_table df = inr df' ->
  exists annotated score,
    evaluate (N := float_number lib) Ls Lx Ly Lz df' =
    inr (annotated, score).
Proof.
  intros Hwf Hc E.
  destruct (ReaderFacts.cleaned_shape Hwf Hc E) as [_ [_ Hreq]].
  destruct (EvaluatorFacts.evaluate_numbers lib Ls Lx Ly Lz df' Hreq)
    as [rs [mu [annotated [_ [_ [_ [Hev _]]]]]]].
  eauto.
Qed.

(** X15.  The evaluator raises no error on a table the reader returned,
    whatever the four lengths are (zero and NaN included: a division by
    zero is not an error in binary64). *)
Theorem evaluate_total_on_cleaned
    (lib : Routines) (Ls Lx Ly Lz : float)
    (df df' : DataFrame float) :
  wf df -> Cleaning.complete df ->
  clean_table df = inr df' ->
  exists annotated score,
    evaluate (N := float_number lib) Ls Lx Ly Lz df' =
    inr (annotated, score).
Proof.
  intros Hwf Hc E. exact (evaluate_succeeds lib Ls Lx Ly Lz Hwf Hc E).
Qed.

Lemma evaluate_total_on_cleaned_witness :
  exists df',
    clean_table Examples.dirty_table = inr df' /\
    exists annotated score,
      evaluate (N := float_number Examples.routines)
        0%float PrimFloat.nan 1%float 1%float df' = inr (annotated, score).
Proof.
  eexists. split; [reflexivity|].
  apply (@evaluate_total_on_cleaned Examples.routines 0%float PrimFloat.nan
           1%float 1%float Examples.dirty_table).
  - repeat constructor.
  - intros c. simpl. tauto.
  - reflexivity.
Defined.

(** X16.  A whole run: when the four length cells hold numbers and the
    table has all the required columns and a clean row, the function reads
    the lengths, cleans the table, scores it, writes the annotated table to
    the output path, prints the four lines and returns the annotated table
    and the score. *)
Theorem compute_restraint_score_run
    (lib : Routines) (path : string) (fs : FS) (book : Workbook)
    (a b c d : float) :
  fs path = Some book ->
  iat (raw book) 1 1 = inr (ONum a) ->
  iat (raw book) 2 1 = inr (ONum b) ->
  iat (raw book) 3 1 = inr (ONum c) ->
  iat (raw book) 4 1 = inr (ONum d) ->
  wf (table book TABLE_SKIPROWS) ->
  Cleaning.complete (table book TABLE_SKIPROWS) ->
  Cleaning.dirty_count (table book TABLE_SKIPROWS)
    < nrows (table book TABLE_SKIPROWS) ->
  exists cleaned df score,
    clean_table (table book TABLE_SKIPROWS) = inr cleaned /\
    evaluate (N := float_number lib) a b c d cleaned = inr (df, score) /\
    compute_restraint_score lib path fs =
    (inr (df, score), report path a b c d df score).
Proof.
  intros Hf Ha Hb Hc Hd Hwf Hcomp Hlt.
  destruct (ReaderFacts.clean_table_rows Hwf Hcomp Hlt) as [cleaned [E _]].
  destruct (evaluate_succeeds lib a b c d Hwf Hcomp E) as [df [score Hev]].
  exists cleaned, df, score. split; [exact E|]. split; [exact Hev|].
  unfold compute_restraint_score, bind.
  rewrite (ReaderFacts.read_lengths_cells _ _ Hf Ha Hb Hc Hd).
  rewrite (ReaderFacts.read_restraint_table_run _ _ Hf), E.
  unfold lift. rewrite Hev. reflexivity.
Qed.

Lemma compute_restraint_score_run_witness :
  exists cleaned df score,
    clean_table Examples.p6_table = inr cleaned /\
    evaluate (N := float_number Examples.routines)
      1%float 1%float 1%float 1%float cleaned = inr (df, score) /\
    compute_restraint_score Examples.routines "restraints.xlsx" Examples.p6_fs =
    (inr (df, score),
     report "restraints.xlsx" 1%float 1%float 1%float 1%float df score).
Proof.
  apply (@compute_restraint_score_run Examples.routines "restraints.xlsx"
           Examples.p6_fs Examples.p6_book).
  - reflexivity.
  - reflexivity.
  - reflexivity.
  - reflexivity.
  - reflexivity.
  - repeat constructor.
  - intros c. simpl. tauto.
  - vm_compute. lia.
Defined.

(** X17.  Errors of the reader end the run before anything is written or
    printed, and reach the caller unchanged: an error of [read_lengths]
    whatever the table is (the lengths are read first), an error of
    [read_restraint_table] once the lengths are read. *)
Theorem compute_restraint_score_propagates
    (lib : Routines) (path : string) (fs : FS) :
  (forall e,
     read_lengths path fs = (inl e, []) ->
     compute_restraint_score lib path fs = (inl e, [])) /\
  (forall lengths e,
     read_lengths path fs = (inr lengths, []) ->
     read_restraint_table path fs = (inl e, []) ->
     compute_restraint_score lib path fs = (inl e, [])).
Proof.
  split.
  - intros e H. unfold compute_restraint_score, bind. now rewrite H.
  - intros [[[Ls Lx] Ly] Lz] e H1 H2.
    unfold compute_restraint_score, bind. now rewrite H1, H2.
Qed.

Lemma compute_restraint_score_propagates_witness :
  compute_restraint_score Examples.routines "absent.xlsx" Examples.p6_fs =
    (inl (FileNotFoundError "absent.xlsx"), []) /\
  compute_restraint_score Examples.routines "t.xlsx"
    (Examples.one_file "t.xlsx"
       (Examples.book_of Examples.table_without_weights)) =
    (inl (missing_columns ["wi"; "dij"]), []).
Proof.
  split.
  - apply (proj1 (compute_restraint_score_propagates Examples.routines
                    "absent.xlsx" Examples.p6_fs)).
    reflexivity.
  - apply (proj2 (compute_restraint_score_propagates Examples.routines "t.xlsx"
                    (Examples.one_file "t.xlsx"
                       (Examples.book_of Examples.table_without_weights)))
             (1%float, 1%float, 1%float, 1%float)).
    + reflexivity.
    + reflexivity.
Defined.

End ProgramExtras.
